(** * Wiki generator front end: task polling, structure and content
    reconciliation, payload parsing and diagram preparation.

    A shallow embedding of the TypeScript of [frontend/src]:
    - [lib/api.ts]               ([getTaskStatus]),
    - [app/page.tsx]             ([pollStatus]),
    - [components/WikiViewer.tsx] ([parseContentSafely], [fetchStructure],
      [fetchPage], [findItemById]) together with the sibling revision of the
      same component that matches content URLs by file name,
    - [components/Mermaid.tsx]   ([loadMermaid], [prepareChart],
      [renderChart]).

    Further parts of the same code are covered after the properties above:
    the page around [pollStatus] ([handleSubmit], [handleClear], the effect
    that restores a stored task), [fixMermaidSyntax] of the second revision
    of [components/Mermaid.tsx], the chat panel
    ([components/ChatInterface.tsx]) and the handler of the test server
    ([test-api/index.js]).

    Conventions.  A JavaScript string is a [string]: a sequence of code
    units below 256.  Asynchronous functions are modelled by their
    completion: a value, or a raised error.  The platform (the JSON parser,
    the URL parser, the number printer, the clock) is a parameter of the
    sections that use it; a small executable model of each is given for the
    concrete examples. *)

From Stdlib Require Import String Ascii List ZArith Lia Bool Arith.
From Stdlib Require Import DecimalString.
Import ListNotations.

Set Warnings "-register-all".

Local Open Scope string_scope.
Local Open Scope list_scope.

(* ================================================================== *)
(** ** Strings as the code uses them *)
(* ================================================================== *)

Module Str.

(** The double quote character and a one-character string holding it. *)
Definition dquote : ascii := ascii_of_nat 34.
Definition dq : string := String dquote "".

(** White space removed by [String.prototype.trim], restricted to the code
    units of the model: TAB, LF, VT, FF, CR, SPACE and NBSP. *)
Definition is_space (c : ascii) : bool :=
  let n := nat_of_ascii c in
  (((9 <=? n) && (n <=? 13)) || (n =? 32) || (n =? 160))%nat.

Fixpoint dropWhile {A} (p : A -> bool) (l : list A) : list A :=
  match l with
  | [] => []
  | x :: t => if p x then dropWhile p t else l
  end.

(** [s.trim()] on the list of code units. *)
Definition trim_l (l : list ascii) : list ascii :=
  rev (dropWhile is_space (rev (dropWhile is_space l))).

Definition trim (s : string) : string :=
  string_of_list_ascii (trim_l (list_ascii_of_string s)).

(** [s.startsWith(p)]. *)
Definition startsWith (s p : string) : bool := String.prefix p s.

Fixpoint drop (n : nat) (s : string) : string :=
  match n, s with
  | O, _ => s
  | S _, EmptyString => EmptyString
  | S k, String _ t => drop k t
  end.

(** [s.replace(pat, rep)] with a string pattern: the first occurrence only. *)
Fixpoint replace_first (pat rep s : string) : string :=
  if String.prefix pat s then rep ++ drop (String.length pat) s
  else match s with
       | EmptyString => EmptyString
       | String c t => String c (replace_first pat rep t)
       end.

(** The last element of [s.split('/')]: what follows the last slash, the
    whole string when there is none. *)
Fixpoint last_segment_from (acc s : string) : string :=
  match s with
  | EmptyString => acc
  | String c t =>
      if Ascii.eqb c "/" then last_segment_from t t
      else last_segment_from acc t
  end.

Definition last_segment (s : string) : string := last_segment_from s s.

(** Decimal rendering of an integer: how an array index is written as a
    key, and how a number that is an integer below 2^53 in absolute value
    is printed.  It is the model of the number printer in the examples. *)
Definition of_Z (z : Z) : string :=
  NilEmpty.string_of_int (Z.to_int z).

End Str.

(* ================================================================== *)
(** ** lib/api.ts: [getTaskStatus] *)
(* ================================================================== *)

Module Api.

Inductive Status := pending | processing | completed | failed.

Record GenResponse := {
  r2_structure_url : option string;
  r2_content_urls : option (list string);
}.

Record TaskStatusResponse := {
  task_id : string;
  status : Status;
  progress : Z;
  current_step : string;
  created_at : string;
  updated_at : string;
  result : option GenResponse;
  error : option string;
}.

(** What [axios.get] rejects with: an axios error, carrying the HTTP status
    of the response when there was one, or any other thrown value. *)
Inductive RequestError :=
| AxiosError (response_status : option Z)
| OtherError.

Definition HttpResult := (TaskStatusResponse + RequestError)%type.

(** [axios.isAxiosError(error) && error.response?.status === 404] *)
Definition is_not_found (e : RequestError) : bool :=
  match e with
  | AxiosError (Some code) => Z.eqb code 404
  | _ => false
  end.

(** The record built in the [catch] branch; [now] is what
    [new Date().toISOString()] returns there. *)
Definition not_found_record (now task_id : string) : TaskStatusResponse :=
  {| task_id := task_id;
     status := failed;
     progress := 0;
     current_step := "Task not found";
     created_at := now;
     updated_at := now;
     result := None;
     error := Some "Task not found or expired" |}.

(** [getTaskStatus]: [inl] is the resolved record, [inr] the error thrown
    to the caller.  [get] is the outcome of the GET request. *)
Definition getTaskStatus (now : string) (get : HttpResult) (task_id : string)
  : TaskStatusResponse + RequestError :=
  match get with
  | inl data => inl data
  | inr err =>
      if is_not_found err then inl (not_found_record now task_id)
      else inr err
  end.

End Api.

(* ================================================================== *)
(** ** app/page.tsx: [pollStatus] and the polling loop it drives *)
(* ================================================================== *)

Module Poll.
Import Api.

(** Milliseconds per time unit of the polling policy (one second). *)
Definition time_unit : Z := 1000.

(** The two [setTimeout] delays of [pollStatus], in milliseconds. *)
Definition short_delay : Z := 2000.
Definition long_delay : Z := 5000.

(** [res.status === 'completed' || res.status === 'failed'] *)
Definition is_terminal (s : Status) : bool :=
  match s with
  | completed | failed => true
  | pending | processing => false
  end.

(** Calls made to the history store from the terminal branch.  The helpers
    of [lib/supabase.ts] return the client's [{ error }] record; they do not
    raise. *)
Inductive SyncCall :=
| SyncTaskEnd (id : string) (st : Status) (res : option GenResponse)
| SyncRepository (repo structure_url : string) (content_urls : list string)
| LoadHistory (user : string).

(** What one run of [pollStatus] does once the status request has
    completed: the record passed to [setStatus], the history calls, and the
    timer it arms ([setTimeout(() => pollStatus(id), delay)]). *)
Record Run := {
  emitted : option TaskStatusResponse;
  synced : list SyncCall;
  next_poll : option (Z * string);
}.

(** [res.status === 'completed' && res.result?.r2_structure_url &&
    res.result?.r2_content_urls], then the stored repository URL. *)
Definition repository_sync (saved_repo_url : option string)
    (res : TaskStatusResponse) : list SyncCall :=
  match status res, result res with
  | completed, Some g =>
      match r2_structure_url g, r2_content_urls g with
      | Some su, Some cus =>
          if String.eqb su "" then []
          else match saved_repo_url with
               | Some repo =>
                   if String.eqb repo "" then []
                   else [SyncRepository repo su cus]
               | None => []
               end
      | _, _ => []
      end
  | _, _ => []
  end.

(** [pollStatus(id)] after [await api.getTaskStatus(id)] completed with
    [reply]: [inl] a record, [inr] a thrown error.  [session] is the signed-in
    user, if any; [saved_repo_url] is [localStorage['wiki_gen_repo_url']]. *)
Definition pollStatus (session : option string) (saved_repo_url : option string)
    (id : string) (reply : TaskStatusResponse + RequestError) : Run :=
  match reply with
  | inl res =>
      if is_terminal (status res) then
        {| emitted := Some res;
           synced :=
             match session with
             | Some user =>
                 SyncTaskEnd id (status res) (result res)
                   :: repository_sync saved_repo_url res ++ [LoadHistory user]
             | None => []
             end;
           next_poll := None |}
      else
        {| emitted := Some res;
           synced := [];
           next_poll := Some (short_delay, id) |}
  | inr _ =>
      {| emitted := None; synced := []; next_poll := Some (long_delay, id) |}
  end.

(** One status request as the network answers it: how long it takes, what
    the GET completes with, and the clock reading used by a synthesized
    record. *)
Record Reply := {
  latency : Z;
  http : HttpResult;
  clock : string;
}.

(** Observable events of the loop, each with the time it happens at. *)
Inductive Event :=
| Requested (time : Z) (id : string)
| Emitted (time : Z) (res : TaskStatusResponse).

(** The polling loop started by calling [pollStatus(id)] at time [now]:
    each request is answered by the next reply of [replies]; a request with
    no reply left stays in flight.  A timer armed for [delay] runs
    [pollStatus] again [delay] after the run that armed it. *)
Fixpoint watch (session saved_repo_url : option string)
    (replies : list Reply) (now : Z) (id : string) : list Event :=
  match replies with
  | [] => [Requested now id]
  | r :: rest =>
      let done := (now + latency r)%Z in
      let run :=
        pollStatus session saved_repo_url id
                   (getTaskStatus (clock r) (http r) id) in
      Requested now id
        :: (match emitted run with
            | Some res => [Emitted done res]
            | None => []
            end)
        ++ (match next_poll run with
            | Some (delay, id') =>
                watch session saved_repo_url rest (done + delay)%Z id'
            | None => []
            end)
  end.

(** The requests and the emitted records of a trace. *)
Fixpoint requests (tr : list Event) : list (Z * string) :=
  match tr with
  | [] => []
  | Requested t id :: tl => (t, id) :: requests tl
  | Emitted _ _ :: tl => requests tl
  end.

Fixpoint emissions (tr : list Event) : list TaskStatusResponse :=
  match tr with
  | [] => []
  | Requested _ _ :: tl => emissions tl
  | Emitted _ res :: tl => res :: emissions tl
  end.

(** A reply that keeps the loop going: a record with a non-terminal status,
    or a transport error other than a 404. *)
Definition keeps_polling (r : Reply) : bool :=
  match http r with
  | inl res => negb (is_terminal (status res))
  | inr e => negb (is_not_found e)
  end.

End Poll.

(* ================================================================== *)
(** ** JavaScript values, as far as the viewer inspects them *)
(* ================================================================== *)

Module JS.

(** A value read from a JSON document, or [undefined].  A number is given
    by the integer it equals (numbers with a fraction are left out); the
    code only tests numbers for truthiness and prints them.  The fields of
    an object are kept in the order [Object.keys] lists them. *)
Inductive value :=
| VUndefined
| VNull
| VBool (b : bool)
| VNum (z : Z)
| VStr (s : string)
| VArr (items : list value)
| VObj (fields : list (string * value)).

(** ToBoolean. *)
Definition truthy (v : value) : bool :=
  match v with
  | VUndefined | VNull => false
  | VBool b => b
  | VNum z => negb (Z.eqb z 0)
  | VStr s => negb (String.eqb s "")
  | VArr _ | VObj _ => true
  end.

(** [a || b] *)
Definition or (a b : value) : value := if truthy a then a else b.

Fixpoint lookup (k : string) (fields : list (string * value)) : value :=
  match fields with
  | [] => VUndefined
  | (k', v) :: rest => if String.eqb k k' then v else lookup k rest
  end.

(** [v.k] for the property names the code reads ([intro], [sections],
    [mermaid], [id], [section_id], [filename], [title], [name], [children],
    [toc], [pages]), none of which a built-in prototype defines: the own
    field of an object, [undefined] on any other non-nullish value, and a
    TypeError ([None]) on [null] and [undefined]. *)
Definition get (v : value) (k : string) : option value :=
  match v with
  | VUndefined | VNull => None
  | VObj fields => Some (lookup k fields)
  | _ => Some VUndefined
  end.

Definition is_string (v : value) : bool :=
  match v with VStr _ => true | _ => false end.

(** [Array.isArray(v)] *)
Definition is_array (v : value) : bool :=
  match v with VArr _ => true | _ => false end.

Definition has_key (k : string) (fields : list (string * value)) : bool :=
  existsb (fun kv => String.eqb k (fst kv)) fields.

Fixpoint join (sep : string) (parts : list string) : string :=
  match parts with
  | [] => ""
  | [p] => p
  | p :: rest => p ++ sep ++ join sep rest
  end.

Fixpoint sequence {A} (l : list (option A)) : option (list A) :=
  match l with
  | [] => Some []
  | None :: _ => None
  | Some x :: rest =>
      match sequence rest with
      | Some xs => Some (x :: xs)
      | None => None
      end
  end.

Section Printing.

(** How the platform prints a number ([Number::toString]): the decimal
    digits of an integer below 2^53 in absolute value, the exponent form
    from 10^21 on.  It is taken as it is. *)
Variable Number_toString : Z -> string.

(** ToString, as a template literal applies it; [None] is a TypeError.  An
    array prints its elements joined by commas, [null] and [undefined]
    elements as the empty string.  A plain object prints as
    [[object Object]]; when it has an own [toString] field (never callable
    in a JSON document) the conversion falls through [valueOf] and raises. *)
Fixpoint toString (v : value) : option string :=
  match v with
  | VUndefined => Some "undefined"
  | VNull => Some "null"
  | VBool true => Some "true"
  | VBool false => Some "false"
  | VNum z => Some (Number_toString z)
  | VStr s => Some s
  | VArr items =>
      option_map (join ",")
        (sequence
           (map (fun item =>
                   match item with
                   | VUndefined | VNull => Some ""
                   | _ => toString item
                   end) items))
  | VObj fields =>
      if has_key "toString" fields then None else Some "[object Object]"
  end.

End Printing.

End JS.

(* ================================================================== *)
(** ** An executable model of [JSON.parse] *)
(* ================================================================== *)

(** The viewer's functions take the parser as a parameter.  This model is
    used to run them on concrete documents.  It reads objects, arrays,
    strings with the one-letter escapes, integer literals, [true], [false]
    and [null]; fractions, exponents and [\u] escapes are outside it (it
    answers [None], a SyntaxError, on them).  Object fields keep the order
    of the document, also where [Object.keys] would list integer-like keys
    first; a repeated key keeps its place and takes the last value; an
    integer literal is read exactly, also above 2^53.  The examples use
    documents on which the model and [JSON.parse] agree. *)
Module Json.
Import JS.

Definition is_ws (c : ascii) : bool :=
  let n := nat_of_ascii c in
  ((n =? 32) || (n =? 9) || (n =? 10) || (n =? 13))%nat.

Definition skip_ws (l : list ascii) : list ascii := Str.dropWhile is_ws l.

Definition is_digit (c : ascii) : bool :=
  let n := nat_of_ascii c in ((48 <=? n) && (n <=? 57))%nat.

Definition digit_val (c : ascii) : Z := Z.of_nat (nat_of_ascii c - 48).

(** The character an escape letter stands for. *)
Definition unescape (e : ascii) : option ascii :=
  let n := nat_of_ascii e in
  if (n =? 34)%nat then Some Str.dquote
  else if Ascii.eqb e "\" then Some "\"%char
  else if Ascii.eqb e "/" then Some "/"%char
  else if Ascii.eqb e "b" then Some (ascii_of_nat 8)
  else if Ascii.eqb e "f" then Some (ascii_of_nat 12)
  else if Ascii.eqb e "n" then Some (ascii_of_nat 10)
  else if Ascii.eqb e "r" then Some (ascii_of_nat 13)
  else if Ascii.eqb e "t" then Some (ascii_of_nat 9)
  else None.

(** The characters of a string literal after its opening quote, and what
    follows the closing quote. *)
Fixpoint parse_string_body (l : list ascii) : option (list ascii * list ascii) :=
  match l with
  | [] => None
  | c :: t =>
      if Ascii.eqb c Str.dquote then Some ([], t)
      else if Ascii.eqb c "\" then
        match t with
        | e :: t' =>
            match unescape e, parse_string_body t' with
            | Some d, Some (cs, r) => Some (d :: cs, r)
            | _, _ => None
            end
        | [] => None
        end
      else if (nat_of_ascii c <? 32)%nat then None
      else
        match parse_string_body t with
        | Some (cs, r) => Some (c :: cs, r)
        | None => None
        end
  end.

Fixpoint parse_digits (acc : Z) (l : list ascii) : Z * list ascii :=
  match l with
  | c :: t =>
      if is_digit c then parse_digits (10 * acc + digit_val c)%Z t
      else (acc, l)
  | [] => (acc, l)
  end.

(** An integer literal whose first digit is [d]; [rest] follows [d]. *)
Definition parse_int (neg : bool) (d : ascii) (rest : list ascii)
  : option (value * list ascii) :=
  let '(n, r) :=
    if Ascii.eqb d "0" then (0%Z, rest) else parse_digits (digit_val d) rest in
  match r with
  | c :: _ =>
      if is_digit c || Ascii.eqb c "." || Ascii.eqb c "e" || Ascii.eqb c "E"
      then None
      else Some (VNum (if neg then (- n)%Z else n), r)
  | [] => Some (VNum (if neg then (- n)%Z else n), r)
  end.

Fixpoint set_field (k : string) (v : value) (fields : list (string * value))
  : list (string * value) :=
  match fields with
  | [] => [(k, v)]
  | (k', v') :: rest =>
      if String.eqb k k' then (k', v) :: rest
      else (k', v') :: set_field k v rest
  end.

Definition expect (word : string) (v : value) (l : list ascii)
  : option (value * list ascii) :=
  let w := list_ascii_of_string word in
  if list_eq_dec ascii_dec (firstn (List.length w) l) w
  then Some (v, skipn (List.length w) l)
  else None.

Fixpoint parse_value (fuel : nat) (l : list ascii) {struct fuel}
  : option (value * list ascii) :=
  match fuel with
  | O => None
  | S fuel' =>
      match skip_ws l with
      | [] => None
      | c :: t =>
          if Ascii.eqb c Str.dquote then
            match parse_string_body t with
            | Some (cs, r) => Some (VStr (string_of_list_ascii cs), r)
            | None => None
            end
          else if Ascii.eqb c "[" then
            match skip_ws t with
            | "]"%char :: r => Some (VArr [], r)
            | _ =>
                match parse_elements fuel' t with
                | Some (items, r) => Some (VArr items, r)
                | None => None
                end
            end
          else if Ascii.eqb c "{" then
            match skip_ws t with
            | "}"%char :: r => Some (VObj [], r)
            | _ =>
                match parse_members fuel' [] t with
                | Some (fields, r) => Some (VObj fields, r)
                | None => None
                end
            end
          else if Ascii.eqb c "t" then expect "true" (VBool true) (c :: t)
          else if Ascii.eqb c "f" then expect "false" (VBool false) (c :: t)
          else if Ascii.eqb c "n" then expect "null" VNull (c :: t)
          else if Ascii.eqb c "-" then
            match t with
            | d :: r => if is_digit d then parse_int true d r else None
            | [] => None
            end
          else if is_digit c then parse_int false c t
          else None
      end
  end

with parse_elements (fuel : nat) (l : list ascii) {struct fuel}
  : option (list value * list ascii) :=
  match fuel with
  | O => None
  | S fuel' =>
      match parse_value fuel' l with
      | Some (v, r) =>
          match skip_ws r with
          | ","%char :: r' =>
              match parse_elements fuel' r' with
              | Some (vs, r'') => Some (v :: vs, r'')
              | None => None
              end
          | "]"%char :: r' => Some ([v], r')
          | _ => None
          end
      | None => None
      end
  end

with parse_members (fuel : nat) (acc : list (string * value)) (l : list ascii)
    {struct fuel} : option (list (string * value) * list ascii) :=
  match fuel with
  | O => None
  | S fuel' =>
      match skip_ws l with
      | c :: t =>
          if Ascii.eqb c Str.dquote then
            match parse_string_body t with
            | Some (k, r) =>
                match skip_ws r with
                | ":"%char :: r1 =>
                    match parse_value fuel' r1 with
                    | Some (v, r2) =>
                        let acc' := set_field (string_of_list_ascii k) v acc in
                        match skip_ws r2 with
                        | ","%char :: r3 => parse_members fuel' acc' r3
                        | "}"%char :: r3 => Some (acc', r3)
                        | _ => None
                        end
                    | None => None
                    end
                | _ => None
                end
            | None => None
            end
          else None
      | [] => None
      end
  end.

(** [JSON.parse(text)]: [None] is a SyntaxError. *)
Definition parse (text : string) : option value :=
  let l := list_ascii_of_string text in
  match parse_value (2 * List.length l + 2) l with
  | Some (v, r) =>
      match skip_ws r with
      | [] => Some v
      | _ :: _ => None
      end
  | None => None
  end.

End Json.

(* ================================================================== *)
(** ** components/WikiViewer.tsx: [parseContentSafely] *)
(* ================================================================== *)

Module Payload.
Import JS.

(** The object [parseContentSafely] returns.  Its declared type is
    [{ intro: string; sections: Section[]; mermaid?: string }]; at run time
    the fields hold whatever the expressions evaluate to. *)
Record Content := {
  intro : value;
  sections : value;
  mermaid : value;
}.

(** [{ intro: '', sections: [], mermaid: '' }] *)
Definition empty_content : Content :=
  {| intro := VStr ""; sections := VArr []; mermaid := VStr "" |}.

(** [rawContent.intro.trim().startsWith('{')] *)
Definition looks_serialized (s : string) : bool :=
  Str.startsWith (Str.trim s) "{".

Section WithParser.

(** [JSON.parse]; [None] when it throws. *)
Variable JSON_parse : string -> option value.

(** The two returns that use the outer object only (the [catch] of the inner
    [try], and the return after the [if]). *)
Definition outer_content (rawContent : value) (intro_text : string) : Content :=
  {| intro := VStr intro_text;
     sections :=
       match get rawContent "sections" with
       | Some v => or v (VArr [])
       | None => VArr []
       end;
     mermaid :=
       match get rawContent "mermaid" with
       | Some v => or v (VStr "")
       | None => VStr ""
       end |}.

(** The body of the inner [try]: [JSON.parse(rawContent.intro)] and the
    object built from it; [None] when that block throws. *)
Definition from_parsed_intro (rawContent : value) (intro_text : string)
  : option Content :=
  match JSON_parse intro_text with
  | None => None
  | Some parsedIntro =>
      match get parsedIntro "intro",
            get parsedIntro "sections",
            get parsedIntro "mermaid",
            get rawContent "sections",
            get rawContent "mermaid" with
      | Some p_intro, Some p_sections, Some p_mermaid,
        Some r_sections, Some r_mermaid =>
          Some {| intro := or p_intro (VStr intro_text);
                  sections := or (or p_sections r_sections) (VArr []);
                  mermaid := or (or p_mermaid r_mermaid) (VStr "") |}
      | _, _, _, _, _ => None
      end
  end.

(** The first [if]: [rawContent && typeof rawContent === 'object' &&
    typeof rawContent.intro === 'string' && Array.isArray(rawContent.sections)];
    the intro text when it holds. *)
Definition well_shaped (rawContent : value) : option string :=
  match rawContent with
  | VObj fields =>
      match lookup "intro" fields, lookup "sections" fields with
      | VStr i, VArr _ => Some i
      | _, _ => None
      end
  | _ => None
  end.

(** [parseContentSafely], with a bound on the depth of the recursion through
    string payloads; [None] when the bound is reached. *)
Fixpoint parseContentSafely_depth (depth : nat) (rawContent : value)
  : option Content :=
  match well_shaped rawContent with
  | Some intro_text =>
      if looks_serialized intro_text then
        match from_parsed_intro rawContent intro_text with
        | Some c => Some c
        | None => Some (outer_content rawContent intro_text)
        end
      else Some (outer_content rawContent intro_text)
  | None =>
      match rawContent with
      | VStr text =>
          match JSON_parse text with
          | Some parsed =>
              match depth with
              | O => None
              | S d => parseContentSafely_depth d parsed
              end
          | None => Some empty_content
          end
      | _ => Some empty_content
      end
  end.

(** A bound that is never reached when parsing a string to a string
    shortens it: one more than the length of a string payload. *)
Definition layers (rawContent : value) : nat :=
  match rawContent with
  | VStr text => S (String.length text)
  | _ => 0
  end.

Definition parseContentSafely (rawContent : value) : option Content :=
  parseContentSafely_depth (layers rawContent) rawContent.

End WithParser.

End Payload.

(* ================================================================== *)
(** ** components/WikiViewer.tsx: the structure normalizer of
       [fetchStructure] *)
(* ================================================================== *)

Module Structure.
Import JS.

Section WithPrinter.

(** The platform's printing of numbers, for ids that are numbers. *)
Variable Number_toString : Z -> string.

(** An element of [normalized]: [{ id, title, filename, children }]. *)
Record Item := {
  id : value;
  title : value;
  filename : value;
  children : value;
}.

(** [item.id || item.section_id || item.filename?.replace('.json', '') ||
    'unknown']; [None] when [replace] is called on a value that has no such
    method (a truthy filename that is not a string). *)
Definition derive_id (item_id section_id item_filename : value)
  : option value :=
  if truthy item_id then Some item_id
  else if truthy section_id then Some section_id
  else
    match item_filename with
    | VUndefined | VNull => Some (VStr "unknown")
    | VStr f => Some (or (VStr (Str.replace_first ".json" "" f)) (VStr "unknown"))
    | _ => None
    end.

(** [item.filename || `${id}.json`] *)
Definition derive_filename (item_filename id : value) : option value :=
  if truthy item_filename then Some item_filename
  else
    match toString Number_toString id with
    | Some s => Some (VStr (s ++ ".json"))
    | None => None
    end.

(** The callback of [data.map] that builds [normalized]; [None] when it
    throws. *)
Definition normalizeItem (item : value) : option Item :=
  match get item "id", get item "section_id", get item "filename",
        get item "title", get item "name", get item "children" with
  | Some item_id, Some section_id, Some item_filename,
    Some item_title, Some item_name, Some item_children =>
      match derive_id item_id section_id item_filename with
      | Some id' =>
          match derive_filename item_filename id' with
          | Some filename' =>
              Some {| id := id';
                      title := or (or item_title item_name) (VStr "Untitled");
                      filename := filename';
                      children := item_children |}
          | None => None
          end
      | None => None
      end
  | _, _, _, _, _, _ => None
  end.

(** The filename of the sibling revision:
    [item.filename || (item.id ? `${item.id}.json` : null) ||
     (item.section_id ? `${item.section_id}.json` : null)]. *)
Definition derive_filename_sibling (item_filename item_id section_id : value)
  : option value :=
  if truthy item_filename then Some item_filename
  else if truthy item_id then
    match toString Number_toString item_id with
    | Some s => Some (VStr (s ++ ".json"))
    | None => None
    end
  else if truthy section_id then
    match toString Number_toString section_id with
    | Some s => Some (VStr (s ++ ".json"))
    | None => None
    end
  else Some VNull.

Definition normalizeItem_sibling (item : value) : option Item :=
  match get item "id", get item "section_id", get item "filename",
        get item "title", get item "name", get item "children" with
  | Some item_id, Some section_id, Some item_filename,
    Some item_title, Some item_name, Some item_children =>
      match derive_id item_id section_id item_filename with
      | Some id' =>
          match derive_filename_sibling item_filename item_id section_id with
          | Some filename' =>
              Some {| id := id';
                      title := or (or item_title item_name) (VStr "Untitled");
                      filename := filename';
                      children := item_children |}
          | None => None
          end
      | None => None
      end
  | _, _, _, _, _, _ => None
  end.

(** [data.map(normalizeItem)] *)
Definition normalize (data : list value) : option (list Item) :=
  sequence (map normalizeItem data).

(** The same in the sibling revision. *)
Definition normalize_sibling (data : list value) : option (list Item) :=
  sequence (map normalizeItem_sibling data).

Fixpoint indexed_chars (i : Z) (s : string) : list value :=
  match s with
  | EmptyString => []
  | String c t =>
      VObj [("id", VStr (Str.of_Z i)); ("title", VStr (String c ""))]
        :: indexed_chars (i + 1)%Z t
  end.

(** One element of [Object.keys(data).map(key => ({ id: key, title: ... }))]
    for a field [key: v] of an object. *)
Definition keyed_node (key : string) (v : value) : option value :=
  match v with
  | VStr _ => Some (VObj [("id", VStr key); ("title", v)])
  | _ =>
      match get v "title" with
      | Some t => Some (VObj [("id", VStr key); ("title", or t (VStr key))])
      | None => None
      end
  end.

(** The node list taken from the response body: the body itself when it is
    an array, else its [toc] or [pages] array, else one node per key. *)
Definition node_list (data : value) : option (list value) :=
  match data with
  | VArr items => Some items
  | _ =>
      match get data "toc", get data "pages" with
      | Some toc, Some pages =>
          match toc, pages with
          | VArr items, _ => Some items
          | _, VArr items => Some items
          | _, _ =>
              match data with
              | VObj fields =>
                  sequence (map (fun kv => keyed_node (fst kv) (snd kv)) fields)
              | VStr s => Some (indexed_chars 0 s)
              | _ => Some []
              end
          end
      | _, _ => None
      end
  end.

(** The value passed to [setStructure]; [None] when the [try] block throws
    (the viewer then shows its structure error). *)
Definition fetchStructure (data : value) : option (list Item) :=
  match node_list data with
  | Some items => normalize items
  | None => None
  end.

End WithPrinter.

End Structure.

(* ================================================================== *)
(** ** components/WikiViewer.tsx: the structure tree and [fetchPage] *)
(* ================================================================== *)

Module Viewer.

(** [interface WikiStructureItem { id: string; title: string;
    filename?: string; children?: WikiStructureItem[] }] *)
Inductive WikiStructureItem :=
| mkItem (id : string) (title : string) (filename : option string)
         (children : option (list WikiStructureItem)).

Definition id (item : WikiStructureItem) : string :=
  match item with mkItem i _ _ _ => i end.

Definition title (item : WikiStructureItem) : string :=
  match item with mkItem _ t _ _ => t end.

Definition filename (item : WikiStructureItem) : option string :=
  match item with mkItem _ _ f _ => f end.

Definition children (item : WikiStructureItem) : option (list WikiStructureItem) :=
  match item with mkItem _ _ _ c => c end.

(** [findItemById] on one item and its descendants: the item itself when its
    id is the one looked for, else the first hit among its children. *)
Fixpoint findItemById_in (wanted : string) (item : WikiStructureItem)
  : option WikiStructureItem :=
  match item with
  | mkItem i _ _ ch =>
      if String.eqb i wanted then Some item
      else
        match ch with
        | Some cs =>
            (fix among (l : list WikiStructureItem) : option WikiStructureItem :=
               match l with
               | [] => None
               | c :: t =>
                   match findItemById_in wanted c with
                   | Some found => Some found
                   | None => among t
                   end
               end) cs
        | None => None
        end
  end.

(** [findItemById(items, id)] *)
Fixpoint findItemById (items : list WikiStructureItem) (wanted : string)
  : option WikiStructureItem :=
  match items with
  | [] => None
  | item :: rest =>
      match findItemById_in wanted item with
      | Some found => Some found
      | None => findItemById rest wanted
      end
  end.

(** [traverse] of [flattenStructure] on one item: the item, then its
    descendants in depth-first order. *)
Fixpoint traverse_item (item : WikiStructureItem) : list WikiStructureItem :=
  item ::
  match item with
  | mkItem _ _ _ (Some cs) =>
      (fix traverse (l : list WikiStructureItem) : list WikiStructureItem :=
         match l with
         | [] => []
         | c :: t => traverse_item c ++ traverse t
         end) cs
  | mkItem _ _ _ None => []
  end.

(** [flattenStructure(items)] *)
Fixpoint flattenStructure (items : list WikiStructureItem)
  : list WikiStructureItem :=
  match items with
  | [] => []
  | item :: rest => traverse_item item ++ flattenStructure rest
  end.

(** [array.findIndex(p)], counting from [i]: [-1] when nothing satisfies
    [p]. *)
Fixpoint findIndex_from {A} (p : A -> bool) (l : list A) (i : Z) : Z :=
  match l with
  | [] => (-1)%Z
  | x :: t => if p x then i else findIndex_from p t (i + 1)%Z
  end.

Definition findIndex {A} (p : A -> bool) (l : list A) : Z :=
  findIndex_from p l 0%Z.

(** The outcome of the lookup part of [fetchPage]: the content URL, or the
    message of the [Error] it throws. *)
Definition Lookup := (string + string)%type.

(** The lookup of [fetchPage] in [WikiViewer.tsx]: by position in the
    depth-first flattening.  [contentUrls[index]] is [undefined] outside the
    list; the last branch stands for that and is never reached, as the guard
    before it bounds the index. *)
Definition lookup_by_index (structure : list WikiStructureItem)
    (contentUrls : list string) (selectedId : string) : Lookup :=
  match findItemById structure selectedId with
  | None => inr "Page not found in structure"
  | Some _ =>
      let flatStructure := flattenStructure structure in
      let index := findIndex (fun item => String.eqb (id item) selectedId)
                             flatStructure in
      if (index =? -1)%Z || (Z.of_nat (List.length contentUrls) <=? index)%Z
      then inr ("Content URL not found for " ++ selectedId)%string
      else
        match nth_error contentUrls (Z.to_nat index) with
        | Some matchedUrl => inl matchedUrl
        | None => inr "undefined"
        end
  end.

Section WithUrlParser.

(** [new URL(url).pathname]; [None] when the constructor throws. *)
Variable pathname : string -> option string.

(** [extractFilename(url)] of the sibling revision; [None] is [null]. *)
Definition extractFilename (url : string) : option string :=
  if String.eqb url "" then None
  else
    let last :=
      match pathname url with
      | Some path => Str.last_segment path
      | None => Str.last_segment url
      end in
    if String.eqb last "" then None else Some last.

(** [item.filename || `${item.id}.json`] *)
Definition expectedFilename (item : WikiStructureItem) : string :=
  match filename item with
  | Some f => if String.eqb f "" then (id item ++ ".json")%string else f
  | None => (id item ++ ".json")%string
  end.

Definition without_ext (s : string) : string :=
  Str.replace_first ".json" "" s.

(** The condition under which the loop over [contentUrls] takes [url]. *)
Definition url_matches (item : WikiStructureItem) (url : string) : bool :=
  match extractFilename url with
  | None => false
  | Some urlFilename =>
      let urlFilenameWithoutExt := without_ext urlFilename in
      String.eqb urlFilename (expectedFilename item)
      || String.eqb urlFilename (id item ++ ".json")
      || String.eqb urlFilenameWithoutExt (without_ext (expectedFilename item))
      || String.eqb urlFilenameWithoutExt (without_ext (id item))
      || String.eqb urlFilenameWithoutExt (id item)
      || match filename item with
         | Some f => String.eqb urlFilenameWithoutExt (without_ext f)
         | None => false
         end
  end.

(** The lookup of [fetchPage] in the sibling revision: the first URL of the
    list whose file name matches the item. *)
Definition lookup_by_name (structure : list WikiStructureItem)
    (contentUrls : list string) (selectedId : string) : Lookup :=
  match findItemById structure selectedId with
  | None => inr "Page not found in structure"
  | Some item =>
      match find (url_matches item) contentUrls with
      | Some matchedUrl => inl matchedUrl
      | None =>
          inr ("Content URL not found for " ++ expectedFilename item
               ++ " (id: " ++ id item ++ ")")%string
      end
  end.

End WithUrlParser.

(** *** The component state and what it renders *)

Record State := {
  structure : list WikiStructureItem;
  selectedId : option string;
  pageContent : option string;
  loading : bool;
  loadingPage : bool;
  error : option string;
}.

(** What the component returns: the spinner, the error paragraph alone, or
    the sidebar with the page. *)
Inductive View :=
| Spinner
| ErrorScreen (message : string)
| Browser (sidebar : list WikiStructureItem) (page : option string).

Definition render (st : State) : View :=
  if loading st && Nat.eqb (List.length (structure st)) 0 then Spinner
  else
    match error st with
    | Some message => if String.eqb message "" then
                        Browser (structure st) (pageContent st)
                      else ErrorScreen message
    | None => Browser (structure st) (pageContent st)
    end.

(** Which revision of [fetchPage] runs. *)
Inductive Revision := ByIndex | ByName.

Section Effects.

Variable pathname : string -> option string.

(** What follows the lookup inside the [try] block: the GET of the content
    URL and the page built from the response; [None] when it throws. *)
Variable request : string -> option string.

Variable contentUrls : list string.

Definition lookup (rev : Revision) (st : State) (selected : string) : Lookup :=
  match rev with
  | ByIndex => lookup_by_index (structure st) contentUrls selected
  | ByName => lookup_by_name pathname (structure st) contentUrls selected
  end.

(** The [catch] block of [fetchPage]: [setError('Failed to load page
    content.')] in [WikiViewer.tsx]; the sibling revision only logs. *)
Definition on_page_failure (rev : Revision) (st : State) : State :=
  match rev with
  | ByIndex =>
      {| structure := structure st; selectedId := selectedId st;
         pageContent := pageContent st; loading := loading st;
         loadingPage := false;
         error := Some "Failed to load page content." |}
  | ByName =>
      {| structure := structure st; selectedId := selectedId st;
         pageContent := pageContent st; loading := loading st;
         loadingPage := false; error := error st |}
  end.

(** The page effect, run to completion for the current selection. *)
Definition fetchPage_effect (rev : Revision) (st : State) : State :=
  match selectedId st with
  | None => st
  | Some selected =>
      if String.eqb selected "" || Nat.eqb (List.length (structure st)) 0
         || Nat.eqb (List.length contentUrls) 0
      then st
      else
        match lookup rev st selected with
        | inl url =>
            match request url with
            | Some body =>
                {| structure := structure st; selectedId := selectedId st;
                   pageContent := Some body; loading := loading st;
                   loadingPage := false; error := error st |}
            | None => on_page_failure rev st
            end
        | inr _ => on_page_failure rev st
        end
  end.

(** A click on the sidebar entry of [target]: [setSelectedId(target)] and
    the page effect that follows.  There is an entry to click only while the
    sidebar is rendered. *)
Definition select (rev : Revision) (st : State) (target : string) : State :=
  match render st with
  | Browser _ _ =>
      fetchPage_effect rev
        {| structure := structure st; selectedId := Some target;
           pageContent := pageContent st; loading := loading st;
           loadingPage := loadingPage st; error := error st |}
  | _ => st
  end.

End Effects.

(** A model of [new URL(url).pathname] for absolute URLs with an authority
    ([scheme://host/path?query#fragment]): the text from the first slash
    after the authority up to the query or fragment, ["/"] when there is no
    such slash; [None] (the constructor throws) when the text has no
    [://].  Dot segments and percent-encoding are left as written: the
    model is for the examples, on URLs that have neither. *)
Fixpoint after_scheme (s : string) : option string :=
  match s with
  | EmptyString => None
  | String c t =>
      if String.prefix "://" s then Some (Str.drop 3 s) else after_scheme t
  end.

Fixpoint until_query (s : string) : string :=
  match s with
  | EmptyString => EmptyString
  | String c t =>
      if Ascii.eqb c "?" || Ascii.eqb c "#" then EmptyString
      else String c (until_query t)
  end.

Fixpoint from_slash (s : string) : string :=
  match s with
  | EmptyString => "/"
  | String c t =>
      if Ascii.eqb c "/" then s
      else if Ascii.eqb c "?" || Ascii.eqb c "#" then "/"
      else from_slash t
  end.

Definition url_pathname (url : string) : option string :=
  match after_scheme url with
  | Some rest => Some (until_query (from_slash rest))
  | None => None
  end.

End Viewer.

(* ================================================================== *)
(** ** components/Mermaid.tsx: [prepareChart] *)
(* ================================================================== *)

Module Chart.

(** [\w]: a letter, a digit or the underscore. *)
Definition is_word (c : ascii) : bool :=
  let n := nat_of_ascii c in
  (((48 <=? n) && (n <=? 57)) || ((65 <=? n) && (n <=? 90))
   || ((97 <=? n) && (n <=? 122)) || (n =? 95))%nat.

(** [\[|\(|\{] *)
Definition is_open (c : ascii) : bool :=
  Ascii.eqb c "[" || Ascii.eqb c "(" || Ascii.eqb c "{".

(** [\]|\)|\}], and the complement class [[^\]\)\}]] of the label. *)
Definition is_close (c : ascii) : bool :=
  Ascii.eqb c "]" || Ascii.eqb c ")" || Ascii.eqb c "}".

Definition is_label (c : ascii) : bool := negb (is_close c).

(** The double and the single quote (the class of the quote test). *)
Definition is_quote (c : ascii) : bool :=
  let n := nat_of_ascii c in ((n =? 34) || (n =? 39))%nat.

(** Line terminators, which [.] does not match: LF and CR. *)
Definition is_line_terminator (c : ascii) : bool :=
  let n := nat_of_ascii c in ((n =? 10) || (n =? 13))%nat.

(** [[\/\(\)@#&<>]] *)
Definition is_special (c : ascii) : bool :=
  Ascii.eqb c "/" || Ascii.eqb c "(" || Ascii.eqb c ")" || Ascii.eqb c "@"
  || Ascii.eqb c "#" || Ascii.eqb c "&" || Ascii.eqb c "<" || Ascii.eqb c ">".

Definition newline : ascii := ascii_of_nat 10.

(** [prepared.replace(/\\n/g, '\n')]: every backslash followed by [n]
    becomes a line feed, scanning from the left. *)
Fixpoint unescape_newlines (l : list ascii) : list ascii :=
  match l with
  | [] => []
  | c :: t =>
      match t with
      | d :: t' =>
          if Ascii.eqb c "\" && Ascii.eqb d "n"
          then newline :: unescape_newlines t'
          else c :: unescape_newlines t
      | [] => [c]
      end
  end.

(** The longest prefix whose characters satisfy [p], and what follows it:
    what a greedy [p+] consumes. *)
Fixpoint span (p : ascii -> bool) (l : list ascii) : list ascii * list ascii :=
  match l with
  | [] => ([], [])
  | c :: t =>
      if p c then let '(a, b) := span p t in (c :: a, b) else ([], l)
  end.

(** One match of the label pattern. *)
Record Match := {
  nodeId : list ascii;
  openBracket : ascii;
  label : list ascii;
  closeBracket : ascii;
  rest : list ascii;
}.

(** An attempt of [(\w+)(\[|\(|\{)([^\]\)\}]+)(\]|\)|\})] anchored at the
    head of [l].  Each greedy run is followed by a character outside its own
    class, so the only split that can succeed is the longest run; giving
    characters back never helps. *)
Definition match_at (l : list ascii) : option Match :=
  match span is_word l with
  | ((_ :: _) as w, o :: r1) =>
      if is_open o then
        match span is_label r1 with
        | ((_ :: _) as lab, c :: r2) =>
            Some {| nodeId := w; openBracket := o; label := lab;
                    closeBracket := c; rest := r2 |}
        | _ => None
        end
      else None
  | _ => None
  end.

(** The quote test applied to [label.trim()] (a quote, [.*], a quote,
    anchored at both ends): after trimming, a quote, then characters none of
    which ends a line, then a quote that ends the text. *)
Definition quote_wrapped (lab : list ascii) : bool :=
  match Str.trim_l lab with
  | first :: tl =>
      is_quote first
      && match rev tl with
         | last :: middle =>
             is_quote last && forallb (fun c => negb (is_line_terminator c)) middle
         | [] => false
         end
  | [] => false
  end.

(** [/[\/\(\)@#&<>]/.test(label)] *)
Definition has_special (lab : list ascii) : bool := existsb is_special lab.

(** The replacement callback: the text that replaces one match. *)
Definition replacement (m : Match) : list ascii :=
  if quote_wrapped (label m) then
    nodeId m ++ openBracket m :: label m ++ [closeBracket m]
  else if has_special (label m) then
    nodeId m ++ openBracket m :: Str.dquote :: label m
      ++ [Str.dquote; closeBracket m]
  else nodeId m ++ openBracket m :: label m ++ [closeBracket m].

(** The global replace: at each position from the left, a match is replaced
    and the scan goes on after it; otherwise one character is copied.
    [fuel] bounds the number of steps. *)
Fixpoint quote_labels_fuel (fuel : nat) (l : list ascii) : list ascii :=
  match fuel with
  | O => l
  | S fuel' =>
      match match_at l with
      | Some m => replacement m ++ quote_labels_fuel fuel' (rest m)
      | None =>
          match l with
          | [] => []
          | c :: t => c :: quote_labels_fuel fuel' t
          end
      end
  end.

Definition quote_labels (l : list ascii) : list ascii :=
  quote_labels_fuel (S (List.length l)) l.




(** [prepareChart] on code units. *)
Definition prepare_l (code : list ascii) : list ascii :=
  quote_labels (unescape_newlines (Str.trim_l code)).

(** [prepareChart(code)] *)
Definition prepareChart (code : string) : string :=
  string_of_list_ascii (prepare_l (list_ascii_of_string code)).

End Chart.

(* ================================================================== *)
(** ** components/Mermaid.tsx: the engine singleton and the two effects *)
(* ================================================================== *)

Module Engine.

(** The module-level variables [mermaidInitialized] and [mermaidModule]
    (loaded or [null]), with two counters that observe the calls of
    [import('mermaid')] and of [mermaid.initialize]. *)
Record Globals := {
  mermaidInitialized : bool;
  mermaidModule : bool;
  import_calls : nat;
  initialize_calls : nat;
}.

(** One mounted [Mermaid] component: its prop, its three state variables,
    whether its [loadMermaid] is suspended at [await import('mermaid')], the
    chart captured by a pending [setTimeout(renderChart, 100)], and the
    sources it has passed to [mermaid.render]. *)
Record Component := {
  chart : string;
  svg : string;
  isError : bool;
  isLoading : bool;
  awaiting_import : bool;
  timer : option string;
  render_calls : list string;
}.

Record System := {
  globals : Globals;
  components : list Component;
}.

Definition fresh : System :=
  {| globals := {| mermaidInitialized := false; mermaidModule := false;
                   import_calls := 0; initialize_calls := 0 |};
     components := [] |}.

(** What the component returns. *)
Inductive View :=
| Loading
| Failed (source : string)
| Nothing
| Diagram (markup : string).

Definition view (c : Component) : View :=
  if isLoading c then Loading
  else if isError c then Failed (chart c)
  else if String.eqb (svg c) "" then Nothing
  else Diagram (svg c).

(** The body of [loadMermaid] from the point where the module is there:
    initialize unless already done, then [setIsLoading(false)]. *)
Definition finish_load (g : Globals) (c : Component) : Globals * Component :=
  let g' :=
    if mermaidInitialized g then
      {| mermaidInitialized := true; mermaidModule := true;
         import_calls := import_calls g;
         initialize_calls := initialize_calls g |}
    else
      {| mermaidInitialized := true; mermaidModule := true;
         import_calls := import_calls g;
         initialize_calls := S (initialize_calls g) |} in
  (g',
   {| chart := chart c; svg := svg c; isError := isError c;
      isLoading := false; awaiting_import := false;
      timer := timer c; render_calls := render_calls c |}).

(** The first effect (dependencies [[]]), run once when the component
    mounts. *)
Definition load_effect (g : Globals) (c : Component) : Globals * Component :=
  if mermaidInitialized g && mermaidModule g then
    (g, {| chart := chart c; svg := svg c; isError := isError c;
           isLoading := false; awaiting_import := awaiting_import c;
           timer := timer c; render_calls := render_calls c |})
  else if mermaidModule g then finish_load g c
  else
    ({| mermaidInitialized := mermaidInitialized g;
        mermaidModule := mermaidModule g;
        import_calls := S (import_calls g);
        initialize_calls := initialize_calls g |},
     {| chart := chart c; svg := svg c; isError := isError c;
        isLoading := isLoading c; awaiting_import := true;
        timer := timer c; render_calls := render_calls c |}).

(** The second effect (dependencies [[chart]]), run when the component
    mounts and whenever its [chart] prop changes. *)
Definition render_effect (g : Globals) (c : Component) : Component :=
  if String.eqb (chart c) "" then
    {| chart := chart c; svg := svg c; isError := isError c;
       isLoading := false; awaiting_import := awaiting_import c;
       timer := None; render_calls := render_calls c |}
  else if negb (mermaidInitialized g) || negb (mermaidModule g) then
    {| chart := chart c; svg := svg c; isError := isError c;
       isLoading := isLoading c; awaiting_import := awaiting_import c;
       timer := None; render_calls := render_calls c |}
  else
    {| chart := chart c; svg := svg c; isError := isError c;
       isLoading := isLoading c; awaiting_import := awaiting_import c;
       timer := Some (chart c); render_calls := render_calls c |}.

Definition mounted (source : string) : Component :=
  {| chart := source; svg := ""; isError := false; isLoading := true;
     awaiting_import := false; timer := None; render_calls := [] |}.

Section WithRenderer.

(** [mermaid.render(id, source)]: the SVG markup, or [None] when it
    rejects. *)
Variable render_svg : string -> option string.

(** [renderChart], run by the timer, for the chart it captured. *)
Definition renderChart (c : Component) (captured : string) : Component :=
  let source := Chart.prepareChart captured in
  match render_svg source with
  | Some markup =>
      {| chart := chart c; svg := markup; isError := false;
         isLoading := false; awaiting_import := awaiting_import c;
         timer := None; render_calls := render_calls c ++ [source] |}
  | None =>
      {| chart := chart c; svg := ""; isError := true;
         isLoading := false; awaiting_import := awaiting_import c;
         timer := None; render_calls := render_calls c ++ [source] |}
  end.

(** What can happen to the system. *)
Inductive Event :=
| Mount (source : string)
| ImportResolved (i : nat)
| SetChart (i : nat) (source : string)
| Rerender (i : nat)
| TimerFired (i : nat).

Fixpoint update {A} (l : list A) (i : nat) (x : A) : list A :=
  match l, i with
  | [], _ => []
  | _ :: t, O => x :: t
  | y :: t, S k => y :: update t k x
  end.

Definition step (s : System) (e : Event) : System :=
  match e with
  | Mount source =>
      let '(g, c) := load_effect (globals s) (mounted source) in
      {| globals := g; components := components s ++ [render_effect g c] |}
  | ImportResolved i =>
      match nth_error (components s) i with
      | Some c =>
          if awaiting_import c then
            let '(g, c') := finish_load (globals s) c in
            {| globals := g; components := update (components s) i c' |}
          else s
      | None => s
      end
  | SetChart i source =>
      match nth_error (components s) i with
      | Some c =>
          if String.eqb source (chart c) then s
          else
            let c' :=
              render_effect (globals s)
                {| chart := source; svg := svg c; isError := isError c;
                   isLoading := isLoading c;
                   awaiting_import := awaiting_import c;
                   timer := None; render_calls := render_calls c |} in
            {| globals := globals s; components := update (components s) i c' |}
      | None => s
      end
  | Rerender _ => s
  | TimerFired i =>
      match nth_error (components s) i with
      | Some c =>
          match timer c with
          | Some captured =>
              {| globals := globals s;
                 components := update (components s) i (renderChart c captured) |}
          | None => s
          end
      | None => s
      end
  end.

Definition run (s : System) (events : list Event) : System :=
  fold_left step events s.

End WithRenderer.

End Engine.

(* ================================================================== *)
(** ** app/page.tsx: submitting, resuming and clearing a task *)
(* ================================================================== *)

Module Page.
Import Api.

(** Calls made to the history store: [syncTaskStart] from [handleSubmit],
    and the calls of the terminal branch of [pollStatus]. *)
Inductive HistoryCall :=
| TaskStart (user task repo : string)
| FromPoll (call : Poll.SyncCall).

(** A call of [pollStatus(id)]: the [session] of the render whose closure
    makes the call (the user, if signed in), and the task polled. *)
Definition PollCall := (option string * string)%type.

(** The state of the page that polling reads and writes.  [task_key] and
    [repo_key] are [localStorage['wiki_gen_task_id']] and
    [localStorage['wiki_gen_repo_url']].  [timers] are the timeouts that are
    armed and have not fired, by handle (handles are positive, as in a
    browser); [pollTimerRef] holds the handle stored last.  [creating],
    [syncing] and [polling] are the calls of [createTask], [syncTaskStart]
    and [getTaskStatus] that have not completed yet.  The history and
    profile lists, the health flag and the history panel are left out:
    polling does not read them. *)
Record Page := mkPage {
  session : option string;
  url : string;
  taskId : option string;
  status : option TaskStatusResponse;
  isSubmitting : bool;
  task_key : option string;
  repo_key : option string;
  pollTimerRef : option nat;
  timers : list (nat * PollCall);
  next_handle : nat;
  creating : list (string * string);
  syncing : list (string * string);
  polling : list PollCall;
  history_calls : list HistoryCall;
  alerts : nat;
}.

(** The page as first rendered, over what the browser has stored. *)
Definition fresh (stored_task stored_repo : option string) : Page :=
  {| session := None; url := ""; taskId := None; status := None;
     isSubmitting := false;
     task_key := stored_task; repo_key := stored_repo;
     pollTimerRef := None; timers := []; next_handle := 1;
     creating := []; syncing := []; polling := [];
     history_calls := []; alerts := 0 |}.

Definition remove_nth {A} (n : nat) (l : list A) : list A :=
  firstn n l ++ skipn (S n) l.

(** [if (pollTimerRef.current) clearTimeout(pollTimerRef.current)] *)
Definition clearTimeout (ref : option nat) (ts : list (nat * PollCall))
    : list (nat * PollCall) :=
  match ref with
  | Some h => filter (fun t => negb (Nat.eqb (fst t) h)) ts
  | None => ts
  end.

(** [pollStatus(id)] up to its [await api.getTaskStatus(id)]. *)
Definition call_pollStatus (call : PollCall) (p : Page) : Page :=
  mkPage (session p) (url p) (taskId p) (status p) (isSubmitting p)
         (task_key p) (repo_key p) (pollTimerRef p) (timers p)
         (next_handle p) (creating p) (syncing p) (polling p ++ [call])
         (history_calls p) (alerts p).

(** The effect that restores a task when the page is mounted.  It runs
    after the first render, so the [pollStatus] it calls sees the [session]
    of that render, which is [null]. *)
Definition restore (p : Page) : Page :=
  match task_key p with
  | Some savedTaskId =>
      if String.eqb savedTaskId "" then p
      else
        call_pollStatus (None, savedTaskId)
          (mkPage (session p) (url p) (Some savedTaskId) (status p)
                  (isSubmitting p) (task_key p) (repo_key p)
                  (pollTimerRef p) (timers p) (next_handle p) (creating p)
                  (syncing p) (polling p) (history_calls p) (alerts p))
  | None => p
  end.

(** Opening the page in a browser that has stored the two keys; and
    opening it again later: the state of the component is new, the stored
    keys are the ones left behind. *)
Definition open (stored_task stored_repo : option string) : Page :=
  restore (fresh stored_task stored_repo).

Definition reopen (p : Page) : Page := open (task_key p) (repo_key p).

Inductive Action :=
| SignIn (user : option string)
| SetUrl (text : string)
| Submit
| CreateReply (n : nat) (created : option string)
| SyncDone (n : nat)
| StatusReply (n : nat) (now : string) (http : HttpResult)
| TimerFires (handle : nat)
| Clear.

(** [handleSubmit] up to [await api.createTask(url)]. *)
Definition handleSubmit (p : Page) : Page :=
  match session p with
  | Some user =>
      if String.eqb (Str.trim (url p)) "" then p
      else
        mkPage (session p) (url p) (taskId p) None true
               (task_key p) (repo_key p) (pollTimerRef p) (timers p)
               (next_handle p) (creating p ++ [(user, url p)]) (syncing p)
               (polling p) (history_calls p) (alerts p)
  | None => p
  end.

(** [handleSubmit] from the completion of [createTask] to
    [await supabaseApi.syncTaskStart(...)]; [created] is the [task_id] of the
    response, [None] when the call throws. *)
Definition created_task (n : nat) (created : option string) (p : Page) : Page :=
  match nth_error (creating p) n with
  | Some (user, submitted) =>
      match created with
      | Some task =>
          mkPage (session p) (url p) (Some task) (status p) (isSubmitting p)
                 (Some task) (Some submitted) (pollTimerRef p) (timers p)
                 (next_handle p) (remove_nth n (creating p))
                 (syncing p ++ [(user, task)]) (polling p)
                 (history_calls p ++ [TaskStart user task submitted])
                 (alerts p)
      | None =>
          mkPage (session p) (url p) (taskId p) (status p) false
                 (task_key p) (repo_key p) (pollTimerRef p) (timers p)
                 (next_handle p) (remove_nth n (creating p)) (syncing p)
                 (polling p) (history_calls p) (S (alerts p))
      end
  | None => p
  end.

(** The rest of [handleSubmit]: [pollStatus(res.task_id)], with the session
    of the render that submitted, and the [finally] block. *)
Definition synced_start (n : nat) (p : Page) : Page :=
  match nth_error (syncing p) n with
  | Some (user, task) =>
      call_pollStatus (Some user, task)
        (mkPage (session p) (url p) (taskId p) (status p) false
                (task_key p) (repo_key p) (pollTimerRef p) (timers p)
                (next_handle p) (creating p) (remove_nth n (syncing p))
                (polling p) (history_calls p) (alerts p))
  | None => p
  end.

(** [pollStatus] from the completion of [getTaskStatus] on: the record is
    shown; a terminal record clears the timer of [pollTimerRef] and is
    written to the history store if the call has a session; otherwise a new
    timer is armed and its handle stored. *)
Definition status_reply (n : nat) (now : string) (http : HttpResult)
    (p : Page) : Page :=
  match nth_error (polling p) n with
  | Some (user, id) =>
      let run := Poll.pollStatus user (repo_key p) id
                                 (getTaskStatus now http id) in
      let shown := match Poll.emitted run with
                   | Some res => Some res
                   | None => status p
                   end in
      let calls := history_calls p ++ map FromPoll (Poll.synced run) in
      match Poll.next_poll run with
      | Some (_, next) =>
          mkPage (session p) (url p) (taskId p) shown (isSubmitting p)
                 (task_key p) (repo_key p) (Some (next_handle p))
                 (timers p ++ [(next_handle p, (user, next))])
                 (S (next_handle p)) (creating p) (syncing p)
                 (remove_nth n (polling p)) calls (alerts p)
      | None =>
          mkPage (session p) (url p) (taskId p) shown (isSubmitting p)
                 (task_key p) (repo_key p) (pollTimerRef p)
                 (clearTimeout (pollTimerRef p) (timers p))
                 (next_handle p) (creating p) (syncing p)
                 (remove_nth n (polling p)) calls (alerts p)
      end
  | None => p
  end.

(** A timeout fires: [() => pollStatus(id)]. *)
Definition timer_fires (handle : nat) (p : Page) : Page :=
  match find (fun t => Nat.eqb (fst t) handle) (timers p) with
  | Some (_, call) =>
      call_pollStatus call
        (mkPage (session p) (url p) (taskId p) (status p) (isSubmitting p)
                (task_key p) (repo_key p) (pollTimerRef p)
                (clearTimeout (Some handle) (timers p))
                (next_handle p) (creating p) (syncing p) (polling p)
                (history_calls p) (alerts p))
  | None => p
  end.

Definition handleClear (p : Page) : Page :=
  mkPage (session p) "" None None (isSubmitting p) None None
         (pollTimerRef p) (clearTimeout (pollTimerRef p) (timers p))
         (next_handle p) (creating p) (syncing p) (polling p)
         (history_calls p) (alerts p).

Definition step (p : Page) (a : Action) : Page :=
  match a with
  | SignIn user =>
      mkPage user (url p) (taskId p) (status p) (isSubmitting p)
             (task_key p) (repo_key p) (pollTimerRef p) (timers p)
             (next_handle p) (creating p) (syncing p) (polling p)
             (history_calls p) (alerts p)
  | SetUrl text =>
      mkPage (session p) text (taskId p) (status p) (isSubmitting p)
             (task_key p) (repo_key p) (pollTimerRef p) (timers p)
             (next_handle p) (creating p) (syncing p) (polling p)
             (history_calls p) (alerts p)
  | Submit => handleSubmit p
  | CreateReply n created => created_task n created p
  | SyncDone n => synced_start n p
  | StatusReply n now http => status_reply n now http p
  | TimerFires handle => timer_fires handle p
  | Clear => handleClear p
  end.

Definition run (p : Page) (actions : list Action) : Page :=
  fold_left step actions p.

End Page.

(* ================================================================== *)
(** ** components/Mermaid.tsx, second revision: [fixMermaidSyntax] *)
(* ================================================================== *)

Module Repair.
Import Chart.

(** [[^\]]] *)
Definition is_inner (c : ascii) : bool := negb (Ascii.eqb c "]").

Definition is_at (c : ascii) : bool := Ascii.eqb c "@".

(** One match of the pattern: a word run, an opening square bracket, a
    label of characters other than the closing square bracket that holds
    an at sign, and the closing square bracket. *)
Record AtMatch := {
  at_nodeId : list ascii;
  at_label : list ascii;
  at_rest : list ascii;
}.

(** An attempt of the pattern anchored at the head of [l].  The word run is
    followed by the bracket, which is no word character, and the label by
    the closing bracket, which the label class excludes: only the longest
    runs can match, and the label is any run of the class that holds an at
    sign. *)
Definition match_at (l : list ascii) : option AtMatch :=
  match span is_word l with
  | ((_ :: _) as w, o :: r1) =>
      if Ascii.eqb o "[" then
        match span is_inner r1 with
        | (lab, _ :: r2) =>
            if existsb is_at lab
            then Some {| at_nodeId := w; at_label := lab; at_rest := r2 |}
            else None
        | (_, []) => None
        end
      else None
  | _ => None
  end.

(** [label.replace(/^[quote]|[quote]$/g, '')]: a quote at the start is
    removed, and then a quote at the end, if one is left there. *)
Definition strip_last (l : list ascii) : list ascii :=
  match rev l with
  | c :: t => if is_quote c then rev t else l
  | [] => []
  end.

Definition cleanLabel (lab : list ascii) : list ascii :=
  match lab with
  | c :: t => if is_quote c then strip_last t else strip_last lab
  | [] => []
  end.

(** The replacement callback. *)
Definition replacement (m : AtMatch) : list ascii :=
  at_nodeId m ++ "["%char :: Str.dquote :: cleanLabel (at_label m)
    ++ [Str.dquote; "]"%char].

(** The global replace, as for [prepareChart]. *)
Fixpoint fix_labels_fuel (fuel : nat) (l : list ascii) : list ascii :=
  match fuel with
  | O => l
  | S fuel' =>
      match match_at l with
      | Some m => replacement m ++ fix_labels_fuel fuel' (at_rest m)
      | None =>
          match l with
          | [] => []
          | c :: t => c :: fix_labels_fuel fuel' t
          end
      end
  end.

Definition fix_labels (l : list ascii) : list ascii :=
  fix_labels_fuel (S (List.length l)) l.

(** [fixMermaidSyntax(mermaidCode)] *)
Definition fixMermaidSyntax (mermaidCode : string) : string :=
  string_of_list_ascii (fix_labels (list_ascii_of_string mermaidCode)).

End Repair.

(* ================================================================== *)
(** ** components/ChatInterface.tsx: what is sent with a question *)
(* ================================================================== *)

Module Chat.

Inductive Role := user | assistant.

Record ChatMessage := {
  role : Role;
  content : string;
}.

(** A message of the panel.  The identifier and the time stamp, which
    nothing reads back, are left out; a missing [isError] is [false]. *)
Record DisplayMessage := {
  shown : ChatMessage;
  sources : option (list string);
  isError : bool;
}.

Record ChatRequest := {
  question : string;
  repo_url : string;
  conversation_history : list ChatMessage;
  current_page_context : option string;
}.

Record ChatResponse := {
  answer : string;
  answer_sources : option (list string);
}.

(** What [api.askQuestion] rejects with: an [Error] with its message, or
    some other value. *)
Inductive Thrown :=
| ErrorObject (message : string)
| OtherThrown.

Inductive Mode := bar | full.

(** The state of the panel, and the requests it has made. *)
Record State := {
  mode : Mode;
  messages : list DisplayMessage;
  inputValue : string;
  isLoading : bool;
  error : option string;
  scannedFiles : list string;
  sent : list ChatRequest;
}.

Definition initial : State :=
  {| mode := bar; messages := []; inputValue := ""; isLoading := false;
     error := None; scannedFiles := []; sent := [] |}.

(** [messages.filter(msg => !msg.isError).map(...)] *)
Definition buildConversationHistory (msgs : list DisplayMessage)
    : list ChatMessage :=
  map shown (filter (fun msg => negb (isError msg)) msgs).

Section Panel.

Variable repoUrl : string.
Variable currentPageContext : option string.

(** [handleSendMessage] up to [await api.askQuestion(...)].  The history
    is built from the messages of the render that handles the event, which
    do not hold the question being sent yet. *)
Definition handleSendMessage (st : State) : State :=
  let asked := Str.trim (inputValue st) in
  if String.eqb asked "" || isLoading st then st
  else
    {| mode := full;
       messages :=
         messages st
           ++ [{| shown := {| role := user; content := asked |};
                  sources := None; isError := false |}];
       inputValue := "";
       isLoading := true;
       error := None;
       scannedFiles := [];
       sent :=
         sent st
           ++ [{| question := asked;
                  repo_url := repoUrl;
                  conversation_history :=
                    buildConversationHistory (messages st);
                  current_page_context := currentPageContext |}] |}.

(** The rest of [handleSendMessage], once the request has completed. *)
Definition answered (outcome : ChatResponse + Thrown) (st : State) : State :=
  if isLoading st then
    match outcome with
    | inl response =>
        {| mode := mode st;
           messages :=
             messages st
               ++ [{| shown := {| role := assistant;
                                  content := answer response |};
                      sources := answer_sources response;
                      isError := false |}];
           inputValue := inputValue st;
           isLoading := false;
           error := error st;
           scannedFiles :=
             match answer_sources response with
             | Some files => files
             | None => scannedFiles st
             end;
           sent := sent st |}
    | inr err =>
        let errorMessage :=
          match err with
          | ErrorObject message => message
          | OtherThrown => "Failed to send message"
          end in
        {| mode := mode st;
           messages :=
             messages st
               ++ [{| shown := {| role := assistant;
                                  content := errorMessage |};
                      sources := None;
                      isError := true |}];
           inputValue := inputValue st;
           isLoading := false;
           error := Some errorMessage;
           scannedFiles := scannedFiles st;
           sent := sent st |}
    end
  else st.

Inductive Event :=
| Typed (text : string)
| Send
| Answered (outcome : ChatResponse + Thrown)
| CloseFullView.

Definition step (st : State) (e : Event) : State :=
  match e with
  | Typed text =>
      {| mode := mode st; messages := messages st; inputValue := text;
         isLoading := isLoading st; error := error st;
         scannedFiles := scannedFiles st; sent := sent st |}
  | Send => handleSendMessage st
  | Answered outcome => answered outcome st
  | CloseFullView =>
      {| mode := bar; messages := messages st; inputValue := inputValue st;
         isLoading := isLoading st; error := error st;
         scannedFiles := scannedFiles st; sent := sent st |}
  end.

(** One exchange: the user types a text and sends it, and the request
    completes. *)
Definition exchange (st : State) (x : string * (ChatResponse + Thrown))
    : State :=
  step (step (step st (Typed (fst x))) Send) (Answered (snd x)).

Definition converse (st : State)
    (xs : list (string * (ChatResponse + Thrown))) : State :=
  fold_left exchange xs st.

End Panel.

End Chat.

(* ================================================================== *)
(** ** test-api/index.js: the test server *)
(* ================================================================== *)

Module Worker.
Import Api.

Inductive Method := GET | POST | DELETE | OPTIONS | OtherMethod.

(** A request as the handler reads it: the method, the path of the URL and
    what [request.json()] resolves with ([None] when it rejects). *)
Record Request := {
  method : Method;
  path : string;
  json : option JS.value;
}.

(** The texts of the [detail] field, by what they say. *)
Inductive Detail :=
| UrlLinkRequired
| BodyNotParsed
| TaskIdRequired
| NoSuchTask
| NoSuchRoute.

Inductive Body :=
| NoBody
| Health
| Refused (detail : Detail)
| TaskCreated (task_id : string)
| TaskStatus (record : TaskStatusResponse)
| TaskList (records : list TaskStatusResponse)
| TaskDeleted (task_id : string).

Record Response := {
  code : Z;
  body : Body;
}.

(** The step text of the fixed response, four characters, as UTF-8. *)
Definition task_done : string :=
  string_of_list_ascii
    (map ascii_of_nat
         [228; 187; 187; 229; 138; 161; 229; 174; 140; 230; 136; 144])%nat.

Definition bucket : string :=
  "https://cityu-fyp.ed8ae7084f2b8a4d83482ce8a3fe4a83.r2.cloudflarestorage.com/Folo/20260127/".

(** [getFixedResponse(taskId)]: [FIXED_RESPONSE] with the task id replaced.
    Of [result], the two fields the client reads. *)
Definition getFixedResponse (taskId : string) : TaskStatusResponse :=
  {| task_id := taskId;
     status := completed;
     progress := 100;
     current_step := task_done;
     created_at := "2026-01-27T06:47:34.657336";
     updated_at := "2026-01-27T06:50:46.866852";
     result :=
       Some {| r2_structure_url := Some (bucket ++ "wiki_structure.json")%string;
               r2_content_urls :=
                 Some (map (fun name => (bucket ++ "sections/" ++ name ++ ".json")%string)
                           [ "infrastructure"; "data-models"; "security";
                             "overview"; "observability"; "license";
                             "deployment"; "document-processing-pipeline";
                             "user-guides"; "contributing";
                             "core-backend-services"; "ai-features";
                             "system-architecture" ]) |};
     error := None |}.

(** [s.split(sep)[1]]: what lies between the first occurrence of [sep] and
    the next one; [undefined] when [sep] does not occur. *)
Fixpoint until_sep (sep s : string) : string :=
  if String.prefix sep s then ""
  else match s with
       | EmptyString => ""
       | String c t => String c (until_sep sep t)
       end.

Fixpoint after_first (sep s : string) : option string :=
  if String.prefix sep s then Some (Str.drop (String.length sep) s)
  else match s with
       | EmptyString => None
       | String _ t => after_first sep t
       end.

Definition split_1 (sep s : string) : option string :=
  option_map (until_sep sep) (after_first sep s).

(** The keys of the [tasks] map, in insertion order. *)
Definition Tasks := list string.

Definition has (tasks : Tasks) (k : string) : bool :=
  existsb (String.eqb k) tasks.

(** [tasks.set(k, { created: true })] *)
Definition set (tasks : Tasks) (k : string) : Tasks :=
  if has tasks k then tasks else tasks ++ [k].

(** [tasks.delete(k)] *)
Definition delete (tasks : Tasks) (k : string) : Tasks :=
  filter (fun k' => negb (String.eqb k k')) tasks.

Definition respond (tasks : Tasks) (status : Z) (b : Body) : Tasks * Response :=
  (tasks, {| code := status; body := b |}).

(** The [taskId] of a path under [/task/], [None] when it is missing or
    empty. *)
Definition path_task (p : string) : option string :=
  match split_1 "/task/" p with
  | Some taskId => if String.eqb taskId "" then None else Some taskId
  | None => None
  end.

(** [fetch(request)]; [uuid] is what [generateUUID()] would return. *)
Definition fetch (uuid : string) (tasks : Tasks) (request : Request)
    : Tasks * Response :=
  match method request with
  | OPTIONS => respond tasks 204 NoBody
  | GET =>
      if String.eqb (path request) "/health" then respond tasks 200 Health
      else if Str.startsWith (path request) "/task/" then
        match path_task (path request) with
        | Some taskId => respond tasks 200 (TaskStatus (getFixedResponse taskId))
        | None => respond tasks 400 (Refused TaskIdRequired)
        end
      else if String.eqb (path request) "/tasks" then
        respond tasks 200 (TaskList (map getFixedResponse tasks))
      else respond tasks 404 (Refused NoSuchRoute)
  | POST =>
      if String.eqb (path request) "/generate" then
        match json request with
        | Some parsed =>
            match JS.get parsed "url_link" with
            | Some url_link =>
                if JS.truthy url_link
                then respond (set tasks uuid) 200 (TaskCreated uuid)
                else respond tasks 400 (Refused UrlLinkRequired)
            | None => respond tasks 400 (Refused BodyNotParsed)
            end
        | None => respond tasks 400 (Refused BodyNotParsed)
        end
      else respond tasks 404 (Refused NoSuchRoute)
  | DELETE =>
      if Str.startsWith (path request) "/task/" then
        match path_task (path request) with
        | Some taskId =>
            if has tasks taskId
            then respond (delete tasks taskId) 200 (TaskDeleted taskId)
            else respond tasks 404 (Refused NoSuchTask)
        | None => respond tasks 400 (Refused TaskIdRequired)
        end
      else respond tasks 404 (Refused NoSuchRoute)
  | OtherMethod => respond tasks 404 (Refused NoSuchRoute)
  end.

End Worker.

(* ================================================================== *)
(** * Properties *)
(* ================================================================== *)

(** ** [getTaskStatus] *)

Module ApiSpec.
Import Api.

Lemma is_not_found_iff (e : RequestError) :
  is_not_found e = true <-> e = AxiosError (Some 404%Z).
Proof.
  destruct e as [[code|]|]; simpl; split; intro H; try discriminate.
  - apply Z.eqb_eq in H. now subst.
  - inversion H. reflexivity.
Qed.

(** C3, as amended.  On success [getTaskStatus] returns the remote record
    unchanged.  When the request fails it returns a record exactly when the
    failure is an HTTP 404; that record is the synthesized one: the given
    task id, status [failed], no result, and the error text
    [Task not found or expired] (with a capital T).  On every other failure
    it raises that failure to its caller. *)
Theorem getTaskStatus_not_found_policy (now id : string) :
  (forall data, getTaskStatus now (inl data) id = inl data)
  /\ (exists r,
        getTaskStatus now (inr (AxiosError (Some 404%Z))) id = inl r
        /\ task_id r = id
        /\ status r = failed
        /\ result r = None
        /\ error r = Some "Task not found or expired")
  /\ (forall e r,
        getTaskStatus now (inr e) id = inl r ->
        e = AxiosError (Some 404%Z) /\ r = not_found_record now id)
  /\ (forall e,
        e <> AxiosError (Some 404%Z) ->
        getTaskStatus now (inr e) id = inr e).
Proof.
  repeat split.
  - exists (not_found_record now id). repeat split.
  - unfold getTaskStatus in H.
    destruct (is_not_found e) eqn:E; [|discriminate].
    now apply is_not_found_iff.
  - unfold getTaskStatus in H.
    destruct (is_not_found e) eqn:E; [|discriminate].
    now inversion H.
  - intros e Hne. unfold getTaskStatus.
    destruct (is_not_found e) eqn:E; [|reflexivity].
    apply is_not_found_iff in E. contradiction.
Qed.

(** The policy at a 404, at a 500 and at a network failure without a
    response. *)
Lemma getTaskStatus_not_found_policy_witness :
  (exists r,
     getTaskStatus "2026-01-01T00:00:00.000Z" (inr (AxiosError (Some 404%Z))) "t1"
       = inl r
     /\ error r = Some "Task not found or expired")
  /\ getTaskStatus "2026-01-01T00:00:00.000Z" (inr (AxiosError (Some 500%Z))) "t1"
       = inr (AxiosError (Some 500%Z))
  /\ getTaskStatus "2026-01-01T00:00:00.000Z" (inr (AxiosError None)) "t1"
       = inr (AxiosError None).
Proof.
  destruct (getTaskStatus_not_found_policy "2026-01-01T00:00:00.000Z" "t1")
    as (_ & (r & Hr & _ & _ & _ & He) & _ & Hother).
  split; [exists r; split; assumption|].
  split; apply Hother; discriminate.
Defined.

(** C3 as stated fails on the error text: at a 404 the synthesized record
    carries [Task not found or expired], which is not the string
    [task not found or expired] of the claim. *)
Lemma getTaskStatus_error_text_is_capitalised :
  exists r,
    getTaskStatus "2026-01-01T00:00:00.000Z" (inr (AxiosError (Some 404%Z))) "t1"
      = inl r
    /\ status r = failed
    /\ error r = Some "Task not found or expired"
    /\ error r <> Some "task not found or expired".
Proof.
  eexists. split; [reflexivity|]. repeat split. discriminate.
Qed.

End ApiSpec.

(** ** [pollStatus] *)

Module PollSpec.
Import Api Poll.

Section Loop.

Variables session saved : option string.
Variable id : string.

(** The three ways a run of [pollStatus] ends. *)
Lemma pollStatus_pending (res : TaskStatusResponse) :
  is_terminal (status res) = false ->
  pollStatus session saved id (inl res)
  = {| emitted := Some res; synced := []; next_poll := Some (short_delay, id) |}.
Proof. intros H. unfold pollStatus. now rewrite H. Qed.

Lemma pollStatus_rejected (e : RequestError) :
  pollStatus session saved id (inr e)
  = {| emitted := None; synced := []; next_poll := Some (long_delay, id) |}.
Proof. reflexivity. Qed.

Lemma pollStatus_terminal (res : TaskStatusResponse) :
  is_terminal (status res) = true ->
  emitted (pollStatus session saved id (inl res)) = Some res
  /\ next_poll (pollStatus session saved id (inl res)) = None.
Proof. intros H. unfold pollStatus. now rewrite H. Qed.

(** The loop after one reply, by the kind of the reply. *)
Lemma watch_pending (r : Reply) (rest : list Reply) (now : Z)
      (res : TaskStatusResponse) :
  http r = inl res ->
  is_terminal (status res) = false ->
  watch session saved (r :: rest) now id
  = Requested now id
      :: Emitted (now + latency r) res
      :: watch session saved rest (now + latency r + short_delay) id.
Proof.
  intros Hr Hs. simpl. rewrite Hr. simpl.
  unfold pollStatus. now rewrite Hs.
Qed.

Lemma watch_rejected (r : Reply) (rest : list Reply) (now : Z)
      (e : RequestError) :
  http r = inr e ->
  is_not_found e = false ->
  watch session saved (r :: rest) now id
  = Requested now id
      :: watch session saved rest (now + latency r + long_delay) id.
Proof.
  intros Hr He. simpl. rewrite Hr. simpl. now rewrite He.
Qed.

Lemma watch_terminal (r : Reply) (rest : list Reply) (now : Z)
      (res : TaskStatusResponse) :
  getTaskStatus (clock r) (http r) id = inl res ->
  is_terminal (status res) = true ->
  watch session saved (r :: rest) now id
  = [Requested now id; Emitted (now + latency r) res].
Proof.
  intros Hr Hs. simpl. rewrite Hr. unfold pollStatus. now rewrite Hs.
Qed.

(** A reply that ends the loop resolves to a terminal record. *)
Lemma final_reply_terminal (fin : Reply) :
  keeps_polling fin = false ->
  exists res,
    getTaskStatus (clock fin) (http fin) id = inl res
    /\ is_terminal (status res) = true.
Proof.
  unfold keeps_polling, getTaskStatus. intros H.
  destruct (http fin) as [res|e]; apply negb_false_iff in H.
  - now exists res.
  - rewrite H. now eexists.
Qed.

(** A reply that keeps the loop going is followed by one more request for
    the same task. *)
Lemma watch_keeps_polling (r : Reply) (rest : list Reply) (now : Z) :
  keeps_polling r = true ->
  exists delay,
    (delay = short_delay \/ delay = long_delay)
    /\ requests (watch session saved (r :: rest) now id)
       = (now, id)
           :: requests (watch session saved rest (now + latency r + delay) id)
    /\ emissions (watch session saved (r :: rest) now id)
       = match http r with inl res => [res] | inr _ => [] end
           ++ emissions (watch session saved rest (now + latency r + delay) id).
Proof.
  unfold keeps_polling. intros H.
  destruct (http r) as [res|e] eqn:Hr; apply negb_true_iff in H.
  - exists short_delay. rewrite (watch_pending _ _ _ res Hr H). auto.
  - exists long_delay. rewrite (watch_rejected _ _ _ e Hr H). auto.
Qed.

Definition terminal_record (res : TaskStatusResponse) : bool :=
  is_terminal (status res).

Lemma watch_run (pre : list Reply) (fin : Reply) (rest : list Reply) :
  forallb keeps_polling pre = true ->
  keeps_polling fin = false ->
  forall now,
  exists res,
    getTaskStatus (clock fin) (http fin) id = inl res
    /\ is_terminal (status res) = true
    /\ List.length (requests (watch session saved (pre ++ fin :: rest) now id))
       = S (List.length pre)
    /\ Forall (fun q => snd q = id)
         (requests (watch session saved (pre ++ fin :: rest) now id))
    /\ filter terminal_record
         (emissions (watch session saved (pre ++ fin :: rest) now id))
       = [res]
    /\ last (emissions (watch session saved (pre ++ fin :: rest) now id)) res
       = res.
Proof.
  intros Hpre Hfin.
  destruct (final_reply_terminal fin Hfin) as (res & Hres & Hterm).
  induction pre as [|r pre IH]; intros now; exists res.
  - simpl app. rewrite (watch_terminal _ _ _ res Hres Hterm). simpl.
    unfold terminal_record. rewrite Hterm. repeat split; auto.
  - simpl in Hpre. apply andb_true_iff in Hpre as [Hr Hpre].
    specialize (IH Hpre).
    destruct (watch_keeps_polling r (pre ++ fin :: rest) now Hr)
      as (delay & _ & Hreq & Hem).
    destruct (IH (now + latency r + delay)%Z)
      as (res' & Hres' & _ & Hlen & Hall & Hfilter & Hlast).
    assert (res' = res) by congruence. subst res'.
    simpl app. rewrite Hreq, Hem.
    split; [exact Hres|]. split; [exact Hterm|].
    split; [simpl; now rewrite Hlen|].
    split; [constructor; auto|].
    split.
    + rewrite filter_app, Hfilter.
      unfold keeps_polling in Hr.
      destruct (http r) as [res0|e]; simpl; auto.
      unfold terminal_record.
      apply negb_true_iff in Hr. now rewrite Hr.
    + destruct (emissions (watch session saved (pre ++ fin :: rest)
                             (now + latency r + delay) id)) as [|x xs] eqn:Hx.
      * discriminate.
      * destruct (http r); simpl; auto.
Qed.

End Loop.

(** C2.  [pollStatus(taskId)] issues its first request at once.  After a
    reply with a non-terminal status it emits the record and the next
    request, for the same task, is made 2 time units (2000 ms) after the
    reply; after a rejected request the next one is made 5 time units
    (5000 ms) after the rejection.  After a reply with a terminal status the
    record is emitted and nothing more is requested, whatever the server
    would answer: a run of non-terminal replies and errors followed by a
    terminal reply makes one request per reply, all for the same task, and
    emits exactly one terminal record, the last emission. *)
Theorem pollStatus_polling_policy (session saved : option string) (id : string) :
  short_delay = (2 * time_unit)%Z
  /\ long_delay = (5 * time_unit)%Z
  /\ (forall replies now,
        hd_error (watch session saved replies now id) = Some (Requested now id))
  /\ (forall r rest now res,
        http r = inl res ->
        is_terminal (status res) = false ->
        watch session saved (r :: rest) now id
        = Requested now id
            :: Emitted (now + latency r) res
            :: watch session saved rest (now + latency r + 2 * time_unit) id)
  /\ (forall r rest now e,
        http r = inr e ->
        is_not_found e = false ->
        watch session saved (r :: rest) now id
        = Requested now id
            :: watch session saved rest (now + latency r + 5 * time_unit) id)
  /\ (forall r rest now res,
        getTaskStatus (clock r) (http r) id = inl res ->
        is_terminal (status res) = true ->
        watch session saved (r :: rest) now id
        = [Requested now id; Emitted (now + latency r) res])
  /\ (forall pre fin rest now,
        forallb keeps_polling pre = true ->
        keeps_polling fin = false ->
        exists res,
          getTaskStatus (clock fin) (http fin) id = inl res
          /\ is_terminal (status res) = true
          /\ List.length
               (requests (watch session saved (pre ++ fin :: rest) now id))
             = S (List.length pre)
          /\ Forall (fun q => snd q = id)
               (requests (watch session saved (pre ++ fin :: rest) now id))
          /\ filter terminal_record
               (emissions (watch session saved (pre ++ fin :: rest) now id))
             = [res]
          /\ last (emissions (watch session saved (pre ++ fin :: rest) now id))
                  res
             = res).
Proof.
  split; [reflexivity|]. split; [reflexivity|].
  split; [intros [|r rest] now; reflexivity|].
  split; [intros; now apply watch_pending|].
  split; [intros; now apply (watch_rejected _ _ _ _ _ _ e)|].
  split; [intros; now apply watch_terminal|].
  intros pre fin rest now Hpre Hfin. now apply watch_run.
Qed.

(** A run: a processing reply after 100 ms, a request that fails after
    300 ms, then the completed record; a fourth reply is never asked for. *)
Definition sample_record (st : Status) : TaskStatusResponse :=
  {| task_id := "t1"; status := st; progress := 40;
     current_step := "Generating"; created_at := "c"; updated_at := "u";
     result := None; error := None |}.

Definition sample_replies : list Reply :=
  [ {| latency := 100; http := inl (sample_record processing); clock := "n" |};
    {| latency := 300; http := inr (AxiosError None); clock := "n" |} ].

Definition sample_final : Reply :=
  {| latency := 50; http := inl (sample_record completed); clock := "n" |}.

Lemma pollStatus_polling_policy_witness :
  requests (watch None None (sample_replies ++ sample_final :: sample_replies)
                  0 "t1")
  = [(0%Z, "t1"); (2100%Z, "t1"); (7400%Z, "t1")]
  /\ filter terminal_record
       (emissions (watch None None
                         (sample_replies ++ sample_final :: sample_replies)
                         0 "t1"))
     = [sample_record completed].
Proof.
  destruct (pollStatus_polling_policy None None "t1")
    as (_ & _ & _ & _ & _ & _ & Hrun).
  destruct (Hrun sample_replies sample_final sample_replies 0%Z
                 eq_refl eq_refl)
    as (res & Hres & _ & _ & _ & Hfilter & _).
  split; [reflexivity|].
  rewrite Hfilter. simpl in Hres. now inversion Hres.
Defined.

End PollSpec.

(** ** The structure tree and the content lookup of [fetchPage] *)

Module ViewerSpec.
Import Viewer.

(** Induction on a tree, with the property holding of all children. *)
Section ItemInduction.

Variable P : WikiStructureItem -> Prop.
Hypothesis P_leaf : forall i t f, P (mkItem i t f None).
Hypothesis P_node : forall i t f cs, Forall P cs -> P (mkItem i t f (Some cs)).

Fixpoint item_induction (item : WikiStructureItem) : P item :=
  match item with
  | mkItem i t f None => P_leaf i t f
  | mkItem i t f (Some cs) =>
      P_node i t f cs
        ((fix all (l : list WikiStructureItem) : Forall P l :=
            match l with
            | [] => Forall_nil P
            | c :: r => Forall_cons c (item_induction c) (all r)
            end) cs)
  end.

End ItemInduction.

(** The two functions unfold as the source writes them. *)
Lemma traverse_item_children i t f cs :
  traverse_item (mkItem i t f (Some cs))
  = mkItem i t f (Some cs) :: flattenStructure cs.
Proof.
  simpl. f_equal.
Qed.

Lemma findItemById_in_children wanted i t f cs :
  findItemById_in wanted (mkItem i t f (Some cs))
  = if String.eqb i wanted then Some (mkItem i t f (Some cs))
    else findItemById cs wanted.
Proof.
  simpl. destruct (String.eqb i wanted); [reflexivity|].
  induction cs as [|c r IH]; [reflexivity|].
  simpl. now rewrite IH.
Qed.

Lemma findItemById_cons item rest wanted :
  findItemById (item :: rest) wanted
  = if String.eqb (id item) wanted then Some item
    else match (match children item with
                | Some cs => findItemById cs wanted
                | None => None
                end) with
         | Some found => Some found
         | None => findItemById rest wanted
         end.
Proof.
  destruct item as [i t f [cs|]].
  - change (findItemById (mkItem i t f (Some cs) :: rest) wanted)
      with (match findItemById_in wanted (mkItem i t f (Some cs)) with
            | Some found => Some found
            | None => findItemById rest wanted
            end).
    rewrite findItemById_in_children. simpl.
    destruct (String.eqb i wanted); reflexivity.
  - simpl. destruct (String.eqb i wanted); reflexivity.
Qed.

Definition has_id (wanted : string) (item : WikiStructureItem) : bool :=
  String.eqb (id item) wanted.

Lemma find_app {A} (p : A -> bool) (l1 l2 : list A) :
  find p (l1 ++ l2)
  = match find p l1 with Some x => Some x | None => find p l2 end.
Proof.
  induction l1 as [|x l1 IH]; simpl; [reflexivity|].
  destruct (p x); [reflexivity|apply IH].
Qed.

(** [findItemById] returns the first item of the depth-first flattening
    that has the id. *)
Lemma findItemById_in_find wanted item :
  findItemById_in wanted item = find (has_id wanted) (traverse_item item).
Proof.
  induction item as [i t f|i t f cs IH] using item_induction.
  - simpl. unfold has_id. simpl. destruct (String.eqb i wanted); reflexivity.
  - rewrite findItemById_in_children, traverse_item_children.
    simpl. unfold has_id at 1. simpl.
    destruct (String.eqb i wanted); [reflexivity|].
    induction IH as [|c r Hc _ IHr]; simpl; [reflexivity|].
    rewrite find_app, <- Hc, IHr. reflexivity.
Qed.

Lemma findItemById_find items wanted :
  findItemById items wanted = find (has_id wanted) (flattenStructure items).
Proof.
  induction items as [|item rest IH]; simpl; [reflexivity|].
  now rewrite find_app, <- findItemById_in_find, IH.
Qed.

(** The first position of [flat] that holds an item with the id. *)
Fixpoint position (wanted : string) (flat : list WikiStructureItem)
  : option nat :=
  match flat with
  | [] => None
  | item :: rest =>
      if String.eqb (id item) wanted then Some 0
      else option_map S (position wanted rest)
  end.

Lemma findIndex_from_position wanted flat (i : Z) :
  findIndex_from (fun item => String.eqb (id item) wanted) flat i
  = match position wanted flat with
    | Some k => (i + Z.of_nat k)%Z
    | None => (-1)%Z
    end.
Proof.
  revert i. induction flat as [|item rest IH]; intros i; simpl; [reflexivity|].
  destruct (String.eqb (id item) wanted).
  - lia.
  - rewrite IH. destruct (position wanted rest); simpl; lia.
Qed.

Lemma position_find wanted flat :
  position wanted flat = None <-> find (has_id wanted) flat = None.
Proof.
  induction flat as [|item rest IH]; simpl; [tauto|].
  unfold has_id at 1. destruct (String.eqb (id item) wanted).
  - split; discriminate.
  - destruct (position wanted rest); simpl.
    + split; [discriminate|]. intros H. apply IH in H. discriminate.
    + split; intros _; [now apply IH|reflexivity].
Qed.

Lemma position_None_absent wanted flat :
  position wanted flat = None <->
  (forall item, In item flat -> id item <> wanted).
Proof.
  induction flat as [|item rest IH]; simpl.
  - split; [intros _ ? []|reflexivity].
  - destruct (String.eqb (id item) wanted) eqn:E.
    + apply String.eqb_eq in E. split; [discriminate|].
      intros H. exfalso. apply (H item); auto.
    + apply String.eqb_neq in E.
      destruct (position wanted rest); simpl.
      * split; [discriminate|]. intros H.
        destruct IH as [_ IH].
        specialize (IH (fun it Hin => H it (or_intror Hin))). discriminate.
      * split; [|reflexivity]. intros _ it [<-|Hin]; [assumption|].
        destruct IH as [IH _]. now apply IH.
Qed.

Lemma position_Some_first wanted flat k :
  position wanted flat = Some k ->
  (exists item, nth_error flat k = Some item /\ id item = wanted)
  /\ (forall j item, j < k -> nth_error flat j = Some item -> id item <> wanted).
Proof.
  revert k. induction flat as [|item rest IH]; intros k; simpl; [discriminate|].
  destruct (String.eqb (id item) wanted) eqn:E.
  - intros [= <-]. apply String.eqb_eq in E. split.
    + now exists item.
    + intros j it Hj. lia.
  - apply String.eqb_neq in E.
    destruct (position wanted rest) as [k'|]; simpl; [|discriminate].
    intros [= <-]. destruct (IH k' eq_refl) as [Hex Hbefore]. split.
    + exact Hex.
    + intros [|j] it Hj; simpl.
      * now intros [= <-].
      * apply Hbefore. lia.
Qed.

(** C10, as amended.  In the positional lookup of [fetchPage], with [k] the
    first position of the selected id in the depth-first flattening: when
    the id is absent from the flattening the lookup fails with
    [Page not found in structure] (the guard on [findItemById] fires first);
    when [k] is at or beyond the length of the URL list it fails with
    [Content URL not found for <id>]; otherwise it returns the URL at
    position [k] of the list.  So a returned URL is always the element of
    the list at the node's own position: the list is never read out of
    bounds and no other position is substituted. *)
Theorem lookup_by_index_bounds (structure : list WikiStructureItem)
        (contentUrls : list string) (selectedId : string) :
  (position selectedId (flattenStructure structure) = None <->
     forall item, In item (flattenStructure structure) -> id item <> selectedId)
  /\ (position selectedId (flattenStructure structure) = None ->
      lookup_by_index structure contentUrls selectedId
      = inr "Page not found in structure")
  /\ (forall k,
        position selectedId (flattenStructure structure) = Some k ->
        List.length contentUrls <= k ->
        lookup_by_index structure contentUrls selectedId
        = inr ("Content URL not found for " ++ selectedId)%string)
  /\ (forall k,
        position selectedId (flattenStructure structure) = Some k ->
        k < List.length contentUrls ->
        exists url,
          nth_error contentUrls k = Some url
          /\ lookup_by_index structure contentUrls selectedId = inl url)
  /\ (forall url,
        lookup_by_index structure contentUrls selectedId = inl url ->
        exists k,
          position selectedId (flattenStructure structure) = Some k
          /\ k < List.length contentUrls
          /\ nth_error contentUrls k = Some url).
Proof.
  assert (Hnone :
    position selectedId (flattenStructure structure) = None ->
    lookup_by_index structure contentUrls selectedId
    = inr "Page not found in structure").
  { intros H. unfold lookup_by_index.
    rewrite findItemById_find. apply position_find in H. now rewrite H. }
  assert (Hsome : forall k,
    position selectedId (flattenStructure structure) = Some k ->
    lookup_by_index structure contentUrls selectedId
    = if Nat.leb (List.length contentUrls) k
      then inr ("Content URL not found for " ++ selectedId)%string
      else match nth_error contentUrls k with
           | Some url => inl url
           | None => inr "undefined"
           end).
  { intros k H. unfold lookup_by_index. rewrite findItemById_find.
    destruct (find (has_id selectedId) (flattenStructure structure)) eqn:F.
    - unfold findIndex. rewrite findIndex_from_position, H, Z.add_0_l.
      replace (Z.of_nat k =? -1)%Z with false
        by (symmetry; apply Z.eqb_neq; lia).
      simpl orb. rewrite Nat2Z.id.
      destruct (Nat.leb_spec (List.length contentUrls) k).
      + replace (Z.of_nat (List.length contentUrls) <=? Z.of_nat k)%Z
          with true by (symmetry; apply Z.leb_le; lia).
        reflexivity.
      + replace (Z.of_nat (List.length contentUrls) <=? Z.of_nat k)%Z
          with false by (symmetry; apply Z.leb_gt; lia).
        reflexivity.
    - apply position_find in F. congruence. }
  split; [apply position_None_absent|].
  split; [exact Hnone|].
  split; [|split].
  - intros k Hk Hle. rewrite (Hsome k Hk).
    apply Nat.leb_le in Hle. now rewrite Hle.
  - intros k Hk Hlt. rewrite (Hsome k Hk).
    apply Nat.leb_gt in Hlt. rewrite Hlt.
    destruct (nth_error contentUrls k) as [url|] eqn:E.
    + now exists url.
    + apply nth_error_None in E. apply Nat.leb_gt in Hlt. lia.
  - intros url H.
    destruct (position selectedId (flattenStructure structure)) as [k|] eqn:Hk.
    + exists k. rewrite (Hsome k eq_refl) in H.
      destruct (Nat.leb_spec (List.length contentUrls) k); [discriminate|].
      destruct (nth_error contentUrls k) as [u|] eqn:E; [|discriminate].
      inversion H. subst. auto.
    + rewrite (Hnone eq_refl) in H. discriminate.
Qed.

(** A tree of three nodes, [a] with child [b], then [c], and two URLs. *)
Definition sample_tree : list WikiStructureItem :=
  [ mkItem "a" "A" None (Some [mkItem "b" "B" None None]);
    mkItem "c" "C" None None ].

Definition sample_urls : list string :=
  ["https://h/p/a.json"; "https://h/p/b.json"].

Lemma lookup_by_index_bounds_witness :
  lookup_by_index sample_tree sample_urls "zzz"
    = inr "Page not found in structure"
  /\ lookup_by_index sample_tree sample_urls "c"
    = inr "Content URL not found for c"
  /\ lookup_by_index sample_tree sample_urls "b" = inl "https://h/p/b.json".
Proof.
  destruct (lookup_by_index_bounds sample_tree sample_urls "zzz")
    as (_ & Habsent & _).
  destruct (lookup_by_index_bounds sample_tree sample_urls "c")
    as (_ & _ & Hbeyond & _).
  destruct (lookup_by_index_bounds sample_tree sample_urls "b")
    as (_ & _ & _ & Hwithin & _).
  split; [apply Habsent; reflexivity|].
  split; [apply (Hbeyond 2); [reflexivity|simpl; lia]|].
  destruct (Hwithin 1) as (url & Hnth & Hlookup);
    [reflexivity|simpl; lia|].
  simpl in Hnth. inversion Hnth. subst url. exact Hlookup.
Defined.

(** C10 as stated fails on its first case: for an id that is absent from
    the flattening the error is [Page not found in structure], not a
    [Content URL not found] error. *)
Lemma lookup_by_index_absent_id_message :
  position "zzz" (flattenStructure sample_tree) = None
  /\ lookup_by_index sample_tree sample_urls "zzz"
     = inr "Page not found in structure"
  /\ lookup_by_index sample_tree sample_urls "zzz"
     <> inr "Content URL not found for zzz".
Proof.
  split; [reflexivity|]. split; [reflexivity|]. discriminate.
Qed.

Lemma find_split {A} (p : A -> bool) (l : list A) (m : A) :
  find p l = Some m ->
  exists before after,
    l = before ++ m :: after /\ forall v, In v before -> p v = false.
Proof.
  induction l as [|x l IH]; simpl; [discriminate|].
  destruct (p x) eqn:E.
  - intros [= ->]. exists [], l. split; [reflexivity|intros v []].
  - intros H. destruct (IH H) as (before & after & -> & Hb).
    exists (x :: before), after. split; [reflexivity|].
    intros v [<-|Hin]; auto.
Qed.

Lemma find_first {A} (p : A -> bool) (before : list A) (u : A)
      (after : list A) :
  (forall v, In v before -> p v = false) ->
  p u = true ->
  find p (before ++ u :: after) = Some u.
Proof.
  intros Hb Hu. induction before as [|x before IH]; simpl.
  - now rewrite Hu.
  - rewrite (Hb x (or_introl eq_refl)). apply IH.
    intros v Hin. apply Hb. now right.
Qed.

Section ByName.

Variable pathname : string -> option string.

Lemma exact_name_matches (item : WikiStructureItem) (u : string) :
  extractFilename pathname u = Some (expectedFilename item) ->
  url_matches pathname item u = true.
Proof.
  intros H. unfold url_matches. rewrite H, String.eqb_refl. reflexivity.
Qed.

(** C1, as amended.  In the revision of [fetchPage] that matches by file
    name, for the item found for the selected id: when the item's declared
    or derived filename equals the trailing path segment of a URL of the
    list, the lookup succeeds with the first URL of the list that passes
    any of the file-name tests (exact name, name without the [.json]
    suffix, bare id); that is the URL with the equal name whenever no
    earlier URL of the list passes a test.  The result depends on the tree
    only through the item found, not on the item's position.  When no URL
    passes a test the lookup fails: this revision has no positional
    fallback.  (The positional revision is [lookup_by_index], whose result
    is fixed by the position of the id alone.) *)
Theorem lookup_by_name_first_match (structure : list WikiStructureItem)
        (contentUrls : list string) (selectedId : string)
        (item : WikiStructureItem) :
  findItemById structure selectedId = Some item ->
  (forall u,
     In u contentUrls ->
     extractFilename pathname u = Some (expectedFilename item) ->
     exists m before after,
       lookup_by_name pathname structure contentUrls selectedId = inl m
       /\ contentUrls = before ++ m :: after
       /\ url_matches pathname item m = true
       /\ (forall v, In v before -> url_matches pathname item v = false))
  /\ (forall before u after,
        contentUrls = before ++ u :: after ->
        extractFilename pathname u = Some (expectedFilename item) ->
        (forall v, In v before -> url_matches pathname item v = false) ->
        lookup_by_name pathname structure contentUrls selectedId = inl u)
  /\ ((forall v, In v contentUrls -> url_matches pathname item v = false) ->
      exists message,
        lookup_by_name pathname structure contentUrls selectedId = inr message)
  /\ (forall structure',
        findItemById structure' selectedId = Some item ->
        lookup_by_name pathname structure' contentUrls selectedId
        = lookup_by_name pathname structure contentUrls selectedId).
Proof.
  intros Hitem. unfold lookup_by_name. rewrite Hitem.
  split; [|split; [|split]].
  - intros u Hin Hname.
    destruct (find (url_matches pathname item) contentUrls) as [m|] eqn:F.
    + destruct (find_split _ _ _ F) as (before & after & Heq & Hb).
      exists m, before, after. apply find_some in F. tauto.
    + apply (find_none _ _ F) in Hin.
      rewrite (exact_name_matches item u Hname) in Hin. discriminate.
  - intros before u after -> Hname Hb.
    rewrite (find_first _ before u after Hb (exact_name_matches item u Hname)).
    reflexivity.
  - intros Hnone.
    destruct (find (url_matches pathname item) contentUrls) as [m|] eqn:F.
    + apply find_some in F. destruct F as [Hin Hm].
      rewrite (Hnone m Hin) in Hm. discriminate.
    + eexists. reflexivity.
  - intros structure' H'. now rewrite H'.
Qed.

End ByName.

(** The node of the example and two URL lists: the one of the example, and
    one whose first URL has the bare id as its last segment. *)
Definition intro_node : WikiStructureItem :=
  mkItem "intro" "Introduction" (Some "intro.json") None.

Definition example_urls : list string :=
  ["https://h/p/overview.json"; "https://h/p/intro.json"].

Definition bare_first_urls : list string :=
  ["https://h/p/intro"; "https://h/p/intro.json"].

Lemma lookup_by_name_first_match_witness :
  lookup_by_name url_pathname [mkItem "overview" "Overview" None None; intro_node]
                 example_urls "intro"
  = inl "https://h/p/intro.json".
Proof.
  destruct (lookup_by_name_first_match url_pathname
              [mkItem "overview" "Overview" None None; intro_node]
              example_urls "intro" intro_node eq_refl)
    as (_ & Hfirst & _).
  apply (Hfirst ["https://h/p/overview.json"] "https://h/p/intro.json" []).
  - reflexivity.
  - reflexivity.
  - intros v [<-|[]]. reflexivity.
Defined.

(** C1 as stated fails.  With the exact name [intro.json] second in the
    list and a URL ending in the bare id first, the name-matching revision
    returns the first URL, and so does the positional revision; and on the
    URL list of the example the positional revision returns the overview
    URL for the node [intro] at position 0. *)
Lemma lookup_prefers_first_url_not_exact_name :
  expectedFilename intro_node = "intro.json"
  /\ extractFilename url_pathname "https://h/p/intro.json" = Some "intro.json"
  /\ lookup_by_name url_pathname [intro_node] bare_first_urls "intro"
     = inl "https://h/p/intro"
  /\ lookup_by_index [intro_node] bare_first_urls "intro"
     = inl "https://h/p/intro"
  /\ lookup_by_index [intro_node] example_urls "intro"
     = inl "https://h/p/overview.json"
  /\ lookup_by_name url_pathname [intro_node] bare_first_urls "intro"
     <> inl "https://h/p/intro.json".
Proof.
  repeat split. discriminate.
Qed.

(** *** A failed page and the rest of the viewer *)

Section PageFailure.

Variable pathname : string -> option string.
Variable request : string -> option string.
Variable contentUrls : list string.

(** Once the error paragraph is what the component renders, a selection
    changes nothing: the sidebar is not rendered, and nothing resets
    [error]. *)
Lemma select_on_error_screen (rev : Revision) (st : State) (message : string)
      (target : string) :
  render st = ErrorScreen message ->
  select pathname request contentUrls rev st target = st.
Proof.
  intros H. unfold select. now rewrite H.
Qed.

Lemma error_screen_is_final (rev : Revision) (st : State) (message : string)
      (targets : list string) :
  render st = ErrorScreen message ->
  fold_left (select pathname request contentUrls rev) targets st = st.
Proof.
  intros H. induction targets as [|t ts IH]; simpl; [reflexivity|].
  now rewrite (select_on_error_screen rev st message t H).
Qed.

End PageFailure.

(** A viewer showing page [a] of a two-page tree, with a URL list that has
    one entry only. *)
Definition two_pages : list WikiStructureItem :=
  [mkItem "a" "A" (Some "a.json") None; mkItem "b" "B" (Some "b.json") None].

Definition one_url : list string := ["https://h/p/a.json"].

Definition every_request_succeeds (url : string) : option string :=
  Some ("page at " ++ url)%string.

Definition showing_a : State :=
  {| structure := two_pages; selectedId := Some "a";
     pageContent := Some "page at https://h/p/a.json";
     loading := false; loadingPage := false; error := None |}.

(** C7 on the code: a lookup failure for one page.  Selecting [b], which
    has no content URL, makes [fetchPage] of [WikiViewer.tsx] set the
    component-wide [error]: the component then renders the error paragraph
    instead of the sidebar and the page, and stays so whatever is selected
    next, although page [a] still resolves.  The sibling revision, whose
    [catch] sets no error, keeps the sidebar and the page shown. *)
Theorem fetchPage_failure_replaces_the_viewer :
  render showing_a = Browser two_pages (Some "page at https://h/p/a.json")
  /\ lookup_by_index two_pages one_url "a" = inl "https://h/p/a.json"
  /\ render (select url_pathname every_request_succeeds one_url ByIndex
                    showing_a "b")
     = ErrorScreen "Failed to load page content."
  /\ (forall targets,
        render (fold_left
                  (select url_pathname every_request_succeeds one_url ByIndex)
                  targets
                  (select url_pathname every_request_succeeds one_url ByIndex
                          showing_a "b"))
        = ErrorScreen "Failed to load page content.")
  /\ render (select url_pathname every_request_succeeds one_url ByName
                    showing_a "b")
     = Browser two_pages (Some "page at https://h/p/a.json").
Proof.
  split; [reflexivity|]. split; [reflexivity|]. split; [reflexivity|].
  split; [|reflexivity].
  intros targets.
  assert (H : render (select url_pathname every_request_succeeds one_url
                             ByIndex showing_a "b")
              = ErrorScreen "Failed to load page content.") by reflexivity.
  now rewrite (error_screen_is_final url_pathname every_request_succeeds
                 one_url ByIndex _ _ targets H).
Qed.

End ViewerSpec.

(** ** The structure normalizer *)

Module StructureSpec.
Import JS Structure.

Lemma sequence_length {A} (l : list (option A)) (out : list A) :
  sequence l = Some out -> List.length out = List.length l.
Proof.
  revert out. induction l as [|[x|] l IH]; simpl; intros out H.
  - now inversion H.
  - destruct (sequence l) as [xs|]; [|discriminate].
    inversion H. simpl. now rewrite (IH xs eq_refl).
  - discriminate.
Qed.

Lemma sequence_nth {A} (l : list (option A)) (out : list A) (n : nat)
      (o : A) :
  sequence l = Some out ->
  nth_error out n = Some o ->
  nth_error l n = Some (Some o).
Proof.
  revert out n. induction l as [|[x|] l IH]; simpl; intros out n H Hn.
  - inversion H. subst. destruct n; discriminate.
  - destruct (sequence l) as [xs|]; [|discriminate].
    inversion H. subst. destruct n as [|n]; simpl in *.
    + now inversion Hn.
    + now apply (IH xs).
  - discriminate.
Qed.

Section WithPrinter.

Variable Number_toString : Z -> string.

Lemma normalize_nth (data : list value) (out : list Item) (n : nat)
      (item : value) (o : Item) :
  normalize Number_toString data = Some out ->
  nth_error data n = Some item ->
  nth_error out n = Some o ->
  normalizeItem Number_toString item = Some o.
Proof.
  unfold normalize. intros H Hd Ho.
  pose proof (sequence_nth _ _ _ _ H Ho) as Hn.
  rewrite nth_error_map, Hd in Hn. simpl in Hn. now inversion Hn.
Qed.

Lemma normalize_sibling_nth (data : list value) (out : list Item) (n : nat)
      (item : value) (o : Item) :
  normalize_sibling Number_toString data = Some out ->
  nth_error data n = Some item ->
  nth_error out n = Some o ->
  normalizeItem_sibling Number_toString item = Some o.
Proof.
  unfold normalize_sibling. intros H Hd Ho.
  pose proof (sequence_nth _ _ _ _ H Ho) as Hn.
  rewrite nth_error_map, Hd in Hn. simpl in Hn. now inversion Hn.
Qed.

(** What the callback makes of one item. *)
Lemma normalizeItem_fields (item : value) (o : Item) :
  normalizeItem Number_toString item = Some o ->
  exists item_id section_id item_filename item_children,
    get item "id" = Some item_id
    /\ get item "section_id" = Some section_id
    /\ get item "filename" = Some item_filename
    /\ get item "children" = Some item_children
    /\ derive_id item_id section_id item_filename = Some (id o)
    /\ derive_filename Number_toString item_filename (id o)
       = Some (filename o)
    /\ children o = item_children.
Proof.
  unfold normalizeItem. intros H.
  destruct (get item "id") as [item_id|]; [|discriminate].
  destruct (get item "section_id") as [section_id|]; [|discriminate].
  destruct (get item "filename") as [item_filename|]; [|discriminate].
  destruct (get item "title") as [item_title|]; [|discriminate].
  destruct (get item "name") as [item_name|]; [|discriminate].
  destruct (get item "children") as [item_children|]; [|discriminate].
  destruct (derive_id item_id section_id item_filename) as [id'|] eqn:Hid;
    [|discriminate].
  destruct (derive_filename Number_toString item_filename id')
    as [filename'|] eqn:Hfn; [|discriminate].
  inversion H. subst o. simpl.
  exists item_id, section_id, item_filename, item_children. auto 10.
Qed.

(** The sibling revision builds the same element whenever the node has a
    truthy id, section id or filename; for a node with none of them it
    leaves the filename [null]. *)
Lemma normalizeItem_sibling_agrees (item item_id section_id item_filename : value) :
  get item "id" = Some item_id ->
  get item "section_id" = Some section_id ->
  get item "filename" = Some item_filename ->
  truthy item_id || truthy section_id || truthy item_filename = true ->
  normalizeItem_sibling Number_toString item
  = normalizeItem Number_toString item.
Proof.
  intros Gi Gs Gf T. unfold normalizeItem_sibling, normalizeItem.
  rewrite Gi, Gs, Gf.
  destruct (get item "title") as [item_title|]; [|reflexivity].
  destruct (get item "name") as [item_name|]; [|reflexivity].
  destruct (get item "children") as [item_children|]; [|reflexivity].
  unfold derive_id, derive_filename, derive_filename_sibling.
  destruct (truthy item_filename) eqn:Tf.
  - destruct (truthy item_id); [reflexivity|].
    destruct (truthy section_id); [reflexivity|].
    destruct item_filename; reflexivity.
  - destruct (truthy item_id) eqn:Ti; [reflexivity|].
    destruct (truthy section_id) eqn:Ts; [reflexivity|discriminate].
Qed.

(** A node with no truthy id, section id or filename: the two revisions
    differ in the filename only. *)
Lemma normalizeItem_sibling_bare (item item_id section_id item_filename : value)
      (o' : Item) :
  get item "id" = Some item_id ->
  get item "section_id" = Some section_id ->
  get item "filename" = Some item_filename ->
  truthy item_id || truthy section_id || truthy item_filename = false ->
  normalizeItem_sibling Number_toString item = Some o' ->
  filename o' = VNull
  /\ exists o,
       normalizeItem Number_toString item = Some o
       /\ id o' = id o /\ title o' = title o /\ children o' = children o.
Proof.
  intros Gi Gs Gf T. unfold normalizeItem_sibling, normalizeItem.
  rewrite Gi, Gs, Gf.
  apply orb_false_iff in T as [T Tf]. apply orb_false_iff in T as [Ti Ts].
  destruct (get item "title") as [item_title|]; [|discriminate].
  destruct (get item "name") as [item_name|]; [|discriminate].
  destruct (get item "children") as [item_children|]; [|discriminate].
  unfold derive_id, derive_filename, derive_filename_sibling.
  rewrite Ti, Ts, Tf.
  destruct item_filename as [| |b|z|f|l|fs]; try discriminate;
    try (intros [= <-]; simpl; split; [reflexivity|];
         eexists; split; [reflexivity|]; auto).
  simpl in Tf. apply negb_false_iff, String.eqb_eq in Tf. subst f.
  intros [= <-]. simpl. split; [reflexivity|].
  eexists. split; [reflexivity|]. auto.
Qed.

Lemma normalize_of_sibling (data : list value) :
  forall out',
    normalize_sibling Number_toString data = Some out' ->
    exists out, normalize Number_toString data = Some out.
Proof.
  unfold normalize_sibling, normalize.
  induction data as [|item rest IH]; intros out' H; simpl in *.
  - now exists [].
  - destruct (normalizeItem_sibling Number_toString item) as [o'|] eqn:E;
      [|discriminate].
    destruct (sequence (map (normalizeItem_sibling Number_toString) rest))
      as [rest'|]; [|discriminate].
    destruct (IH rest' eq_refl) as [out Hout]. rewrite Hout.
    assert (exists o, normalizeItem Number_toString item = Some o)
      as [o Ho].
    { pose proof E as E'. unfold normalizeItem_sibling in E'.
      destruct (get item "id") as [item_id|] eqn:Gi; [|discriminate].
      destruct (get item "section_id") as [section_id|] eqn:Gs;
        [|discriminate].
      destruct (get item "filename") as [item_filename|] eqn:Gf;
        [|discriminate].
      clear E'.
      destruct (truthy item_id || truthy section_id || truthy item_filename)
        eqn:T.
      - rewrite <- (normalizeItem_sibling_agrees item _ _ _ Gi Gs Gf T).
        eauto.
      - destruct (normalizeItem_sibling_bare item _ _ _ o' Gi Gs Gf T E)
          as (_ & o & Ho & _). eauto. }
    rewrite Ho. eauto.
Qed.

(** C6, as amended.  [normalized] has one element per element of the node
    list.  For each top-level node the id is the node's [id] when truthy,
    else its [section_id] when truthy, else its string [filename] with the
    first [.json] removed when that is not empty, else [unknown]; the
    filename is the node's [filename] when truthy, else the id, printed as
    a template literal prints it, followed by [.json]; and [children] is
    the node's own [children] value, copied as it is: nesting is kept, and
    the nested nodes are not normalized.  The sibling revision builds the
    same ids, titles and children; its filename is the same for a node
    with a truthy [filename], [id] or [section_id], and [null] for a node
    with none of them. *)
Theorem normalize_top_level (data : list value) :
  (forall out,
     normalize Number_toString data = Some out ->
     List.length out = List.length data
     /\ forall n item o,
          nth_error data n = Some item ->
          nth_error out n = Some o ->
          exists item_id section_id item_filename item_children,
            get item "id" = Some item_id
            /\ get item "section_id" = Some section_id
            /\ get item "filename" = Some item_filename
            /\ get item "children" = Some item_children
            /\ (truthy item_id = true -> id o = item_id)
            /\ (truthy item_id = false -> truthy section_id = true ->
                id o = section_id)
            /\ (truthy item_id = false -> truthy section_id = false ->
                forall f,
                  item_filename = VStr f ->
                  Str.replace_first ".json" "" f <> "" ->
                  id o = VStr (Str.replace_first ".json" "" f))
            /\ (truthy item_id = false -> truthy section_id = false ->
                forall f,
                  item_filename = VStr f ->
                  Str.replace_first ".json" "" f = "" ->
                  id o = VStr "unknown")
            /\ (truthy item_id = false -> truthy section_id = false ->
                truthy item_filename = false ->
                id o = VStr "unknown")
            /\ (truthy item_filename = true -> filename o = item_filename)
            /\ (truthy item_filename = false ->
                exists s,
                  toString Number_toString (id o) = Some s
                  /\ filename o = VStr (s ++ ".json"))
            /\ children o = item_children)
  /\ (forall out',
        normalize_sibling Number_toString data = Some out' ->
        exists out,
          normalize Number_toString data = Some out
          /\ List.length out' = List.length out
          /\ forall n item o o',
               nth_error data n = Some item ->
               nth_error out n = Some o ->
               nth_error out' n = Some o' ->
               exists item_id section_id item_filename,
                 get item "id" = Some item_id
                 /\ get item "section_id" = Some section_id
                 /\ get item "filename" = Some item_filename
                 /\ id o' = id o
                 /\ title o' = title o
                 /\ children o' = children o
                 /\ (truthy item_id || truthy section_id
                     || truthy item_filename = true ->
                     filename o' = filename o)
                 /\ (truthy item_id || truthy section_id
                     || truthy item_filename = false ->
                     filename o' = VNull)).
Proof.
  split.
  - intros out H. split.
    + unfold normalize in H. apply sequence_length in H.
      now rewrite length_map in H.
    + intros n item o Hd Ho.
      destruct (normalizeItem_fields item o (normalize_nth _ _ _ _ _ H Hd Ho))
        as (item_id & section_id & item_filename & item_children
            & Gi & Gs & Gf & Gc & Hid & Hfn & Hch).
      exists item_id, section_id, item_filename, item_children.
      repeat (split; [assumption|]).
      unfold derive_id in Hid. unfold derive_filename in Hfn.
      split; [|split; [|split; [|split; [|split; [|split; [|split]]]]]].
      * intros T. rewrite T in Hid. now inversion Hid.
      * intros T1 T2. rewrite T1, T2 in Hid. now inversion Hid.
      * intros T1 T2 f -> Hne. rewrite T1, T2 in Hid.
        unfold or in Hid. simpl in Hid.
        apply String.eqb_neq in Hne. rewrite Hne in Hid. now inversion Hid.
      * intros T1 T2 f -> He. rewrite T1, T2 in Hid.
        unfold or in Hid. simpl in Hid. rewrite He in Hid. now inversion Hid.
      * intros T1 T2 T3. rewrite T1, T2 in Hid.
        destruct item_filename as [| |b|z|f|l|fs]; try discriminate;
          try (now inversion Hid).
        simpl in T3. apply negb_false_iff, String.eqb_eq in T3. subst f.
        simpl in Hid. now inversion Hid.
      * intros T. rewrite T in Hfn. now inversion Hfn.
      * intros T. rewrite T in Hfn.
        destruct (toString Number_toString (id o)) as [s|]; [|discriminate].
        exists s. split; [reflexivity|]. now inversion Hfn.
      * exact Hch.
  - intros out' H'.
    destruct (normalize_of_sibling data out' H') as [out H].
    exists out. split; [exact H|]. split.
    + unfold normalize in H. unfold normalize_sibling in H'.
      apply sequence_length in H. apply sequence_length in H'.
      rewrite length_map in H, H'. congruence.
    + intros n item o o' Hd Ho Ho'.
      pose proof (normalize_nth _ _ _ _ _ H Hd Ho) as E.
      pose proof (normalize_sibling_nth _ _ _ _ _ H' Hd Ho') as E'.
      destruct (normalizeItem_fields item o E)
        as (item_id & section_id & item_filename & _
            & Gi & Gs & Gf & _).
      exists item_id, section_id, item_filename.
      repeat (split; [assumption|]).
      destruct (truthy item_id || truthy section_id || truthy item_filename)
        eqn:T.
      * rewrite (normalizeItem_sibling_agrees item _ _ _ Gi Gs Gf T) in E'.
        assert (o' = o) by congruence. subst o'.
        repeat split; auto. discriminate.
      * destruct (normalizeItem_sibling_bare item _ _ _ o' Gi Gs Gf T E')
          as (Hnull & o2 & Ho2 & Hi & Ht & Hc).
        assert (o2 = o) by congruence. subst o2.
        repeat split; auto. discriminate.
Qed.

End WithPrinter.

Lemma normalizeItem_sibling_unknown :
  option_map filename (normalizeItem Str.of_Z (VObj [("title", VStr "T")]))
  = Some (VStr "unknown.json")
  /\ option_map filename
       (normalizeItem_sibling Str.of_Z (VObj [("title", VStr "T")]))
     = Some VNull.
Proof. split; reflexivity. Qed.

(** A body of two nodes: one with a [section_id] only, and [b] with one
    child that has a [section_id] and no [id]. *)
Definition nested_child : value :=
  VObj [("section_id", VStr "c"); ("title", VStr "C")].

Definition nested_body : list value :=
  [ VObj [("section_id", VStr "intro")];
    VObj [("id", VStr "b"); ("title", VStr "B");
          ("children", VArr [nested_child])] ].

Definition nested_normalized : list Item :=
  [ {| id := VStr "intro"; title := VStr "Untitled";
       filename := VStr "intro.json"; children := VUndefined |};
    {| id := VStr "b"; title := VStr "B";
       filename := VStr "b.json"; children := VArr [nested_child] |} ].

Lemma normalize_top_level_witness :
  List.length nested_normalized = List.length nested_body
  /\ exists o,
       nth_error nested_normalized 1 = Some o
       /\ children o = VArr [nested_child].
Proof.
  destruct (normalize_top_level Str.of_Z nested_body) as [Hmain _].
  destruct (Hmain nested_normalized eq_refl) as (Hlen & Hitems).
  split; [exact Hlen|].
  destruct (Hitems 1 _ _ eq_refl eq_refl)
    as (item_id & section_id & item_filename & item_children
        & _ & _ & _ & Gc & _ & _ & _ & _ & _ & _ & _ & Hch).
  eexists. split; [reflexivity|].
  rewrite Hch. simpl in Gc. now inversion Gc.
Defined.

(** C6 as stated fails below the top level: the child of [b], which has a
    [section_id] and no [id], is stored as received.  Its [id] and
    [filename] stay undefined, where normalizing it would give [c] and
    [c.json].  In the sibling revision it fails on the filename too: a node
    with no [id], [section_id] or [filename] gets the id [unknown] and the
    filename [null], not [unknown.json]. *)
Lemma normalize_leaves_children_raw :
  fetchStructure Str.of_Z (VObj [("toc", VArr nested_body)])
  = Some nested_normalized
  /\ (exists o,
        nth_error nested_normalized 1 = Some o
        /\ children o = VArr [nested_child])
  /\ get nested_child "id" = Some VUndefined
  /\ get nested_child "filename" = Some VUndefined
  /\ (exists o,
        normalizeItem Str.of_Z nested_child = Some o
        /\ id o = VStr "c" /\ filename o = VStr "c.json")
  /\ get nested_child "id" <> Some (VStr "c")
  /\ normalize_sibling Str.of_Z [VObj [("title", VStr "T")]]
     = Some [ {| id := VStr "unknown"; title := VStr "T";
                 filename := VNull; children := VUndefined |} ]
  /\ VNull <> VStr "unknown.json".
Proof.
  split; [reflexivity|].
  split; [eexists; split; reflexivity|].
  split; [reflexivity|]. split; [reflexivity|].
  split; [eexists; repeat split|].
  split; [discriminate|].
  split; [reflexivity|discriminate].
Qed.

End StructureSpec.

(** ** The model of [JSON.parse] *)

Module JsonSpec.
Import JS Json.

Lemma dropWhile_length {A} (p : A -> bool) (l : list A) :
  List.length (Str.dropWhile p l) <= List.length l.
Proof.
  induction l as [|x l IH]; simpl; [lia|].
  destruct (p x); simpl; lia.
Qed.

Lemma string_of_list_ascii_length (cs : list ascii) :
  String.length (string_of_list_ascii cs) = List.length cs.
Proof. induction cs; simpl; congruence. Qed.

Lemma list_ascii_of_string_length (s : string) :
  List.length (list_ascii_of_string s) = String.length s.
Proof. induction s; simpl; congruence. Qed.

(** A string literal is longer than the text it denotes. *)
Lemma parse_string_body_length (n : nat) :
  forall l cs r,
    List.length l <= n ->
    parse_string_body l = Some (cs, r) ->
    List.length cs + List.length r < List.length l.
Proof.
  induction n as [|n IH]; intros l cs r Hn H.
  - destruct l; [discriminate|simpl in Hn; lia].
  - destruct l as [|c t]; [discriminate|]. simpl in Hn. simpl in H.
    destruct (Ascii.eqb c Str.dquote).
    + inversion H. subst. simpl. lia.
    + destruct (Ascii.eqb c "\").
      * destruct t as [|e t']; [discriminate|].
        destruct (unescape e); [|discriminate].
        destruct (parse_string_body t') as [[cs' r']|] eqn:E; [|discriminate].
        inversion H. subst. simpl in *.
        assert (List.length cs' + List.length r < List.length t')
          by (apply IH; [lia|assumption]).
        lia.
      * destruct (nat_of_ascii c <? 32)%nat; [discriminate|].
        destruct (parse_string_body t) as [[cs' r']|] eqn:E; [|discriminate].
        inversion H. subst. simpl.
        assert (List.length cs' + List.length r < List.length t)
          by (apply IH; [lia|assumption]).
        lia.
Qed.

Lemma expect_not_string word v l s r :
  JS.is_string v = false ->
  expect word v l <> Some (VStr s, r).
Proof.
  unfold expect. intros Hv H.
  destruct (list_eq_dec _ _ _); [|discriminate].
  inversion H. subst. discriminate.
Qed.

Lemma parse_int_not_string neg d rest s r :
  parse_int neg d rest <> Some (VStr s, r).
Proof.
  unfold parse_int.
  destruct (if Ascii.eqb d "0" then _ else _) as [n r0].
  destruct r0 as [|c r1]; [discriminate|].
  destruct (is_digit c || _ || _ || _); discriminate.
Qed.

(** A document that denotes a string is longer than that string. *)
Lemma parse_value_string (fuel : nat) (l : list ascii) (s : string)
      (r : list ascii) :
  parse_value fuel l = Some (VStr s, r) ->
  String.length s + List.length r < List.length l.
Proof.
  destruct fuel as [|fuel]; [discriminate|]. simpl.
  pose proof (dropWhile_length is_ws l) as Hws. fold (skip_ws l) in Hws.
  destruct (skip_ws l) as [|c t]; [discriminate|]. simpl in Hws.
  destruct (Ascii.eqb c Str.dquote).
  { destruct (parse_string_body t) as [[cs r']|] eqn:E; [|discriminate].
    intros H. inversion H. subst.
    rewrite string_of_list_ascii_length.
    pose proof (parse_string_body_length _ _ _ _ (le_n _) E). lia. }
  destruct (Ascii.eqb c "[").
  { destruct (skip_ws t) as [|c' t']; [|destruct (Ascii.eqb c' "]") eqn:E'].
    - destruct (parse_elements fuel t) as [[? ?]|]; discriminate.
    - apply Ascii.eqb_eq in E'. subst c'. discriminate.
    - destruct c' as [[] [] [] [] [] [] [] []];
        try discriminate;
        destruct (parse_elements fuel t) as [[? ?]|]; discriminate. }
  destruct (Ascii.eqb c "{").
  { destruct (skip_ws t) as [|c' t']; [|destruct (Ascii.eqb c' "}") eqn:E'].
    - destruct (parse_members fuel [] t) as [[? ?]|]; discriminate.
    - apply Ascii.eqb_eq in E'. subst c'. discriminate.
    - destruct c' as [[] [] [] [] [] [] [] []];
        try discriminate;
        destruct (parse_members fuel [] t) as [[? ?]|]; discriminate. }
  destruct (Ascii.eqb c "t");
    [intros H; now apply expect_not_string in H|].
  destruct (Ascii.eqb c "f");
    [intros H; now apply expect_not_string in H|].
  destruct (Ascii.eqb c "n");
    [intros H; now apply expect_not_string in H|].
  destruct (Ascii.eqb c "-").
  { destruct t as [|d r0]; [discriminate|].
    destruct (is_digit d); [|discriminate].
    intros H. now apply parse_int_not_string in H. }
  destruct (is_digit c); [|discriminate].
  intros H. now apply parse_int_not_string in H.
Qed.

Lemma parse_shrinks (text s : string) :
  parse text = Some (VStr s) -> String.length s < String.length text.
Proof.
  unfold parse.
  destruct (parse_value _ _) as [[v r]|] eqn:E; [|discriminate].
  destruct (skip_ws r); [|discriminate].
  intros H. inversion H. subst v.
  apply parse_value_string in E.
  rewrite list_ascii_of_string_length in E. lia.
Qed.

End JsonSpec.

(** ** [parseContentSafely] *)

Module PayloadSpec.
Import JS Payload.

(** The literal of the example, [{ intro: real intro, sections: [] }] as
    JSON text, and the object it denotes. *)
Definition example_text : string :=
  ("{" ++ Str.dq ++ "intro" ++ Str.dq ++ ":" ++ Str.dq ++ "real intro"
   ++ Str.dq ++ "," ++ Str.dq ++ "sections" ++ Str.dq ++ ":[]}")%string.

Definition example_object : value :=
  VObj [("intro", VStr "real intro"); ("sections", VArr [])].

Section WithParser.

Variable JSON_parse : string -> option value.

Lemma well_shaped_fields (rawContent : value) (i : string) :
  well_shaped rawContent = Some i ->
  exists fields secs,
    rawContent = VObj fields
    /\ lookup "intro" fields = VStr i
    /\ lookup "sections" fields = VArr secs.
Proof.
  destruct rawContent as [| |b|z|s|l|fields]; try discriminate. simpl.
  destruct (lookup "intro" fields) as [| |b|z|s|l|fs] eqn:Hi; try discriminate.
  destruct (lookup "sections" fields) as [| |b|z|s'|secs|fs] eqn:Hs;
    try discriminate.
  intros [= ->]. now exists fields, secs.
Qed.

Lemma well_shaped_object (fields : list (string * value)) (i : string)
      (secs : list value) :
  lookup "intro" fields = VStr i ->
  lookup "sections" fields = VArr secs ->
  well_shaped (VObj fields) = Some i.
Proof. intros Hi Hs. simpl. now rewrite Hi, Hs. Qed.

(** The result on a well-shaped object does not depend on the bound. *)
Lemma well_shaped_any_depth (depth : nat) (rawContent : value) (i : string) :
  well_shaped rawContent = Some i ->
  parseContentSafely_depth JSON_parse depth rawContent
  = Some (if looks_serialized i
          then match from_parsed_intro JSON_parse rawContent i with
               | Some c => c
               | None => outer_content rawContent i
               end
          else outer_content rawContent i).
Proof.
  intros H. destruct depth; simpl; rewrite H;
    destruct (looks_serialized i); try reflexivity;
    destruct (from_parsed_intro JSON_parse rawContent i); reflexivity.
Qed.

Lemma outer_content_object (fields : list (string * value)) (i : string)
      (secs : list value) :
  lookup "sections" fields = VArr secs ->
  outer_content (VObj fields) i
  = {| intro := VStr i; sections := VArr secs;
       mermaid := or (lookup "mermaid" fields) (VStr "") |}.
Proof. intros Hs. unfold outer_content. simpl. now rewrite Hs. Qed.

(** *** Where a field of the result comes from *)

(** [v] is what is left of a payload when its string layers are parsed
    away. *)
Inductive unwraps : value -> value -> Prop :=
| unwraps_here v : unwraps v v
| unwraps_layer text parsed v :
    JSON_parse text = Some parsed ->
    unwraps parsed v ->
    unwraps (VStr text) v.

(** [v] is the truthy field [k] of the payload's object. *)
Definition copied_from_object (rawContent : value) (k : string) (v : value)
  : Prop :=
  exists fields i secs,
    unwraps rawContent (VObj fields)
    /\ lookup "intro" fields = VStr i
    /\ lookup "sections" fields = VArr secs
    /\ lookup k fields = v
    /\ truthy v = true.

(** [v] is the truthy field [k] of what the [intro] of the payload's object
    parses to. *)
Definition copied_from_parsed_intro (rawContent : value) (k : string)
    (v : value) : Prop :=
  exists fields i secs parsedIntro,
    unwraps rawContent (VObj fields)
    /\ lookup "intro" fields = VStr i
    /\ lookup "sections" fields = VArr secs
    /\ looks_serialized i = true
    /\ JSON_parse i = Some parsedIntro
    /\ get parsedIntro k = Some v
    /\ truthy v = true.

(** Each field has its declared type unless it was copied. *)
Definition typed_or_copied (rawContent : value) (c : Content) : Prop :=
  (is_string (intro c) = true
   \/ copied_from_parsed_intro rawContent "intro" (intro c))
  /\ (is_array (sections c) = true
      \/ copied_from_parsed_intro rawContent "sections" (sections c))
  /\ (is_string (mermaid c) = true
      \/ copied_from_parsed_intro rawContent "mermaid" (mermaid c)
      \/ copied_from_object rawContent "mermaid" (mermaid c)).

Lemma typed_or_copied_layer (text : string) (parsed : value) (c : Content) :
  JSON_parse text = Some parsed ->
  typed_or_copied parsed c ->
  typed_or_copied (VStr text) c.
Proof.
  intros P (Hi & Hs & Hm).
  assert (Lp : forall k v,
            copied_from_parsed_intro parsed k v ->
            copied_from_parsed_intro (VStr text) k v).
  { intros k v (fields & i & secs & p & U & H). exists fields, i, secs, p.
    split; [exact (unwraps_layer _ _ _ P U)|exact H]. }
  assert (Lo : forall k v,
            copied_from_object parsed k v ->
            copied_from_object (VStr text) k v).
  { intros k v (fields & i & secs & U & H). exists fields, i, secs.
    split; [exact (unwraps_layer _ _ _ P U)|exact H]. }
  unfold typed_or_copied. intuition.
Qed.

Lemma typed_or_copied_empty (rawContent : value) :
  typed_or_copied rawContent empty_content.
Proof. unfold typed_or_copied. simpl. auto. Qed.

Lemma typed_or_copied_object (rawContent : value) (i : string) :
  well_shaped rawContent = Some i ->
  typed_or_copied rawContent
    (if looks_serialized i
     then match from_parsed_intro JSON_parse rawContent i with
          | Some c => c
          | None => outer_content rawContent i
          end
     else outer_content rawContent i).
Proof.
  intros W.
  destruct (well_shaped_fields _ _ W) as (fields & secs & -> & Hi & Hs).
  assert (Outer : typed_or_copied (VObj fields) (outer_content (VObj fields) i)).
  { rewrite (outer_content_object _ _ _ Hs). unfold typed_or_copied. simpl.
    split; [now left|]. split; [now left|].
    unfold or. destruct (truthy (lookup "mermaid" fields)) eqn:T.
    - right. right. exists fields, i, secs.
      split; [apply unwraps_here|]. auto.
    - now left. }
  destruct (looks_serialized i) eqn:L; [|exact Outer].
  unfold from_parsed_intro.
  destruct (JSON_parse i) as [p|] eqn:P; [|exact Outer].
  destruct (get p "intro") as [pi|] eqn:Gi; [|exact Outer].
  destruct (get p "sections") as [ps|] eqn:Gs; [|exact Outer].
  destruct (get p "mermaid") as [pm|] eqn:Gm; [|exact Outer].
  simpl. rewrite Hs.
  assert (Copied : forall k v,
            get p k = Some v -> truthy v = true ->
            copied_from_parsed_intro (VObj fields) k v).
  { intros k v G T. exists fields, i, secs, p.
    split; [apply unwraps_here|]. auto 10. }
  unfold typed_or_copied. simpl. unfold or.
  split; [|split].
  - destruct (truthy pi) eqn:T; [right; now apply Copied|now left].
  - destruct (truthy ps) eqn:T; simpl.
    + rewrite T. right. now apply Copied.
    + now left.
  - destruct (truthy pm) eqn:T; simpl.
    + rewrite T. right. left. now apply Copied.
    + destruct (truthy (lookup "mermaid" fields)) eqn:T'.
      * right. right. exists fields, i, secs.
        split; [apply unwraps_here|]. auto.
      * now left.
Qed.

Lemma typed_or_copied_depth (depth : nat) :
  forall rawContent c,
    parseContentSafely_depth JSON_parse depth rawContent = Some c ->
    typed_or_copied rawContent c.
Proof.
  induction depth as [|d IH]; intros rawContent c H;
    (destruct (well_shaped rawContent) as [i|] eqn:W;
     [ rewrite (well_shaped_any_depth _ _ i W) in H; inversion H;
       now apply typed_or_copied_object
     | simpl in H; rewrite W in H;
       destruct rawContent as [| |b|z|text|l|fs];
       try (inversion H; apply typed_or_copied_empty) ]).
  - destruct (JSON_parse text); [discriminate|].
    inversion H. apply typed_or_copied_empty.
  - destruct (JSON_parse text) as [parsed|] eqn:P.
    + apply (typed_or_copied_layer text parsed c P). now apply IH.
    + inversion H. apply typed_or_copied_empty.
Qed.

Section Terminating.

(** Parsing a text to a string gives a shorter string. *)
Hypothesis parse_shrinks :
  forall text s,
    JSON_parse text = Some (VStr s) -> String.length s < String.length text.

Lemma layers_parsed (text : string) (parsed : value) :
  JSON_parse text = Some parsed -> layers parsed <= String.length text.
Proof.
  intros H. destruct parsed; simpl; try lia.
  apply parse_shrinks in H. lia.
Qed.

Lemma depth_never_reached (depth : nat) :
  forall rawContent,
    layers rawContent <= depth ->
    exists c, parseContentSafely_depth JSON_parse depth rawContent = Some c.
Proof.
  induction depth as [|d IH]; intros rawContent Hl.
  - destruct (well_shaped rawContent) as [i|] eqn:W.
    + rewrite (well_shaped_any_depth _ _ i W). eauto.
    + simpl. rewrite W. destruct rawContent; eauto.
      simpl in Hl. lia.
  - destruct (well_shaped rawContent) as [i|] eqn:W.
    + rewrite (well_shaped_any_depth _ _ i W). eauto.
    + simpl. rewrite W. destruct rawContent as [| |b|z|text|l|fs]; eauto.
      destruct (JSON_parse text) as [parsed|] eqn:P; eauto.
      apply IH. simpl in Hl. pose proof (layers_parsed _ _ P). lia.
Qed.

Lemma depth_irrelevant (d1 : nat) :
  forall d2 rawContent,
    layers rawContent <= d1 ->
    layers rawContent <= d2 ->
    parseContentSafely_depth JSON_parse d1 rawContent
    = parseContentSafely_depth JSON_parse d2 rawContent.
Proof.
  induction d1 as [|d1 IH]; intros d2 rawContent H1 H2.
  - destruct (well_shaped rawContent) as [i|] eqn:W.
    + now rewrite !(well_shaped_any_depth _ _ i W).
    + destruct rawContent as [| |b|z|text|l|fs];
        try (destruct d2; simpl; rewrite ?W; reflexivity).
      simpl in H1. lia.
  - destruct (well_shaped rawContent) as [i|] eqn:W.
    + now rewrite !(well_shaped_any_depth _ _ i W).
    + destruct rawContent as [| |b|z|text|l|fs];
        try (destruct d2; simpl; rewrite ?W; reflexivity).
      destruct d2 as [|d2]; [simpl in H2; lia|].
      simpl. destruct (JSON_parse text) as [parsed|] eqn:P; [|reflexivity].
      pose proof (layers_parsed _ _ P). simpl in H1, H2.
      apply IH; lia.
Qed.

(** C4, as amended.  [parseContentSafely] returns for every input value: it
    never throws, and what it returns always has the three fields [intro],
    [sections] and [mermaid].  It returns the empty content when the input
    is neither a string nor an object with a string [intro] and an array
    [sections], and when it is a string that does not parse; on a string
    that parses it returns what it returns on the parsed value.  On an
    object with a string [intro] and an array [sections] whose [intro] does
    not start with a brace after trimming, or does not parse, the result
    has that string as [intro], that array as [sections], and the object's
    [mermaid] when truthy, the empty string otherwise.  When the [intro]
    parses to an object that has no truthy [intro] of its own, the result
    keeps the outer [intro], the serialized text.  In every result, [intro]
    is a string, [sections] is an array and [mermaid] is a string, unless
    the field was copied, being truthy, from what the [intro] parsed to,
    or [mermaid] was copied, being truthy, from the object: for a copied
    field no type is promised. *)
Theorem parseContentSafely_total (rawContent : value) :
  (exists c, parseContentSafely JSON_parse rawContent = Some c)
  /\ (well_shaped rawContent = None ->
      is_string rawContent = false ->
      parseContentSafely JSON_parse rawContent = Some empty_content)
  /\ (forall text,
        rawContent = VStr text ->
        JSON_parse text = None ->
        parseContentSafely JSON_parse rawContent = Some empty_content)
  /\ (forall text parsed,
        rawContent = VStr text ->
        JSON_parse text = Some parsed ->
        parseContentSafely JSON_parse rawContent
        = parseContentSafely JSON_parse parsed)
  /\ (forall fields i secs,
        rawContent = VObj fields ->
        lookup "intro" fields = VStr i ->
        lookup "sections" fields = VArr secs ->
        looks_serialized i = false \/ JSON_parse i = None ->
        parseContentSafely JSON_parse rawContent
        = Some {| intro := VStr i;
                  sections := VArr secs;
                  mermaid := or (lookup "mermaid" fields) (VStr "") |})
  /\ (forall fields i secs inner,
        rawContent = VObj fields ->
        lookup "intro" fields = VStr i ->
        lookup "sections" fields = VArr secs ->
        looks_serialized i = true ->
        JSON_parse i = Some (VObj inner) ->
        truthy (lookup "intro" inner) = false ->
        exists c,
          parseContentSafely JSON_parse rawContent = Some c
          /\ intro c = VStr i)
  /\ (forall c,
        parseContentSafely JSON_parse rawContent = Some c ->
        (is_string (intro c) = true
         \/ copied_from_parsed_intro rawContent "intro" (intro c))
        /\ (is_array (sections c) = true
            \/ copied_from_parsed_intro rawContent "sections" (sections c))
        /\ (is_string (mermaid c) = true
            \/ copied_from_parsed_intro rawContent "mermaid" (mermaid c)
            \/ copied_from_object rawContent "mermaid" (mermaid c))).
Proof.
  unfold parseContentSafely.
  split; [apply depth_never_reached; lia|].
  split; [|split; [|split; [|split; [|split]]]].
  - intros W S. destruct rawContent; try discriminate; simpl in *;
      try reflexivity. now rewrite W.
  - intros text -> P. simpl. now rewrite P.
  - intros text parsed -> P. simpl. rewrite P.
    apply depth_irrelevant; [now apply layers_parsed|lia].
  - intros fields i secs -> Hi Hs Hplain.
    rewrite (well_shaped_any_depth _ _ i (well_shaped_object _ _ _ Hi Hs)).
    rewrite (outer_content_object _ _ _ Hs).
    destruct Hplain as [Hl|Hp].
    + now rewrite Hl.
    + unfold from_parsed_intro. rewrite Hp.
      destruct (looks_serialized i); reflexivity.
  - intros fields i secs inner -> Hi Hs Hl Hp Hfalsy.
    rewrite (well_shaped_any_depth _ _ i (well_shaped_object _ _ _ Hi Hs)).
    rewrite Hl. unfold from_parsed_intro. rewrite Hp. simpl.
    eexists. split; [reflexivity|]. simpl. unfold or. now rewrite Hfalsy.
  - intros c H. exact (typed_or_copied_depth _ _ _ H).
Qed.

End Terminating.

(** C5, as amended.  On an object with a string [intro] and an array
    [sections] whose [intro] starts with a brace after trimming and parses
    to an object, each field of the result is the parsed object's field
    when that is truthy; when it is missing or falsy (the empty string,
    [null], zero, [false]) it is the outer value: the outer [intro] text,
    the outer [sections], and the outer [mermaid] when truthy, the empty
    string otherwise.  In particular, when the [intro] is the text of the
    example and the outer object has no truthy [mermaid], the result is
    [intro: real intro], [sections: []], [mermaid:] the empty string. *)
Theorem parseContentSafely_parsed_intro (fields : list (string * value))
        (i : string) (secs : list value) (inner : list (string * value)) :
  lookup "intro" fields = VStr i ->
  lookup "sections" fields = VArr secs ->
  looks_serialized i = true ->
  JSON_parse i = Some (VObj inner) ->
  exists c,
    parseContentSafely JSON_parse (VObj fields) = Some c
    /\ (truthy (lookup "intro" inner) = true ->
        intro c = lookup "intro" inner)
    /\ (truthy (lookup "intro" inner) = false -> intro c = VStr i)
    /\ (truthy (lookup "sections" inner) = true ->
        sections c = lookup "sections" inner)
    /\ (truthy (lookup "sections" inner) = false -> sections c = VArr secs)
    /\ (truthy (lookup "mermaid" inner) = true ->
        mermaid c = lookup "mermaid" inner)
    /\ (truthy (lookup "mermaid" inner) = false ->
        truthy (lookup "mermaid" fields) = true ->
        mermaid c = lookup "mermaid" fields)
    /\ (truthy (lookup "mermaid" inner) = false ->
        truthy (lookup "mermaid" fields) = false ->
        mermaid c = VStr "")
    /\ (i = example_text ->
        inner = [("intro", VStr "real intro"); ("sections", VArr [])] ->
        truthy (lookup "mermaid" fields) = false ->
        c = {| intro := VStr "real intro"; sections := VArr [];
               mermaid := VStr "" |}).
Proof.
  intros Hi Hs Hl Hp. unfold parseContentSafely.
  rewrite (well_shaped_any_depth _ _ i (well_shaped_object _ _ _ Hi Hs)).
  rewrite Hl. unfold from_parsed_intro. rewrite Hp. simpl. rewrite Hs.
  eexists. split; [reflexivity|]. simpl. unfold or.
  repeat split; intros;
    subst; simpl;
    repeat match goal with
           | T : truthy ?v = _ |- context [truthy ?v] => rewrite T; simpl
           end;
    reflexivity.
Qed.

End WithParser.

(** With the model parser: a string that is not JSON, a number, and the
    example content serialized once more as a whole. *)
Definition example_content : value :=
  VObj [("intro", VStr "hello"); ("sections", VArr [])].

Definition example_content_text : string :=
  ("{" ++ Str.dq ++ "intro" ++ Str.dq ++ ":" ++ Str.dq ++ "hello" ++ Str.dq
   ++ "," ++ Str.dq ++ "sections" ++ Str.dq ++ ":[]}")%string.

Lemma parseContentSafely_total_witness :
  parseContentSafely Json.parse (VStr "not json") = Some empty_content
  /\ parseContentSafely Json.parse (VNum 7) = Some empty_content
  /\ parseContentSafely Json.parse (VStr example_content_text)
     = Some {| intro := VStr "hello"; sections := VArr [];
               mermaid := VStr "" |}.
Proof.
  split; [|split].
  - destruct (parseContentSafely_total Json.parse JsonSpec.parse_shrinks
                (VStr "not json")) as (_ & _ & Hbad & _).
    apply (Hbad "not json"); reflexivity.
  - destruct (parseContentSafely_total Json.parse JsonSpec.parse_shrinks
                (VNum 7)) as (_ & Hother & _).
    apply Hother; reflexivity.
  - destruct (parseContentSafely_total Json.parse JsonSpec.parse_shrinks
                (VStr example_content_text)) as (_ & _ & _ & Hstr & _).
    rewrite (Hstr example_content_text example_content eq_refl eq_refl).
    destruct (parseContentSafely_total Json.parse JsonSpec.parse_shrinks
                example_content) as (_ & _ & _ & _ & Hplain & _).
    apply (Hplain _ "hello" [] eq_refl eq_refl eq_refl).
    left. reflexivity.
Defined.

(** An [intro] that is the JSON text of an object without an [intro]; of
    an object whose [sections] is a string; of an object whose [intro] and
    [mermaid] are numbers. *)
Definition sections_only_text : string :=
  ("{" ++ Str.dq ++ "sections" ++ Str.dq ++ ":[]}")%string.

Definition string_sections_text : string :=
  ("{" ++ Str.dq ++ "intro" ++ Str.dq ++ ":" ++ Str.dq ++ "x" ++ Str.dq
   ++ "," ++ Str.dq ++ "sections" ++ Str.dq ++ ":" ++ Str.dq ++ "[]"
   ++ Str.dq ++ "}")%string.

Definition number_intro_text : string :=
  ("{" ++ Str.dq ++ "intro" ++ Str.dq ++ ":5," ++ Str.dq ++ "mermaid"
   ++ Str.dq ++ ":7}")%string.

(** C4 as stated fails on the shape, in each of its three parts.  When the
    [intro] parses to an object that has no [intro] of its own, the result
    keeps the outer [intro], which is the serialized object itself.  When
    it parses to an object whose [sections] is a string, or whose [intro]
    and [mermaid] are numbers, the result has that string as [sections],
    those numbers as [intro] and [mermaid].  And a [mermaid] of the object
    that is a number is returned as it is. *)
Lemma parseContentSafely_shape_not_guaranteed :
  (parseContentSafely Json.parse
     (VObj [("intro", VStr sections_only_text); ("sections", VArr [])])
   = Some {| intro := VStr sections_only_text; sections := VArr [];
             mermaid := VStr "" |}
   /\ looks_serialized sections_only_text = true
   /\ Json.parse sections_only_text = Some (VObj [("sections", VArr [])]))
  /\ (parseContentSafely Json.parse
        (VObj [("intro", VStr string_sections_text); ("sections", VArr [])])
      = Some {| intro := VStr "x"; sections := VStr "[]";
                mermaid := VStr "" |}
      /\ is_array (VStr "[]") = false)
  /\ (parseContentSafely Json.parse
        (VObj [("intro", VStr number_intro_text); ("sections", VArr [])])
      = Some {| intro := VNum 5; sections := VArr []; mermaid := VNum 7 |}
      /\ is_string (VNum 5) = false
      /\ is_string (VNum 7) = false)
  /\ (parseContentSafely Json.parse
        (VObj [("intro", VStr "a"); ("sections", VArr []);
               ("mermaid", VNum 5)])
      = Some {| intro := VStr "a"; sections := VArr []; mermaid := VNum 5 |}
      /\ is_string (VNum 5) = false).
Proof. repeat split. Qed.

Lemma parseContentSafely_parsed_intro_witness :
  parseContentSafely Json.parse
    (VObj [("intro", VStr example_text); ("sections", VArr [VStr "outer"])])
  = Some {| intro := VStr "real intro"; sections := VArr [];
            mermaid := VStr "" |}.
Proof.
  destruct (parseContentSafely_parsed_intro Json.parse
              [("intro", VStr example_text); ("sections", VArr [VStr "outer"])]
              example_text [VStr "outer"]
              [("intro", VStr "real intro"); ("sections", VArr [])]
              eq_refl eq_refl eq_refl eq_refl)
    as (c & Hc & _ & _ & _ & _ & _ & _ & _ & Hexample).
  rewrite Hc. f_equal. apply Hexample; reflexivity.
Defined.

(** An [intro] that is the JSON text of an object whose own [intro] is the
    empty string. *)
Definition empty_intro_text : string :=
  ("{" ++ Str.dq ++ "intro" ++ Str.dq ++ ":" ++ Str.dq ++ Str.dq ++ ","
   ++ Str.dq ++ "sections" ++ Str.dq ++ ":[]}")%string.

(** C5 as stated fails for a field that is present and falsy: the parsed
    object has an [intro], the empty string, and the result takes the outer
    [intro] instead of it. *)
Lemma parseContentSafely_falsy_field_uses_outer :
  Json.parse empty_intro_text
  = Some (VObj [("intro", VStr ""); ("sections", VArr [])])
  /\ has_key "intro" [("intro", VStr ""); ("sections", VArr [])] = true
  /\ parseContentSafely Json.parse
       (VObj [("intro", VStr empty_intro_text); ("sections", VArr [])])
     = Some {| intro := VStr empty_intro_text; sections := VArr [];
               mermaid := VStr "" |}
  /\ VStr empty_intro_text <> VStr "".
Proof. repeat split. discriminate. Qed.

End PayloadSpec.

(** ** [prepareChart] *)

Module ChartSpec.
Import Chart.

(** *** Greedy runs *)

Definition stops (p : ascii -> bool) (l : list ascii) : Prop :=
  match l with
  | [] => True
  | c :: _ => p c = false
  end.

Lemma span_spec (p : ascii -> bool) (l a b : list ascii) :
  span p l = (a, b) ->
  l = a ++ b /\ forallb p a = true /\ stops p b.
Proof.
  revert a b. induction l as [|c t IH]; simpl; intros a b H.
  - inversion H. subst. simpl. auto.
  - destruct (p c) eqn:E.
    + destruct (span p t) as [a' b'] eqn:S. inversion H. subst.
      destruct (IH a' b eq_refl) as (-> & Ha & Hb).
      simpl. rewrite E. auto.
    + inversion H. subst. simpl. auto.
Qed.

Lemma span_app (p : ascii -> bool) (a b : list ascii) :
  forallb p a = true -> stops p b -> span p (a ++ b) = (a, b).
Proof.
  intros Ha Hb. induction a as [|c a IH]; simpl.
  - destruct b as [|c t]; simpl; [reflexivity|]. simpl in Hb. now rewrite Hb.
  - simpl in Ha. apply andb_true_iff in Ha as [Hc Ha].
    now rewrite Hc, (IH Ha).
Qed.

Lemma span_length (p : ascii -> bool) (l a b : list ascii) :
  span p l = (a, b) -> List.length l = List.length a + List.length b.
Proof.
  intros H. apply span_spec in H as (-> & _ & _). apply length_app.
Qed.

(** *** One match *)

(** What follows the node id in a match: a bracket, a non-empty label and
    a closing bracket. *)
Definition match_tail (w r1 : list ascii) : option Match :=
  match r1 with
  | o :: r2 =>
      if is_open o then
        match span is_label r2 with
        | ((_ :: _) as lab, c :: r3) =>
            Some {| nodeId := w; openBracket := o; label := lab;
                    closeBracket := c; rest := r3 |}
        | _ => None
        end
      else None
  | [] => None
  end.

Lemma match_at_tail (l : list ascii) :
  match_at l
  = match span is_word l with
    | ((_ :: _) as w, r1) => match_tail w r1
    | ([], _) => None
    end.
Proof.
  unfold match_at, match_tail.
  destruct (span is_word l) as [[|x w] [|o r2]]; reflexivity.
Qed.



(** The text of a match, and the shape of its parts. *)
Record well_formed (m : Match) : Prop := {
  wf_id : nodeId m <> [];
  wf_id_word : forallb is_word (nodeId m) = true;
  wf_open : is_open (openBracket m) = true;
  wf_label : label m <> [];
  wf_label_class : forallb is_label (label m) = true;
  wf_close : is_close (closeBracket m) = true;
}.

Definition matched_text (m : Match) : list ascii :=
  nodeId m ++ openBracket m :: label m ++ closeBracket m :: rest m.

Lemma match_at_Some (l : list ascii) (m : Match) :
  match_at l = Some m -> l = matched_text m /\ well_formed m.
Proof.
  rewrite match_at_tail.
  destruct (span is_word l) as [[|x w] r1] eqn:Sw; [discriminate|].
  apply span_spec in Sw as (-> & Hw & _).
  unfold match_tail. destruct r1 as [|o r2]; [discriminate|].
  destruct (is_open o) eqn:Ho; [|discriminate].
  destruct (span is_label r2) as [[|y lab] [|c r3]] eqn:Sl; try discriminate.
  apply span_spec in Sl as (-> & Hl & Hc).
  intros [= <-]. split; [reflexivity|].
  constructor; simpl; try assumption; try discriminate.
  simpl in Hc. unfold is_label in Hc. now apply negb_false_iff in Hc.
Qed.


Lemma match_at_rest_length (l : list ascii) (m : Match) :
  match_at l = Some m -> List.length (rest m) < List.length l.
Proof.
  intros H. apply match_at_Some in H as [-> _]. unfold matched_text.
  rewrite length_app. simpl. rewrite length_app. simpl. lia.
Qed.

(** *** The global replace, without the step bound *)

Lemma quote_labels_fuel_enough (f1 : nat) :
  forall f2 l,
    List.length l < f1 -> List.length l < f2 ->
    quote_labels_fuel f1 l = quote_labels_fuel f2 l.
Proof.
  induction f1 as [|f1 IH]; intros f2 l H1 H2; [lia|].
  destruct f2 as [|f2]; [lia|]. simpl.
  destruct (match_at l) as [m|] eqn:M.
  - f_equal. pose proof (match_at_rest_length _ _ M). apply IH; lia.
  - destruct l as [|c t]; [reflexivity|]. simpl in *. f_equal. apply IH; lia.
Qed.

Lemma quote_labels_unfold (l : list ascii) :
  quote_labels l
  = match match_at l with
    | Some m => replacement m ++ quote_labels (rest m)
    | None =>
        match l with
        | [] => []
        | c :: t => c :: quote_labels t
        end
    end.
Proof.
  unfold quote_labels at 1. simpl.
  destruct (match_at l) as [m|] eqn:M.
  - f_equal. pose proof (match_at_rest_length _ _ M).
    apply quote_labels_fuel_enough; lia.
  - destruct l as [|c t]; [reflexivity|]. reflexivity.
Qed.



(** *** Where the scan finds no match *)

Lemma match_at_nil : match_at [] = None.
Proof. reflexivity. Qed.


Lemma quote_labels_nil : quote_labels [] = [].
Proof. reflexivity. Qed.




(** A text without a closing bracket holds no match. *)
Lemma quote_labels_no_close (l : list ascii) :
  forallb is_label l = true -> quote_labels l = l.
Proof.
  induction l as [|c t IH]; intros H; [reflexivity|].
  rewrite quote_labels_unfold.
  destruct (match_at (c :: t)) as [m|] eqn:M.
  - exfalso. apply match_at_Some in M as [E [_ _ _ _ _ Hc]].
    rewrite E in H. unfold matched_text in H.
    rewrite forallb_app in H. apply andb_true_iff in H as [_ H].
    simpl in H. apply andb_true_iff in H as [_ H].
    rewrite forallb_app in H. apply andb_true_iff in H as [_ H].
    simpl in H. unfold is_label at 1 in H. rewrite Hc in H. discriminate.
  - simpl in H. apply andb_true_iff in H as [_ H]. now rewrite (IH H).
Qed.





(** *** Trimmed texts *)






(** *** The replace only inserts double quotes *)

Inductive inserts : list ascii -> list ascii -> Prop :=
| inserts_nil : inserts [] []
| inserts_keep c l l' : inserts l l' -> inserts (c :: l) (c :: l')
| inserts_quote l l' : inserts l l' -> inserts l (Str.dquote :: l').

Lemma inserts_refl (l : list ascii) : inserts l l.
Proof. induction l; constructor; assumption. Qed.

Lemma inserts_app (a a' b b' : list ascii) :
  inserts a a' -> inserts b b' -> inserts (a ++ b) (a' ++ b').
Proof.
  intros Ha Hb. induction Ha; simpl; [assumption| |];
    constructor; assumption.
Qed.



Lemma replacement_inserts (m : Match) :
  inserts (nodeId m ++ openBracket m :: label m ++ [closeBracket m])
          (replacement m).
Proof.
  unfold replacement.
  destruct (quote_wrapped (label m)); [apply inserts_refl|].
  destruct (has_special (label m)); [|apply inserts_refl].
  apply inserts_app; [apply inserts_refl|].
  apply inserts_keep, inserts_quote.
  apply inserts_app; [apply inserts_refl|].
  apply inserts_quote, inserts_refl.
Qed.

Lemma quote_labels_inserts (n : nat) :
  forall l, List.length l <= n -> inserts l (quote_labels l).
Proof.
  induction n as [|n IH]; intros l Hn.
  - destruct l; [constructor|simpl in Hn; lia].
  - rewrite quote_labels_unfold.
    destruct (match_at l) as [m|] eqn:M.
    + pose proof (match_at_rest_length _ _ M) as Hr.
      apply match_at_Some in M as [E _].
      rewrite E at 1. unfold matched_text.
      replace (nodeId m ++ openBracket m :: label m ++ closeBracket m :: rest m)
        with ((nodeId m ++ openBracket m :: label m ++ [closeBracket m])
                ++ rest m).
      * apply inserts_app; [apply replacement_inserts|]. apply IH. lia.
      * rewrite <- app_assoc. simpl. rewrite <- app_assoc. reflexivity.
    + destruct l as [|c t]; [constructor|].
      constructor. apply IH. simpl in Hn. lia.
Qed.


(** *** Backslash-n pairs *)

Fixpoint has_escape (l : list ascii) : bool :=
  match l with
  | c :: t =>
      match t with
      | d :: _ => (Ascii.eqb c "\" && Ascii.eqb d "n") || has_escape t
      | [] => false
      end
  | [] => false
  end.


Definition starts_with_n (l : list ascii) : bool :=
  match l with
  | d :: _ => Ascii.eqb d "n"
  | [] => false
  end.

Lemma has_escape_cons (c : ascii) (t : list ascii) :
  has_escape (c :: t) = (Ascii.eqb c "\" && starts_with_n t) || has_escape t.
Proof.
  destruct t as [|d t']; simpl; [now rewrite andb_false_r|reflexivity].
Qed.

(** The output of the unescaping holds no backslash-n pair. *)
Lemma unescape_no_escape (n : nat) :
  forall l, List.length l <= n ->
    has_escape (unescape_newlines l) = false
    /\ (starts_with_n (unescape_newlines l) = true -> starts_with_n l = true).
Proof.
  induction n as [|n IH]; intros l Hn.
  - destruct l; [split; [reflexivity|discriminate]|simpl in Hn; lia].
  - destruct l as [|c t]; [split; [reflexivity|discriminate]|].
    destruct t as [|d t']; [split; [reflexivity|auto]|].
    change (unescape_newlines (c :: d :: t'))
      with (if Ascii.eqb c "\" && Ascii.eqb d "n"
            then newline :: unescape_newlines t'
            else c :: unescape_newlines (d :: t')).
    simpl in Hn.
    destruct (Ascii.eqb c "\" && Ascii.eqb d "n") eqn:E.
    + destruct (IH t' ltac:(lia)) as [H1 _]. split.
      * rewrite has_escape_cons, H1. reflexivity.
      * discriminate.
    + destruct (IH (d :: t') ltac:(simpl; lia)) as [H1 H2]. split.
      * rewrite has_escape_cons, H1, orb_false_r.
        destruct (Ascii.eqb c "\") eqn:Ec; [|reflexivity].
        rewrite andb_true_l in *.
        apply not_true_is_false. intros Es. apply H2 in Es.
        simpl in Es. congruence.
      * simpl. auto.
Qed.

Lemma inserts_starts_with_n (l l' : list ascii) :
  inserts l l' -> starts_with_n l' = true -> starts_with_n l = true.
Proof. induction 1; simpl; auto. discriminate. Qed.

Lemma inserts_no_escape (l l' : list ascii) :
  inserts l l' -> has_escape l = false -> has_escape l' = false.
Proof.
  induction 1 as [|c l l' Hi IH|l l' Hi IH]; intros H.
  - reflexivity.
  - rewrite has_escape_cons in *. apply orb_false_iff in H as [H1 H2].
    rewrite (IH H2), orb_false_r.
    destruct (Ascii.eqb c "\"); [|reflexivity]. simpl in *.
    destruct (starts_with_n l') eqn:E; [|reflexivity].
    now rewrite (inserts_starts_with_n _ _ Hi E) in H1.
  - rewrite has_escape_cons, (IH H). reflexivity.
Qed.

(** *** A replaced match is matched again, and left as it is *)








(** *** [prepareChart] *)






End ChartSpec.

(** ** The engine singleton and the deferred render *)

Module EngineSpec.
Import Engine.

Section WithRenderer.

Variable render_svg : string -> option string.

(** [mermaid.initialize] has been called once when the flag is set, and
    not at all before. *)
Definition initialized_once (g : Globals) : Prop :=
  initialize_calls g = if mermaidInitialized g then 1 else 0.

Lemma finish_load_once (g : Globals) (c : Component) :
  initialized_once g -> initialized_once (fst (finish_load g c)).
Proof.
  unfold initialized_once, finish_load. simpl.
  destruct (mermaidInitialized g); simpl; intros H; [assumption|].
  now rewrite H.
Qed.

Lemma load_effect_once (g : Globals) (c : Component) :
  initialized_once g -> initialized_once (fst (load_effect g c)).
Proof.
  intros H. unfold load_effect.
  destruct (mermaidInitialized g && mermaidModule g); [exact H|].
  destruct (mermaidModule g); [now apply finish_load_once|exact H].
Qed.

Lemma step_once (s : System) (e : Event) :
  initialized_once (globals s) ->
  initialized_once (globals (step render_svg s e)).
Proof.
  intros H. destruct e as [source|i|i source|i|i]; cbn [step].
  - pose proof (load_effect_once (globals s) (mounted source) H) as H'.
    destruct (load_effect (globals s) (mounted source)) as [g c]. exact H'.
  - destruct (nth_error (components s) i) as [c|]; [|exact H].
    destruct (awaiting_import c); [|exact H].
    pose proof (finish_load_once (globals s) c H) as H'.
    destruct (finish_load (globals s) c) as [g c']. exact H'.
  - destruct (nth_error (components s) i) as [c|]; [|exact H].
    destruct (String.eqb source (chart c)); exact H.
  - exact H.
  - destruct (nth_error (components s) i) as [c|]; [|exact H].
    destruct (timer c); exact H.
Qed.

Lemma run_once (events : list Event) :
  forall s,
    initialized_once (globals s) ->
    initialized_once (globals (run render_svg s events)).
Proof.
  unfold run. induction events as [|e events IH]; intros s H; simpl.
  - exact H.
  - apply IH. now apply step_once.
Qed.

(** The engine is initialized at most once, whatever happens. *)
Lemma initialize_at_most_once (events : list Event) :
  initialize_calls (globals (run render_svg fresh events)) <= 1.
Proof.
  pose proof (run_once events fresh eq_refl) as H.
  unfold initialized_once in H. rewrite H.
  destruct (mermaidInitialized _); lia.
Qed.

(** The first component of a fresh page, after its import has resolved. *)
Definition after_first_load (source : string) : System :=
  run render_svg fresh [Mount source; ImportResolved 0].

(** Events that change neither the chart of a component nor the set of
    components. *)
Definition passive (e : Event) : bool :=
  match e with
  | Mount _ | SetChart _ _ => false
  | ImportResolved _ | Rerender _ | TimerFired _ => true
  end.

Lemma after_first_load_state (source : string) :
  String.eqb source "" = false ->
  after_first_load source
  = {| globals := {| mermaidInitialized := true; mermaidModule := true;
                     import_calls := 1; initialize_calls := 1 |};
       components :=
         [ {| chart := source; svg := ""; isError := false;
              isLoading := false; awaiting_import := false;
              timer := None; render_calls := [] |} ] |}.
Proof.
  intros H. unfold after_first_load, run. simpl.
  unfold render_effect. simpl. rewrite H. reflexivity.
Qed.

Lemma passive_step_idle (source : string) (e : Event) :
  String.eqb source "" = false ->
  passive e = true ->
  step render_svg (after_first_load source) e = after_first_load source.
Proof.
  intros H P. rewrite (after_first_load_state source H).
  destruct e as [s|i|i s|i|i]; try discriminate; simpl.
  - destruct i as [|[|i]]; reflexivity.
  - reflexivity.
  - destruct i as [|[|i]]; reflexivity.
Qed.

Lemma passive_run_idle (source : string) (events : list Event) :
  String.eqb source "" = false ->
  forallb passive events = true ->
  run render_svg (after_first_load source) events = after_first_load source.
Proof.
  intros H. unfold run.
  induction events as [|e events IH]; simpl; [reflexivity|].
  intros P. apply andb_true_iff in P as [Pe P].
  rewrite (passive_step_idle source e H Pe). now apply IH.
Qed.

(** C8 on the code.  The engine is initialized at most once over any
    sequence of mounts and completions.  But a chart given to the first
    component of a page, mounted while the engine is not initialized, is
    never rendered: the render effect returns without arming its timer,
    and it depends on [chart] alone, so the completion of the import does
    not run it again.  After the import the component is neither loading
    nor in error and has no markup: it renders nothing, has made no call to
    [mermaid.render], and stays so under every further completion, timer
    tick and re-render.  A component mounted afterwards with the same chart
    does render it. *)
Theorem render_before_initialization_is_dropped (source : string) :
  String.eqb source "" = false ->
  (forall events,
     initialize_calls (globals (run render_svg fresh events)) <= 1)
  /\ mermaidInitialized (globals (after_first_load source)) = true
  /\ map view (components (after_first_load source)) = [Nothing]
  /\ map render_calls (components (after_first_load source)) = [[]]
  /\ map timer (components (after_first_load source)) = [None]
  /\ (forall events,
        forallb passive events = true ->
        run render_svg (after_first_load source) events
        = after_first_load source)
  /\ map render_calls
       (components
          (run render_svg (after_first_load source)
               [Mount source; TimerFired 1]))
     = [[]; [Chart.prepareChart source]].
Proof.
  intros H.
  split; [apply initialize_at_most_once|].
  split; [now rewrite after_first_load_state|].
  split; [now rewrite after_first_load_state|].
  split; [now rewrite after_first_load_state|].
  split; [now rewrite after_first_load_state|].
  split; [intros events; now apply passive_run_idle|].
  rewrite (after_first_load_state source H). unfold run. simpl.
  unfold render_effect. simpl. rewrite H. simpl.
  unfold renderChart. destruct (render_svg _); reflexivity.
Qed.

End WithRenderer.

(** A renderer that accepts every source. *)
Definition accepts_all (source : string) : option string :=
  Some ("<svg>" ++ source ++ "</svg>")%string.

Lemma render_before_initialization_is_dropped_witness :
  map view (components (after_first_load accepts_all "graph TD; A-->B"))
  = [Nothing]
  /\ map view
       (components
          (run accepts_all (after_first_load accepts_all "graph TD; A-->B")
               [Rerender 0; TimerFired 0; ImportResolved 0; Rerender 0]))
     = [Nothing].
Proof.
  destruct (render_before_initialization_is_dropped accepts_all
              "graph TD; A-->B" eq_refl)
    as (_ & _ & Hview & _ & _ & Hidle & _).
  split; [exact Hview|].
  rewrite (Hidle [Rerender 0; TimerFired 0; ImportResolved 0; Rerender 0]
                 eq_refl).
  exact Hview.
Defined.

End EngineSpec.

(* ================================================================== *)
(** * Further properties *)
(* ================================================================== *)

(** ** The tree functions and the two lookups *)

Module ViewerMore.
Import Viewer ViewerSpec.

(** X1.  [findItemById] returns the first item of the depth-first order that
    has the id, and nothing exactly when no item of the tree has it. *)
Theorem findItemById_first_in_depth_first_order
        (items : list WikiStructureItem) (wanted : string) :
  (findItemById items wanted = None <->
     forall item, In item (flattenStructure items) -> id item <> wanted)
  /\ (forall found,
        findItemById items wanted = Some found ->
        id found = wanted
        /\ exists before after,
             flattenStructure items = before ++ found :: after
             /\ forall item, In item before -> id item <> wanted).
Proof.
  rewrite findItemById_find. split.
  - rewrite <- position_find. apply position_None_absent.
  - intros found H. split.
    + apply find_some in H as [_ H]. unfold has_id in H.
      now apply String.eqb_eq.
    + destruct (find_split _ _ _ H) as (before & after & E & Hb).
      exists before, after. split; [exact E|].
      intros item Hin. apply String.eqb_neq. exact (Hb item Hin).
Qed.

(** The lookup by position, in terms of the first position of the id. *)
Lemma lookup_by_index_at_position (structure : list WikiStructureItem)
      (contentUrls : list string) (selectedId : string) (k : nat)
      (url : string) :
  position selectedId (flattenStructure structure) = Some k ->
  nth_error contentUrls k = Some url ->
  lookup_by_index structure contentUrls selectedId = inl url.
Proof.
  intros Hk Hu. unfold lookup_by_index. rewrite findItemById_find.
  destruct (find (has_id selectedId) (flattenStructure structure)) eqn:F.
  - unfold findIndex. rewrite findIndex_from_position, Hk, Z.add_0_l.
    assert (Hlt : k < List.length contentUrls)
      by (apply nth_error_Some; congruence).
    replace (Z.of_nat k =? -1)%Z with false
      by (symmetry; apply Z.eqb_neq; lia).
    replace (Z.of_nat (List.length contentUrls) <=? Z.of_nat k)%Z
      with false by (symmetry; apply Z.leb_gt; lia).
    simpl. now rewrite Nat2Z.id, Hu.
  - apply position_find in F. congruence.
Qed.

Lemma position_of_distinct (flat : list WikiStructureItem) (k : nat)
      (item : WikiStructureItem) :
  NoDup (map id flat) ->
  nth_error flat k = Some item ->
  position (id item) flat = Some k.
Proof.
  revert k. induction flat as [|x flat IH]; intros k Hd Hn.
  - destruct k; discriminate.
  - simpl in Hd. inversion Hd as [|? ? Hnotin Hd']. subst.
    destruct k as [|k]; simpl in *.
    + inversion Hn. subst. now rewrite String.eqb_refl.
    + destruct (String.eqb (id x) (id item)) eqn:E.
      * apply String.eqb_eq in E. exfalso. apply Hnotin. rewrite E.
        apply in_map. now apply nth_error_In in Hn.
      * now rewrite (IH k Hd' Hn).
Qed.

(** X2.  The positional lookup binds the first node of the tree to the first
    URL of the list; and when the ids of the tree are pairwise distinct it
    binds every node to the URL at the node's own depth-first position. *)
Theorem lookup_by_index_binds_by_position :
  (forall item rest url urls,
     lookup_by_index (item :: rest) (url :: urls) (id item) = inl url)
  /\ (forall structure contentUrls k item url,
        NoDup (map id (flattenStructure structure)) ->
        nth_error (flattenStructure structure) k = Some item ->
        nth_error contentUrls k = Some url ->
        lookup_by_index structure contentUrls (id item) = inl url).
Proof.
  split.
  - intros item rest url urls.
    apply (lookup_by_index_at_position _ _ _ 0); [|reflexivity].
    destruct item as [i t f [cs|]]; simpl; now rewrite String.eqb_refl.
  - intros structure contentUrls k item url Hd Hn Hu.
    apply (lookup_by_index_at_position _ _ _ k); [|exact Hu].
    now apply position_of_distinct.
Qed.

Lemma lookup_by_index_binds_by_position_witness :
  lookup_by_index sample_tree
                  ["https://h/p/1.json"; "https://h/p/2.json";
                   "https://h/p/3.json"] "c"
  = inl "https://h/p/3.json".
Proof.
  destruct lookup_by_index_binds_by_position as [_ H].
  apply (H sample_tree _ 2 (mkItem "c" "C" None None)).
  - repeat constructor; simpl; intuition discriminate.
  - reflexivity.
  - reflexivity.
Defined.

Section Selections.

Variable pathname : string -> option string.
Variable request : string -> option string.
Variable contentUrls : list string.

Lemma select_by_name_keeps (st : State) (target : string) :
  structure (select pathname request contentUrls ByName st target)
  = structure st
  /\ loading (select pathname request contentUrls ByName st target)
     = loading st
  /\ error (select pathname request contentUrls ByName st target)
     = error st.
Proof.
  unfold select. destruct (render st); auto.
  unfold fetchPage_effect. cbn [selectedId structure].
  destruct (String.eqb target "" || _ || _); auto.
  destruct (lookup pathname contentUrls ByName _ target) as [url|message];
    [destruct (request url)|]; simpl; auto.
Qed.

(** X3.  In the revision that matches by file name, no selection sets the
    component's error: whatever pages fail to resolve or to load, a viewer
    that shows the sidebar keeps showing it, with the same tree. *)
Theorem select_by_name_keeps_sidebar (targets : list string) :
  forall st sidebar page,
    render st = Browser sidebar page ->
    exists page',
      render (fold_left (select pathname request contentUrls ByName)
                        targets st)
      = Browser sidebar page'.
Proof.
  induction targets as [|t targets IH]; intros st sidebar page H; simpl.
  - now exists page.
  - destruct (select_by_name_keeps st t) as (Hs & Hl & He).
    assert (exists p,
      render (select pathname request contentUrls ByName st t)
      = Browser sidebar p) as [p Hp].
    { unfold render in *. rewrite Hs, Hl, He.
      destruct (loading st && _); [discriminate|].
      destruct (error st) as [m|].
      - destruct (String.eqb m ""); [|discriminate].
        inversion H. eauto.
      - inversion H. eauto. }
    exact (IH _ sidebar p Hp).
Qed.

(** A text without a slash. *)
Fixpoint no_slash (s : string) : bool :=
  match s with
  | EmptyString => true
  | String c t => negb (Ascii.eqb c "/") && no_slash t
  end.

Lemma last_segment_from_no_slash (s : string) :
  forall acc,
    no_slash (Str.last_segment_from acc s) = true
    \/ (Str.last_segment_from acc s = acc /\ no_slash s = true).
Proof.
  induction s as [|c t IH]; intros acc; simpl.
  - right. split; reflexivity.
  - destruct (Ascii.eqb c "/") eqn:E; simpl.
    + left. destruct (IH t) as [H|[H1 H2]]; [exact H|now rewrite H1].
    + destruct (IH acc) as [H|[H1 H2]]; [now left|now right].
Qed.

Lemma last_segment_no_slash (s : string) :
  no_slash (Str.last_segment s) = true.
Proof.
  unfold Str.last_segment.
  destruct (last_segment_from_no_slash s s) as [H|[H1 H2]];
    [exact H|now rewrite H1].
Qed.

(** X4.  [extractFilename] never returns an empty name, and the name it returns
    holds no slash. *)
Theorem extractFilename_is_a_name (url name : string) :
  extractFilename pathname url = Some name ->
  name <> "" /\ no_slash name = true.
Proof.
  unfold extractFilename.
  destruct (String.eqb url ""); [discriminate|].
  destruct (pathname url) as [path|].
  - destruct (String.eqb (Str.last_segment path) "") eqn:E; [discriminate|].
    intros [= <-]. split; [now apply String.eqb_neq|].
    apply last_segment_no_slash.
  - destruct (String.eqb (Str.last_segment url) "") eqn:E; [discriminate|].
    intros [= <-]. split; [now apply String.eqb_neq|].
    apply last_segment_no_slash.
Qed.

End Selections.

Lemma select_by_name_keeps_sidebar_witness :
  exists page',
    render (fold_left
              (select url_pathname every_request_succeeds one_url ByName)
              ["b"; "zzz"; "a"; "b"] showing_a)
    = Browser two_pages page'.
Proof.
  exact (select_by_name_keeps_sidebar url_pathname every_request_succeeds
           one_url ["b"; "zzz"; "a"; "b"] showing_a two_pages
           (Some "page at https://h/p/a.json") eq_refl).
Defined.

Lemma extractFilename_is_a_name_witness :
  "infrastructure.json" <> ""
  /\ no_slash "infrastructure.json" = true.
Proof.
  exact (extractFilename_is_a_name url_pathname
           "https://h/Folo/20260127/sections/infrastructure.json"
           "infrastructure.json" eq_refl).
Defined.

End ViewerMore.

(** ** The structure normalizer, beyond the derivation of ids *)

Module StructureMore.
Import JS Structure StructureSpec.

Section WithPrinter.

Variable Number_toString : Z -> string.

Lemma truthy_or_right (a b : value) : truthy b = true -> truthy (or a b) = true.
Proof. intros H. unfold or. destruct (truthy a) eqn:E; assumption. Qed.

Lemma append_json_nonempty (s : string) : String.eqb (s ++ ".json") "" = false.
Proof. destruct s; reflexivity. Qed.

Lemma normalizeItem_truthy (item : value) (o : Item) :
  normalizeItem Number_toString item = Some o ->
  truthy (id o) = true /\ truthy (title o) = true /\ truthy (filename o) = true.
Proof.
  unfold normalizeItem. intros H.
  destruct (get item "id") as [item_id|]; [|discriminate].
  destruct (get item "section_id") as [section_id|]; [|discriminate].
  destruct (get item "filename") as [item_filename|]; [|discriminate].
  destruct (get item "title") as [item_title|]; [|discriminate].
  destruct (get item "name") as [item_name|]; [|discriminate].
  destruct (get item "children") as [item_children|]; [|discriminate].
  destruct (derive_id item_id section_id item_filename) as [id'|] eqn:Hid;
    [|discriminate].
  destruct (derive_filename Number_toString item_filename id')
    as [filename'|] eqn:Hfn; [|discriminate].
  inversion H. subst o. simpl. clear H.
  split; [|split].
  - unfold derive_id in Hid.
    destruct (truthy item_id) eqn:T1; [now inversion Hid; subst|].
    destruct (truthy section_id) eqn:T2; [now inversion Hid; subst|].
    destruct item_filename; inversion Hid; subst; try reflexivity.
    now apply truthy_or_right.
  - now apply truthy_or_right.
  - unfold derive_filename in Hfn.
    destruct (truthy item_filename) eqn:T; [now inversion Hfn; subst|].
    destruct (toString Number_toString id') as [s|]; [|discriminate].
    inversion Hfn. simpl. now rewrite append_json_nonempty.
Qed.

Lemma sequence_In {A} (l : list (option A)) (out : list A) (o : A) :
  sequence l = Some out -> In o out -> In (Some o) l.
Proof.
  intros H Hin. apply In_nth_error in Hin as [n Hn].
  apply (nth_error_In l n). exact (sequence_nth l out n o H Hn).
Qed.

(** X5.  Whatever the response body, when [fetchStructure] produces a
    structure every element of it has a truthy id, a truthy title and a
    truthy filename: the sidebar never gets an entry without a key or a
    label, and the default selection is never empty. *)
Theorem fetchStructure_items_are_labelled (data : value) (out : list Item) :
  fetchStructure Number_toString data = Some out ->
  forall o, In o out ->
    truthy (id o) = true /\ truthy (title o) = true
    /\ truthy (filename o) = true.
Proof.
  unfold fetchStructure, normalize.
  destruct (node_list data) as [items|]; [|discriminate].
  intros H o Hin. pose proof (sequence_In _ _ _ H Hin) as Hs.
  apply in_map_iff in Hs as (item & Hitem & _).
  exact (normalizeItem_truthy item o Hitem).
Qed.

(** *** A body that is a flat mapping *)

(** The node that the mapping entry [key: v] ends as. *)
Definition flat_node (key : string) (v : value) : Item :=
  {| id := VStr key;
     title :=
       match v with
       | VStr _ => or v (VStr "Untitled")
       | VObj fields => or (lookup "title" fields) (VStr key)
       | _ => VStr key
       end;
     filename := VStr (key ++ ".json");
     children := VUndefined |}.

Definition usable_entry (kv : string * value) : Prop :=
  fst kv <> ""
  /\ snd kv <> VNull /\ snd kv <> VUndefined.

Lemma or_undefined (a b : value) : or (or a VUndefined) b = or a b.
Proof. unfold or. destruct (truthy a) eqn:E; simpl; now rewrite ?E. Qed.

Lemma or_truthy (a b : value) : truthy a = true -> or a b = a.
Proof. intros H. unfold or. now rewrite H. Qed.

Lemma normalizeItem_keyed (key : string) (t : value) :
  key <> "" ->
  normalizeItem Number_toString (VObj [("id", VStr key); ("title", t)])
  = Some {| id := VStr key; title := or t (VStr "Untitled");
            filename := VStr (key ++ ".json"); children := VUndefined |}.
Proof.
  intros Hk. apply String.eqb_neq in Hk.
  unfold normalizeItem, derive_id, derive_filename. simpl.
  rewrite Hk. simpl. now rewrite or_undefined.
Qed.

Lemma flat_entry (key : string) (v : value) :
  usable_entry (key, v) ->
  exists node,
    keyed_node key v = Some node
    /\ normalizeItem Number_toString node = Some (flat_node key v).
Proof.
  intros (Hk & Hn & Hu). simpl in *.
  assert (Tk : truthy (VStr key) = true)
    by (simpl; apply negb_true_iff; now apply String.eqb_neq).
  destruct v as [| |b|z|s|l|fs]; try contradiction; simpl;
    eexists; (split; [reflexivity|]);
    rewrite (normalizeItem_keyed key _ Hk); unfold flat_node; f_equal;
    f_equal.
  - now rewrite (or_truthy (or VUndefined (VStr key))).
  - now rewrite (or_truthy (or VUndefined (VStr key))).
  - now rewrite (or_truthy (or VUndefined (VStr key))).
  - apply or_truthy. now apply truthy_or_right.
Qed.

Lemma flat_nodes (fields : list (string * value)) :
  Forall usable_entry fields ->
  exists nodes,
    sequence (map (fun kv => keyed_node (fst kv) (snd kv)) fields) = Some nodes
    /\ normalize Number_toString nodes
       = Some (map (fun kv => flat_node (fst kv) (snd kv)) fields).
Proof.
  unfold normalize.
  induction 1 as [|[key v] rest Hkv _ (nodes & Hnodes & Hnorm)]; simpl.
  - now exists [].
  - destruct (flat_entry key v Hkv) as (node & Hnode & Hitem).
    exists (node :: nodes). rewrite Hnode, Hnodes. simpl.
    now rewrite Hitem, Hnorm.
Qed.

(** X6.  When the body is an object without a [toc] or [pages] array, the
    structure has one node per key, in the order of the keys: the key is
    the id, the filename is the key followed by [.json], and the title is
    the value when it is a non-empty string, the value's [title] when it is
    an object with a truthy one, and otherwise [Untitled] for a string and
    the key for anything else.  This holds for keys that are not empty and
    values that are not [null]. *)
Theorem fetchStructure_flat_mapping (fields : list (string * value)) :
  is_array (lookup "toc" fields) = false ->
  is_array (lookup "pages" fields) = false ->
  Forall usable_entry fields ->
  fetchStructure Number_toString (VObj fields)
  = Some (map (fun kv => flat_node (fst kv) (snd kv)) fields).
Proof.
  intros Ht Hp Hall.
  destruct (flat_nodes fields Hall) as (nodes & Hnodes & Hnorm).
  unfold fetchStructure, node_list. simpl.
  destruct (lookup "toc" fields); try discriminate;
    destruct (lookup "pages" fields); try discriminate;
    rewrite Hnodes; exact Hnorm.
Qed.

(** *** When the structure loads and when it does not *)

Definition text_or_missing (v : value) : Prop :=
  v = VUndefined \/ exists s, v = VStr s.

(** A node as the backend is meant to send it: an object whose [id],
    [section_id] and [filename], when present, are strings. *)
Definition plain_node (item : value) : Prop :=
  exists fields,
    item = VObj fields
    /\ text_or_missing (lookup "id" fields)
    /\ text_or_missing (lookup "section_id" fields)
    /\ text_or_missing (lookup "filename" fields).

Lemma plain_node_normalizes (item : value) :
  plain_node item -> exists o, normalizeItem Number_toString item = Some o.
Proof.
  intros (fields & -> & Hi & Hs & Hf).
  unfold normalizeItem, derive_id, derive_filename. simpl.
  destruct Hi as [->|[i ->]], Hs as [->|[s ->]], Hf as [->|[f ->]]; simpl;
    unfold or at 1 2; simpl;
    repeat match goal with
           | |- context [if ?b then _ else _] => destruct b; simpl
           end; eauto.
Qed.

Lemma sequence_None {A} (l : list (option A)) :
  In None l -> sequence l = None.
Proof.
  induction l as [|[x|] l IH]; simpl; intros H.
  - contradiction.
  - destruct H as [H|H]; [discriminate|]. now rewrite IH.
  - reflexivity.
Qed.

(** X7.  A node list of plain nodes always normalizes, to as many elements.  A
    [null] entry anywhere in the node list makes the whole normalization
    throw, whatever the other entries are: the viewer then shows its
    structure error instead of the remaining nodes. *)
Theorem normalize_all_or_nothing (data : list value) :
  (Forall plain_node data ->
   exists out,
     normalize Number_toString data = Some out
     /\ List.length out = List.length data)
  /\ (In VNull data -> normalize Number_toString data = None).
Proof.
  split.
  - intros H.
    assert (exists out, normalize Number_toString data = Some out)
      as [out Hout].
    { unfold normalize. induction H as [|item rest Hitem _ [out IH]].
      - now exists [].
      - destruct (plain_node_normalizes item Hitem) as [o Ho].
        exists (o :: out). simpl. now rewrite Ho, IH. }
    exists out. split; [exact Hout|].
    unfold normalize in Hout. apply sequence_length in Hout.
    now rewrite length_map in Hout.
  - intros H. unfold normalize. apply sequence_None.
    change None with (normalizeItem Number_toString VNull). now apply in_map.
Qed.

End WithPrinter.

Lemma fetchStructure_items_are_labelled_witness :
  truthy (VStr "unknown") = true /\ truthy (VStr "Untitled") = true
  /\ truthy (VStr "unknown.json") = true.
Proof.
  exact (fetchStructure_items_are_labelled Str.of_Z
           (VObj [("pages", VArr [VNum 3])])
           [ {| id := VStr "unknown"; title := VStr "Untitled";
                filename := VStr "unknown.json"; children := VUndefined |} ]
           eq_refl _ (or_introl eq_refl)).
Defined.

Lemma fetchStructure_flat_mapping_witness :
  fetchStructure Str.of_Z
    (VObj [("x", VStr "X title"); ("y", VObj [("title", VStr "Y title")])])
  = Some [ {| id := VStr "x"; title := VStr "X title";
              filename := VStr "x.json"; children := VUndefined |};
           {| id := VStr "y"; title := VStr "Y title";
              filename := VStr "y.json"; children := VUndefined |} ].
Proof.
  apply (fetchStructure_flat_mapping Str.of_Z
           [("x", VStr "X title"); ("y", VObj [("title", VStr "Y title")])]);
    [reflexivity|reflexivity|].
  repeat constructor; simpl; discriminate.
Defined.

Lemma normalize_all_or_nothing_witness :
  (exists out,
     normalize Str.of_Z
       [VObj [("id", VStr "a")]; VObj [("filename", VStr "b.json")]]
     = Some out
     /\ List.length out = 2)
  /\ normalize Str.of_Z [VObj [("id", VStr "a")]; VNull] = None.
Proof.
  split.
  - apply (proj1 (normalize_all_or_nothing Str.of_Z
                    [VObj [("id", VStr "a")];
                     VObj [("filename", VStr "b.json")]])).
    repeat constructor;
      (eexists; split; [reflexivity|]);
      repeat split; simpl; unfold text_or_missing; eauto.
  - apply (proj2 (normalize_all_or_nothing Str.of_Z
                    [VObj [("id", VStr "a")]; VNull])).
    simpl. auto.
Defined.

End StructureMore.

(** ** [parseContentSafely], beyond one layer *)

Module PayloadMore.
Import JS Payload PayloadSpec.

(** Neither [null] nor [undefined]. *)
Definition present (v : value) : bool :=
  match v with
  | VUndefined | VNull => false
  | _ => true
  end.

Lemma truthy_present (v : value) : truthy v = true -> present v = true.
Proof. destruct v; simpl; congruence. Qed.

Lemma or_present (a b : value) : present b = true -> present (or a b) = true.
Proof.
  intros H. unfold or. destruct (truthy a) eqn:E; [|exact H].
  now apply truthy_present.
Qed.

Lemma or_truthy_right (a b : value) :
  truthy b = true -> truthy (or a b) = true.
Proof. intros H. unfold or. destruct (truthy a) eqn:E; assumption. Qed.

Section WithParser.

Variable JSON_parse : string -> option value.

Definition readable (c : Content) : Prop :=
  present (intro c) = true
  /\ truthy (sections c) = true
  /\ present (mermaid c) = true.

Lemma empty_content_readable : readable empty_content.
Proof. repeat split. Qed.

Lemma outer_content_readable (rawContent : value) (i : string) :
  readable (outer_content rawContent i).
Proof.
  unfold readable, outer_content. simpl.
  split; [reflexivity|]. split.
  - destruct (get rawContent "sections"); [|reflexivity].
    now apply or_truthy_right.
  - destruct (get rawContent "mermaid"); [|reflexivity].
    now apply or_present.
Qed.

Lemma from_parsed_intro_readable (rawContent : value) (i : string)
      (c : Content) :
  from_parsed_intro JSON_parse rawContent i = Some c -> readable c.
Proof.
  unfold from_parsed_intro.
  destruct (JSON_parse i) as [parsedIntro|]; [|discriminate].
  destruct (get parsedIntro "intro"); [|discriminate].
  destruct (get parsedIntro "sections"); [|discriminate].
  destruct (get parsedIntro "mermaid"); [|discriminate].
  destruct (get rawContent "sections"); [|discriminate].
  destruct (get rawContent "mermaid"); [|discriminate].
  intros [= <-]. unfold readable. simpl.
  split; [now apply or_present|].
  split; [now apply or_truthy_right|now apply or_present].
Qed.

Lemma parseContentSafely_depth_readable (depth : nat) :
  forall rawContent c,
    parseContentSafely_depth JSON_parse depth rawContent = Some c ->
    readable c.
Proof.
  induction depth as [|d IH]; intros rawContent c; simpl;
    (destruct (well_shaped rawContent) as [i|];
     [ destruct (looks_serialized i);
       [ destruct (from_parsed_intro JSON_parse rawContent i) as [c'|] eqn:F;
         intros [= <-];
         [exact (from_parsed_intro_readable _ _ _ F)
         |apply outer_content_readable]
       | intros [= <-]; apply outer_content_readable ]
     | destruct rawContent as [| |b|z|text|l|fs];
       try (intros [= <-]; apply empty_content_readable) ]).
  - destruct (JSON_parse text); [discriminate|].
    intros [= <-]. apply empty_content_readable.
  - destruct (JSON_parse text) as [parsed|]; [apply IH|].
    intros [= <-]. apply empty_content_readable.
Qed.

(** X8.  Whatever [parseContentSafely] returns can be read by the page without
    a null check: [intro] and [mermaid] are never [null] or [undefined],
    and [sections] is always truthy. *)
Theorem parseContentSafely_fields_present (rawContent : value) (c : Content) :
  parseContentSafely JSON_parse rawContent = Some c ->
  present (intro c) = true
  /\ truthy (sections c) = true
  /\ present (mermaid c) = true.
Proof. apply parseContentSafely_depth_readable. Qed.

(** [text] is a value serialized one or more times as a string. *)
Inductive serializes : string -> value -> Prop :=
| serializes_once text v :
    JSON_parse text = Some v -> serializes text v
| serializes_again text inner v :
    JSON_parse text = Some (VStr inner) ->
    serializes inner v ->
    serializes text v.

Hypothesis parse_shrinks :
  forall text s,
    JSON_parse text = Some (VStr s) -> String.length s < String.length text.

Lemma parseContentSafely_one_layer (text : string) (parsed : value) :
  JSON_parse text = Some parsed ->
  parseContentSafely JSON_parse (VStr text)
  = parseContentSafely JSON_parse parsed.
Proof.
  intros P. unfold parseContentSafely. simpl. rewrite P.
  apply (depth_irrelevant JSON_parse parse_shrinks).
  - now apply (layers_parsed JSON_parse parse_shrinks).
  - lia.
Qed.

(** X9.  Serializing a payload as a string any number of times changes nothing:
    the result on the text is the result on the value it stands for. *)
Theorem parseContentSafely_absorbs_layers (text : string) (v : value) :
  serializes text v ->
  parseContentSafely JSON_parse (VStr text) = parseContentSafely JSON_parse v.
Proof.
  induction 1 as [text v P|text inner v P _ IH].
  - now apply parseContentSafely_one_layer.
  - rewrite (parseContentSafely_one_layer text (VStr inner) P). exact IH.
Qed.

End WithParser.

(** The text of a JSON string literal for [s]: quotes around it, and a
    backslash before each quote and backslash in it. *)
Fixpoint escaped (s : string) : string :=
  match s with
  | EmptyString => EmptyString
  | String c t =>
      if Ascii.eqb c Str.dquote || Ascii.eqb c "\"
      then String "\" (String c (escaped t))
      else String c (escaped t)
  end.

Definition as_literal (s : string) : string :=
  (Str.dq ++ escaped s ++ Str.dq)%string.

Lemma parseContentSafely_fields_present_witness :
  present (VStr "real intro") = true
  /\ truthy (VArr []) = true
  /\ present (VStr "") = true.
Proof.
  exact (parseContentSafely_fields_present Json.parse
           (VObj [("intro", VStr example_text); ("sections", VArr [])])
           {| intro := VStr "real intro"; sections := VArr [];
              mermaid := VStr "" |}
           eq_refl).
Defined.

Lemma parseContentSafely_absorbs_layers_witness :
  parseContentSafely Json.parse
    (VStr (as_literal (as_literal example_content_text)))
  = parseContentSafely Json.parse example_content.
Proof.
  apply (parseContentSafely_absorbs_layers Json.parse JsonSpec.parse_shrinks).
  apply (serializes_again _ _ (as_literal example_content_text));
    [reflexivity|].
  apply (serializes_again _ _ example_content_text); [reflexivity|].
  apply serializes_once. reflexivity.
Defined.

End PayloadMore.

(** ** [prepareChart], beyond idempotence *)

Module ChartMore.
Import Chart ChartSpec.

Definition not_dquote (c : ascii) : bool := negb (Ascii.eqb c Str.dquote).

Lemma inserts_without_quotes (l l' : list ascii) :
  inserts l l' -> filter not_dquote l' = filter not_dquote l.
Proof.
  induction 1 as [|c l l' _ IH|l l' _ IH]; simpl.
  - reflexivity.
  - now rewrite IH.
  - exact IH.
Qed.

Lemma inserts_length (l l' : list ascii) :
  inserts l l' -> List.length l <= List.length l'.
Proof. induction 1; simpl; lia. Qed.

(** X10.  [prepareChart] adds double quotes and nothing else: with the double
    quotes left out, the prepared text is the trimmed source with its
    escaped newlines replaced; so no character of a diagram is dropped or
    changed, and the prepared text is never shorter than that. *)
Theorem prepareChart_only_adds_quotes (code : string) :
  filter not_dquote (list_ascii_of_string (prepareChart code))
  = filter not_dquote
      (unescape_newlines (Str.trim_l (list_ascii_of_string code)))
  /\ List.length (unescape_newlines (Str.trim_l (list_ascii_of_string code)))
     <= String.length (prepareChart code).
Proof.
  unfold prepareChart. rewrite list_ascii_of_string_of_list_ascii.
  rewrite JsonSpec.string_of_list_ascii_length. unfold prepare_l.
  pose proof (quote_labels_inserts _
                (unescape_newlines (Str.trim_l (list_ascii_of_string code)))
                (le_n _)) as H.
  split; [now apply inserts_without_quotes|now apply inserts_length].
Qed.

(** X11.  The prepared text holds no backslash followed by [n]: every escaped
    newline of the source has become a line feed, and wrapping labels
    brings none back. *)
Theorem prepareChart_leaves_no_escaped_newline (code : string) :
  has_escape (list_ascii_of_string (prepareChart code)) = false.
Proof.
  unfold prepareChart. rewrite list_ascii_of_string_of_list_ascii.
  unfold prepare_l.
  apply (inserts_no_escape
           (unescape_newlines (Str.trim_l (list_ascii_of_string code)))).
  - apply (quote_labels_inserts _ _ (le_n _)).
  - apply (unescape_no_escape _ _ (le_n _)).
Qed.

Lemma forallb_dropWhile (p q : ascii -> bool) (l : list ascii) :
  forallb p l = true -> forallb p (Str.dropWhile q l) = true.
Proof.
  induction l as [|c t IH]; simpl; [reflexivity|]. intros H.
  destruct (q c); [|exact H].
  apply andb_true_iff in H as [_ H]. now apply IH.
Qed.

Lemma forallb_rev (p : ascii -> bool) (l : list ascii) :
  forallb p l = true -> forallb p (rev l) = true.
Proof.
  rewrite !forallb_forall. intros H c Hc. apply H. now apply in_rev.
Qed.

Lemma forallb_trim (p : ascii -> bool) (l : list ascii) :
  forallb p l = true -> forallb p (Str.trim_l l) = true.
Proof.
  intros H. unfold Str.trim_l.
  now apply forallb_rev, forallb_dropWhile, forallb_rev, forallb_dropWhile.
Qed.

Lemma forallb_unescape (n : nat) :
  forall l, List.length l <= n ->
    forallb is_label l = true ->
    forallb is_label (unescape_newlines l) = true.
Proof.
  induction n as [|n IH]; intros l Hn H.
  - destruct l; [reflexivity|simpl in Hn; lia].
  - destruct l as [|c t]; [reflexivity|].
    destruct t as [|d t']; [exact H|].
    change (unescape_newlines (c :: d :: t'))
      with (if Ascii.eqb c "\" && Ascii.eqb d "n"
            then newline :: unescape_newlines t'
            else c :: unescape_newlines (d :: t')).
    simpl in Hn. simpl in H.
    apply andb_true_iff in H as [Hc H].
    destruct (Ascii.eqb c "\" && Ascii.eqb d "n").
    + simpl. apply IH; [lia|].
      now apply andb_true_iff in H as [_ H].
    + change (forallb is_label (c :: unescape_newlines (d :: t')))
        with (is_label c && forallb is_label (unescape_newlines (d :: t'))).
      rewrite Hc. apply IH; [simpl; lia|exact H].
Qed.

(** X12.  A source without a closing bracket, brace or parenthesis holds no
    label: preparing it only trims it and replaces its escaped newlines. *)
Theorem prepareChart_without_closing_bracket (code : string) :
  forallb is_label (list_ascii_of_string code) = true ->
  prepareChart code
  = string_of_list_ascii
      (unescape_newlines (Str.trim_l (list_ascii_of_string code))).
Proof.
  intros H. unfold prepareChart, prepare_l. f_equal.
  apply quote_labels_no_close.
  apply (forallb_unescape _ _ (le_n _)). now apply forallb_trim.
Qed.

Lemma prepareChart_without_closing_bracket_witness :
  prepareChart "  graph TD\nA --> B\nB --> C  "
  = string_of_list_ascii
      (unescape_newlines
         (Str.trim_l (list_ascii_of_string "  graph TD\nA --> B\nB --> C  "))).
Proof.
  apply prepareChart_without_closing_bracket. reflexivity.
Defined.

End ChartMore.

(** ** The render timer *)

Module EngineMore.
Import Engine.

Section WithRenderer.

Variable render_svg : string -> option string.











(** How a component renders, or fails, by what the engine answers. *)
Definition outcome (source : string) : View :=
  match render_svg (Chart.prepareChart source) with
  | Some markup => if String.eqb markup "" then Nothing else Diagram markup
  | None => Failed source
  end.

Lemma nth_error_last {A} (l : list A) (x : A) :
  nth_error (l ++ [x]) (List.length l) = Some x.
Proof. induction l; simpl; auto. Qed.

Lemma update_last {A} (l : list A) (x y : A) :
  update (l ++ [x]) (List.length l) y = l ++ [y].
Proof. induction l as [|z l IH]; simpl; [reflexivity|now rewrite IH]. Qed.

(** X14.  Once the engine is initialized, a component mounted with a non-empty
    chart renders it when its timer fires: one call of [mermaid.render],
    on the prepared chart.  If its chart is replaced before the timer
    fires, only the new chart is rendered. *)
Theorem mount_after_initialization_renders (s : System) (source : string) :
  mermaidInitialized (globals s) = true ->
  mermaidModule (globals s) = true ->
  String.eqb source "" = false ->
  (exists c,
     components
       (run render_svg s [Mount source; TimerFired (List.length (components s))])
     = components s ++ [c]
     /\ render_calls c = [Chart.prepareChart source]
     /\ view c = outcome source)
  /\ (forall newer,
        String.eqb newer "" = false ->
        String.eqb newer source = false ->
        exists c,
          components
            (run render_svg s
                 [Mount source;
                  SetChart (List.length (components s)) newer;
                  TimerFired (List.length (components s))])
          = components s ++ [c]
          /\ render_calls c = [Chart.prepareChart newer]
          /\ view c = outcome newer).
Proof.
  intros Hi Hm Hs.
  assert (Hmount :
    step render_svg s (Mount source)
    = {| globals := globals s;
         components :=
           components s
           ++ [ {| chart := source; svg := ""; isError := false;
                   isLoading := false; awaiting_import := false;
                   timer := Some source; render_calls := [] |} ] |}).
  { cbn [step]. unfold load_effect, render_effect. rewrite Hi, Hm. simpl.
    rewrite Hs, Hi, Hm. reflexivity. }
  split.
  - unfold run. cbn [fold_left]. rewrite Hmount. cbn [step globals components].
    rewrite nth_error_last. cbn [timer]. rewrite update_last.
    eexists. split; [reflexivity|].
    unfold renderChart, outcome, view.
    destruct (render_svg (Chart.prepareChart source)) as [markup|]; simpl;
      split; reflexivity.
  - intros newer Hn Hne. unfold run. cbn [fold_left]. rewrite Hmount.
    cbn [step globals components].
    rewrite nth_error_last. cbn [chart]. rewrite Hne.
    cbn [globals components]. rewrite update_last, nth_error_last.
    unfold render_effect. cbn [chart]. rewrite Hn, Hi, Hm. cbn [negb orb timer].
    rewrite update_last.
    eexists. split; [reflexivity|].
    unfold renderChart, outcome, view.
    destruct (render_svg (Chart.prepareChart newer)) as [markup|]; simpl;
      split; reflexivity.
Qed.

End WithRenderer.


Lemma mount_after_initialization_renders_witness :
  exists c,
    components
      (run EngineSpec.accepts_all
           (EngineSpec.after_first_load EngineSpec.accepts_all "graph TD; A-->B")
           [Mount "graph LR; B-->C"; TimerFired 1])
    = components
        (EngineSpec.after_first_load EngineSpec.accepts_all "graph TD; A-->B")
      ++ [c]
    /\ render_calls c = [Chart.prepareChart "graph LR; B-->C"]
    /\ view c = outcome EngineSpec.accepts_all "graph LR; B-->C".
Proof.
  exact (proj1 (mount_after_initialization_renders EngineSpec.accepts_all
                  (EngineSpec.after_first_load EngineSpec.accepts_all
                     "graph TD; A-->B")
                  "graph LR; B-->C" eq_refl eq_refl eq_refl)).
Defined.

End EngineMore.

(** ** The polling loop in time *)

Module PollMore.
Import Api Poll PollSpec.

Section Loop.

Variables session saved : option string.
Variable id : string.

Lemma requests_head (replies : list Reply) (now : Z) :
  exists tl, requests (watch session saved replies now id) = (now, id) :: tl.
Proof. destruct replies as [|r rest]; simpl; eauto. Qed.

(** What follows the first request of the loop. *)
Lemma requests_cons (r : Reply) (rest : list Reply) (now : Z) :
  requests (watch session saved (r :: rest) now id) = [(now, id)]
  \/ exists delay,
       (delay = short_delay \/ delay = long_delay)
       /\ requests (watch session saved (r :: rest) now id)
          = (now, id)
              :: requests (watch session saved rest (now + latency r + delay) id).
Proof.
  destruct (keeps_polling r) eqn:K.
  - right. destruct (watch_keeps_polling session saved id r rest now K)
      as (delay & Hd & Hr & _). eauto.
  - left. destruct (final_reply_terminal id r K) as (res & Hres & Ht).
    now rewrite (watch_terminal session saved id r rest now res Hres Ht).
Qed.

(** X15.  Polling is strictly sequential.  Each request after the first is made
    at least the short delay (2000 ms) after the completion of the request
    before it, so never while that one is outstanding; every request is for
    the task the loop was started with; and there is at most one request
    per reply, plus the one in flight. *)
Theorem polling_is_sequential (replies : list Reply) :
  forall now,
    (forall k t1 t2 r,
       nth_error (requests (watch session saved replies now id)) k
         = Some (t1, id) ->
       nth_error (requests (watch session saved replies now id)) (S k)
         = Some (t2, id) ->
       nth_error replies k = Some r ->
       (t1 + latency r + short_delay <= t2)%Z)
    /\ Forall (fun q => snd q = id)
         (requests (watch session saved replies now id))
    /\ List.length (requests (watch session saved replies now id))
       <= S (List.length replies).
Proof.
  induction replies as [|r rest IH]; intros now.
  - simpl. split; [|split; [repeat constructor|lia]].
    intros k t1 t2 r _ H. destruct k; discriminate.
  - destruct (requests_cons r rest now) as [E|(delay & Hd & E)]; rewrite E.
    + split; [|split; [repeat constructor|simpl; lia]].
      intros k t1 t2 r' _ H. destruct k as [|[|k]]; discriminate.
    + destruct (IH (now + latency r + delay)%Z) as (Hgap & Hall & Hlen).
      split; [|split; [constructor; auto|simpl; lia]].
      intros [|k] t1 t2 r' H1 H2 Hr; simpl in *.
      * inversion H1. inversion Hr. subst.
        destruct (requests_head rest (t1 + latency r' + delay)%Z) as [tl Htl].
        rewrite Htl in H2. simpl in H2. inversion H2.
        unfold short_delay, long_delay in *. destruct Hd; subst; lia.
      * exact (Hgap k t1 t2 r' H1 H2 Hr).
Qed.

End Loop.

Lemma polling_is_sequential_witness :
  (0 + 100 + short_delay <= 2100)%Z.
Proof.
  destruct (polling_is_sequential None None "t1"
              (sample_replies ++ [sample_final]) 0%Z) as (Hgap & _ & _).
  exact (Hgap 0 0%Z 2100%Z
           {| latency := 100; http := inl (sample_record processing);
              clock := "n" |}
           eq_refl eq_refl eq_refl).
Defined.

End PollMore.

(** ** The generator page *)

Module PageMore.
Import Api Page.

(** Actions that leave the stored task alone. *)
Definition keeps_task (a : Action) : bool :=
  match a with
  | Clear | CreateReply _ (Some _) => false
  | _ => true
  end.

Lemma step_keeps_task (p : Page) (a : Action) :
  keeps_task a = true ->
  task_key (step p a) = task_key p /\ repo_key (step p a) = repo_key p.
Proof.
  destruct a as [user|text| |n [task|]|n|n now http|handle| ];
    simpl; intros H; try discriminate; auto.
  - unfold handleSubmit. destruct (session p); auto.
    destruct (String.eqb _ _); auto.
  - unfold created_task. destruct (nth_error _ _) as [[u s]|]; auto.
  - unfold synced_start. destruct (nth_error _ _) as [[u s]|]; auto.
  - unfold status_reply. destruct (nth_error _ _) as [[u s]|]; auto.
    destruct (Poll.next_poll _) as [[d i]|]; auto.
  - unfold timer_fires. destruct (find _ _) as [[h c]|]; auto.
Qed.

Lemma run_keeps_task (actions : list Action) :
  forall p,
    forallb keeps_task actions = true ->
    task_key (run p actions) = task_key p
    /\ repo_key (run p actions) = repo_key p.
Proof.
  induction actions as [|a rest IH]; intros p H; simpl in *; auto.
  apply andb_true_iff in H as [Ha Hrest].
  destruct (IH (step p a) Hrest) as [E1 E2].
  destruct (step_keeps_task p a Ha) as [F1 F2].
  unfold run in *. split; congruence.
Qed.

Lemma open_stored (task : string) (repo : option string) :
  task <> "" ->
  open (Some task) repo
  = mkPage None "" (Some task) None false (Some task) repo None [] 1 [] []
           [(None, task)] [] 0.
Proof.
  intros H. unfold open, restore. simpl.
  destruct (String.eqb task "") eqn:E; [|reflexivity].
  apply String.eqb_eq in E. contradiction.
Qed.

(** X16.  A task survives a reload from the moment [createTask] has answered.
    The answer stores the task id and the submitted address; nothing but
    Clear or a later answer of [createTask] touches the two keys; and a page
    opened over them shows the task and has asked for its status, once,
    with no status shown yet. *)
Theorem created_task_survives_reload (p : Page) (n : nat)
    (user submitted created : string) (actions : list Action) :
  nth_error (creating p) n = Some (user, submitted) ->
  created <> "" ->
  forallb keeps_task actions = true ->
  let q := run (step p (CreateReply n (Some created))) actions in
  task_key q = Some created
  /\ repo_key q = Some submitted
  /\ taskId (reopen q) = Some created
  /\ polling (reopen q) = [(None, created)]
  /\ status (reopen q) = None
  /\ timers (reopen q) = [].
Proof.
  intros Hn Hc Hk q.
  destruct (run_keeps_task actions (step p (CreateReply n (Some created))) Hk)
    as [E1 E2].
  assert (K1 : task_key q = Some created).
  { unfold q. rewrite E1. simpl. unfold created_task. now rewrite Hn. }
  assert (K2 : repo_key q = Some submitted).
  { unfold q. rewrite E2. simpl. unfold created_task. now rewrite Hn. }
  unfold reopen. rewrite K1, K2, (open_stored created _ Hc). simpl. auto 10.
Qed.

Definition signed_in : Page :=
  step (step (open None None) (SignIn (Some "u1")))
       (SetUrl "https://github.com/o/r").

Lemma created_task_survives_reload_witness :
  polling (reopen (run (step (step signed_in Submit)
                             (CreateReply 0 (Some "t1")))
                       [SyncDone 0; SetUrl "x"]))
  = [(None, "t1")].
Proof.
  assert (Hc : "t1" <> "") by discriminate.
  exact (proj1 (proj2 (proj2 (proj2
    (created_task_survives_reload (step signed_in Submit) 0 "u1"
       "https://github.com/o/r" "t1" [SyncDone 0; SetUrl "x"]
       eq_refl Hc eq_refl))))).
Defined.

(** Completions: what happens to the page without the user. *)
Definition completion (a : Action) : bool :=
  match a with
  | CreateReply _ _ | SyncDone _ | StatusReply _ _ _ | TimerFires _ => true
  | _ => false
  end.

Definition idle (p : Page) : Prop :=
  creating p = [] /\ syncing p = [] /\ polling p = [] /\ timers p = [].

Lemma nth_error_nil_any {A} (n : nat) : nth_error (@nil A) n = None.
Proof. now destruct n. Qed.

Lemma idle_step (p : Page) (a : Action) :
  idle p -> completion a = true -> step p a = p.
Proof.
  intros (Hc & Hs & Hp & Ht) Ha.
  destruct a as [user|text| |n created|n|n now http|handle| ];
    try discriminate; simpl.
  - unfold created_task. now rewrite Hc, nth_error_nil_any.
  - unfold synced_start. now rewrite Hs, nth_error_nil_any.
  - unfold status_reply. now rewrite Hp, nth_error_nil_any.
  - unfold timer_fires. now rewrite Ht.
Qed.

Lemma idle_run (actions : list Action) (p : Page) :
  idle p -> forallb completion actions = true -> run p actions = p.
Proof.
  induction actions as [|a rest IH]; intros Hi H; simpl in *; auto.
  apply andb_true_iff in H as [Ha Hrest].
  rewrite (idle_step p a Hi Ha). now apply IH.
Qed.

Lemma clearTimeout_only (ref : option nat) (ts : list (nat * PollCall)) :
  (forall t, In t ts -> ref = Some (fst t)) ->
  clearTimeout ref ts = [].
Proof.
  intros H. destruct ts as [|t0 ts]; [now destruct ref|].
  assert (E : ref = Some (fst t0)) by (apply H; now left).
  subst ref. unfold clearTimeout.
  generalize dependent (t0 :: ts). intros l Hl.
  induction l as [|x l IHl]; simpl; auto.
  assert (Ex : fst x = fst t0).
  { specialize (Hl x (or_introl eq_refl)). congruence. }
  rewrite Ex, Nat.eqb_refl. simpl. apply IHl.
  intros t Ht. apply Hl. now right.
Qed.

(** X17.  Clear stops a loop that is waiting on its timer.  If no call is
    outstanding and the only timer armed is the one in [pollTimerRef], then
    after Clear nothing completes any more: the page stays as Clear left it,
    with no task, no status, an empty address and nothing stored, and a
    reload polls nothing. *)
Theorem clear_stops_a_waiting_loop (p : Page) (actions : list Action) :
  creating p = [] ->
  syncing p = [] ->
  polling p = [] ->
  (forall t, In t (timers p) -> pollTimerRef p = Some (fst t)) ->
  forallb completion actions = true ->
  let q := run (step p Clear) actions in
  q = step p Clear
  /\ taskId q = None /\ status q = None /\ url q = ""
  /\ task_key q = None /\ repo_key q = None
  /\ timers q = []
  /\ polling (reopen q) = [].
Proof.
  intros Hc Hs Hp Ht Ha q.
  assert (Hi : idle (step p Clear)).
  { unfold idle. simpl. rewrite (clearTimeout_only _ _ Ht). auto. }
  assert (E : q = step p Clear) by (now apply idle_run).
  rewrite E. destruct Hi as (_ & _ & _ & Hti).
  simpl in *. rewrite Hti. auto 10.
Qed.

Definition pending_record (id : string) : TaskStatusResponse :=
  {| task_id := id; Api.status := processing; progress := 10;
     current_step := "Cloning"; created_at := "c"; updated_at := "u";
     result := None; error := None |}.

(** A page that resumed task t1 and is waiting for its next poll. *)
Definition waiting : Page :=
  step (open (Some "t1") (Some "https://github.com/o/r"))
       (StatusReply 0 "n" (inl (pending_record "t1"))).

Lemma clear_stops_a_waiting_loop_witness :
  run (step waiting Clear) [TimerFires 1; StatusReply 0 "n" (inr OtherError)]
  = step waiting Clear.
Proof.
  refine (proj1 (clear_stops_a_waiting_loop waiting
            [TimerFires 1; StatusReply 0 "n" (inr OtherError)]
            eq_refl eq_refl eq_refl _ eq_refl)).
  intros t [Ht|[]]. now subst t.
Defined.

(** X18.  Clear does not stop a request that is on its way.  When the request
    completes with a record that is not terminal, the record is shown on
    the cleared page and a new timer is armed for the task, although no
    task is selected or stored any more. *)
Theorem clear_keeps_outstanding_request (p : Page) (n : nat)
    (user : option string) (id now : string) (res : TaskStatusResponse) :
  nth_error (polling p) n = Some (user, id) ->
  Poll.is_terminal (Api.status res) = false ->
  let q := step (step p Clear) (StatusReply n now (inl res)) in
  status q = Some res
  /\ taskId q = None
  /\ task_key q = None
  /\ In (next_handle p, (user, id)) (timers q)
  /\ pollTimerRef q = Some (next_handle p).
Proof.
  intros Hn Ht q. unfold q. simpl. unfold status_reply. simpl.
  rewrite Hn. simpl. rewrite Ht. simpl.
  repeat split; auto. apply in_or_app. right. now left.
Qed.

Lemma clear_keeps_outstanding_request_witness :
  status (step (step (open (Some "t1") None) Clear)
               (StatusReply 0 "n" (inl (pending_record "t1"))))
  = Some (pending_record "t1").
Proof.
  exact (proj1 (clear_keeps_outstanding_request (open (Some "t1") None) 0
                  None "t1" "n" (pending_record "t1") eq_refl eq_refl)).
Defined.













(** X20.  A stored id the server no longer knows.  The page opened over it asks
    once; the 404 becomes the failed record, which is shown, and polling
    ends with no timer armed.  The id stays stored, so every later load asks
    again. *)
Theorem stale_task_fails_on_every_load (id now : string)
    (stored_repo : option string) :
  id <> "" ->
  let q := step (open (Some id) stored_repo)
                (StatusReply 0 now (inr (AxiosError (Some 404%Z)))) in
  status q = Some (not_found_record now id)
  /\ polling q = []
  /\ timers q = []
  /\ task_key q = Some id
  /\ polling (reopen q) = [(None, id)].
Proof.
  intros Hid q. unfold q, reopen. rewrite (open_stored id _ Hid). simpl.
  unfold status_reply. simpl. rewrite (open_stored id _ Hid). simpl. auto 10.
Qed.

Lemma stale_task_fails_on_every_load_witness :
  status (step (open (Some "gone") None)
               (StatusReply 0 "n" (inr (AxiosError (Some 404%Z)))))
  = Some (not_found_record "n" "gone").
Proof.
  assert (H : "gone" <> "") by discriminate.
  exact (proj1 (stale_task_fails_on_every_load "gone" "n" None H)).
Defined.

End PageMore.

(** ** [fixMermaidSyntax] *)

Module RepairMore.
Import Chart Repair ChartSpec.

(** What follows the node id in a match. *)
Definition at_tail (w r1 : list ascii) : option AtMatch :=
  match r1 with
  | o :: r2 =>
      if Ascii.eqb o "[" then
        match span is_inner r2 with
        | (lab, _ :: r3) =>
            if existsb is_at lab
            then Some {| at_nodeId := w; at_label := lab; at_rest := r3 |}
            else None
        | (_, []) => None
        end
      else None
  | [] => None
  end.

Lemma at_match_tail (l : list ascii) :
  Repair.match_at l
  = match span is_word l with
    | ((_ :: _) as w, r1) => at_tail w r1
    | ([], _) => None
    end.
Proof.
  unfold Repair.match_at, at_tail.
  destruct (span is_word l) as [[|x w] [|o r2]]; reflexivity.
Qed.

Definition at_text (m : AtMatch) : list ascii :=
  at_nodeId m ++ "["%char :: at_label m ++ "]"%char :: at_rest m.

Lemma at_match_Some (l : list ascii) (m : AtMatch) :
  Repair.match_at l = Some m ->
  l = at_text m
  /\ at_nodeId m <> []
  /\ forallb is_word (at_nodeId m) = true
  /\ forallb is_inner (at_label m) = true
  /\ existsb is_at (at_label m) = true.
Proof.
  rewrite at_match_tail.
  destruct (span is_word l) as [[|x w] r1] eqn:Sw; [discriminate|].
  apply span_spec in Sw as (-> & Hw & _).
  unfold at_tail. destruct r1 as [|o r2]; [discriminate|].
  destruct (Ascii.eqb o "[") eqn:Ho; [|discriminate].
  apply Ascii.eqb_eq in Ho. subst o.
  destruct (span is_inner r2) as [lab [|c r3]] eqn:Sl; [discriminate|].
  apply span_spec in Sl as (-> & Hl & Hc).
  destruct (existsb is_at lab) eqn:Hat; [|discriminate].
  intros [= <-]. unfold at_text. simpl in *.
  unfold is_inner in Hc. apply negb_false_iff, Ascii.eqb_eq in Hc. subst c.
  repeat split; auto. discriminate.
Qed.

Lemma at_match_intro (w lab r : list ascii) :
  w <> [] ->
  forallb is_word w = true ->
  forallb is_inner lab = true ->
  existsb is_at lab = true ->
  Repair.match_at (w ++ "["%char :: lab ++ "]"%char :: r)
  = Some {| at_nodeId := w; at_label := lab; at_rest := r |}.
Proof.
  intros Hne Hw Hl Hat. rewrite at_match_tail.
  rewrite (span_app is_word w); [|assumption|reflexivity].
  destruct w as [|x w]; [contradiction|].
  unfold at_tail. simpl Ascii.eqb. cbv iota.
  rewrite (span_app is_inner lab); [|assumption|reflexivity].
  now rewrite Hat.
Qed.

Lemma at_match_rest_length (l : list ascii) (m : AtMatch) :
  Repair.match_at l = Some m -> List.length (at_rest m) < List.length l.
Proof.
  intros H. apply at_match_Some in H as [-> _]. unfold at_text.
  rewrite length_app. simpl. rewrite length_app. simpl. lia.
Qed.

Lemma fix_labels_fuel_enough (f1 : nat) :
  forall f2 l,
    List.length l < f1 -> List.length l < f2 ->
    fix_labels_fuel f1 l = fix_labels_fuel f2 l.
Proof.
  induction f1 as [|f1 IH]; intros f2 l H1 H2; [lia|].
  destruct f2 as [|f2]; [lia|]. simpl.
  destruct (Repair.match_at l) as [m|] eqn:M.
  - f_equal. pose proof (at_match_rest_length _ _ M). apply IH; lia.
  - destruct l as [|c t]; [reflexivity|]. simpl in *. f_equal. apply IH; lia.
Qed.

Lemma fix_labels_unfold (l : list ascii) :
  fix_labels l
  = match Repair.match_at l with
    | Some m => Repair.replacement m ++ fix_labels (at_rest m)
    | None =>
        match l with
        | [] => []
        | c :: t => c :: fix_labels t
        end
    end.
Proof.
  unfold fix_labels at 1. simpl.
  destruct (Repair.match_at l) as [m|] eqn:M.
  - f_equal. pose proof (at_match_rest_length _ _ M).
    apply fix_labels_fuel_enough; lia.
  - destruct l as [|c t]; reflexivity.
Qed.

Lemma at_match_nonword (c : ascii) (t : list ascii) :
  is_word c = false -> Repair.match_at (c :: t) = None.
Proof. intros H. rewrite at_match_tail. simpl. now rewrite H. Qed.

Lemma fix_labels_nonword (c : ascii) (t : list ascii) :
  is_word c = false -> fix_labels (c :: t) = c :: fix_labels t.
Proof.
  intros H. rewrite fix_labels_unfold. now rewrite (at_match_nonword c t H).
Qed.

Lemma at_match_word_prefix (x : ascii) (w r1 : list ascii) :
  forallb is_word (x :: w) = true ->
  stops is_word r1 ->
  Repair.match_at ((x :: w) ++ r1) = at_tail (x :: w) r1.
Proof.
  intros Hw Hr. rewrite at_match_tail, (span_app is_word (x :: w) r1 Hw Hr).
  reflexivity.
Qed.

Lemma at_tail_None (w w' r1 : list ascii) :
  at_tail w r1 = None -> at_tail w' r1 = None.
Proof.
  unfold at_tail. destruct r1 as [|o r2]; [reflexivity|].
  destruct (Ascii.eqb o "["); [|reflexivity].
  destruct (span is_inner r2) as [lab [|c r3]]; try reflexivity.
  destruct (existsb is_at lab); [discriminate|reflexivity].
Qed.

(** A text without a closing bracket holds no match. *)
Lemma fix_labels_no_close (l : list ascii) :
  forallb is_inner l = true -> fix_labels l = l.
Proof.
  induction l as [|c t IH]; intros H; [reflexivity|].
  rewrite fix_labels_unfold.
  destruct (Repair.match_at (c :: t)) as [m|] eqn:M.
  - exfalso. apply at_match_Some in M as (E & _).
    rewrite E in H. unfold at_text in H.
    rewrite forallb_app in H. apply andb_true_iff in H as [_ H].
    simpl in H. rewrite forallb_app in H. apply andb_true_iff in H as [_ H].
    simpl in H. discriminate.
  - simpl in H. apply andb_true_iff in H as [_ H]. now rewrite (IH H).
Qed.

Lemma existsb_suffix (a b : list ascii) :
  existsb is_at (a ++ b) = false -> existsb is_at b = false.
Proof.
  rewrite existsb_app. intros H. now apply orb_false_iff in H as [_ H].
Qed.

(** A stretch up to the first closing bracket that holds no at sign holds
    no match either: the label of a match that started in it would end at
    that bracket. *)
Lemma fix_labels_plain_stretch (lab r : list ascii) :
  forallb is_inner lab = true ->
  existsb is_at lab = false ->
  fix_labels (lab ++ "]"%char :: r) = lab ++ "]"%char :: fix_labels r.
Proof.
  induction lab as [|c lab IH]; intros Hl Hat.
  - simpl. now apply fix_labels_nonword.
  - rewrite fix_labels_unfold.
    destruct (Repair.match_at ((c :: lab) ++ "]"%char :: r)) as [m|] eqn:M.
    + exfalso.
      apply at_match_Some in M as (E & _ & Hw & Hml & Hmat).
      unfold at_text in E.
      assert (S1 : span is_inner ((c :: lab) ++ "]"%char :: r)
                   = (c :: lab, "]"%char :: r))
        by (apply span_app; [assumption|reflexivity]).
      assert (Hin : forallb is_inner (at_nodeId m ++ "["%char :: at_label m)
                    = true).
      { rewrite forallb_app. apply andb_true_iff. split.
        - clear -Hw. induction (at_nodeId m) as [|x w IHw]; [reflexivity|].
          simpl in *. apply andb_true_iff in Hw as [Hx Hw].
          rewrite (IHw Hw), andb_true_r. unfold is_inner.
          destruct (Ascii.eqb x "]") eqn:Ex; [|reflexivity].
          apply Ascii.eqb_eq in Ex. subst x. discriminate.
        - simpl. exact Hml. }
      assert (S2 : span is_inner ((at_nodeId m ++ "["%char :: at_label m)
                                    ++ "]"%char :: at_rest m)
                   = (at_nodeId m ++ "["%char :: at_label m,
                      "]"%char :: at_rest m))
        by (apply span_app; [assumption|reflexivity]).
      rewrite <- app_assoc in S2. simpl in S2. rewrite <- E in S2.
      rewrite S1 in S2. inversion S2 as [[E1 E2]].
      rewrite E1 in Hat.
      apply existsb_suffix in Hat. simpl in Hat.
      congruence.
    + simpl in *. apply andb_true_iff in Hl as [_ Hl].
      apply orb_false_iff in Hat as [_ Hat]. now rewrite (IH Hl Hat).
Qed.

Lemma fix_labels_word_prefix (w r1 : list ascii) :
  forallb is_word w = true ->
  stops is_word r1 ->
  at_tail [] r1 = None ->
  fix_labels (w ++ r1) = w ++ fix_labels r1.
Proof.
  intros Hw Hr Ht. induction w as [|x w IH]; [reflexivity|].
  rewrite fix_labels_unfold, (at_match_word_prefix x w r1 Hw Hr).
  rewrite (at_tail_None [] (x :: w) r1 Ht). simpl.
  simpl in Hw. apply andb_true_iff in Hw as [_ Hw]. now rewrite (IH Hw).
Qed.

Lemma stops_fix_labels (r1 : list ascii) :
  stops is_word r1 -> stops is_word (fix_labels r1).
Proof.
  destruct r1 as [|x r2]; [intros _; exact I|]. simpl. intros H.
  now rewrite (fix_labels_nonword x r2 H).
Qed.

Lemma at_tail_fix_labels (w r1 : list ascii) :
  stops is_word r1 ->
  at_tail w r1 = None ->
  at_tail w (fix_labels r1) = None.
Proof.
  destruct r1 as [|o r2]; [reflexivity|]. simpl. intros Ho H.
  rewrite (fix_labels_nonword o r2 Ho).
  revert H. unfold at_tail. destruct (Ascii.eqb o "["); [|reflexivity].
  destruct (span is_inner r2) as [lab r3] eqn:S.
  apply span_spec in S as (-> & Hlab & Hr3).
  destruct r3 as [|c0 r4].
  - (* no closing bracket at all *)
    intros _. rewrite app_nil_r, (fix_labels_no_close _ Hlab).
    rewrite <- (app_nil_r lab) at 1.
    now rewrite (span_app is_inner lab [] Hlab I).
  - (* a label without an at sign *)
    simpl in Hr3. unfold is_inner in Hr3.
    apply negb_false_iff, Ascii.eqb_eq in Hr3. subst c0.
    destruct (existsb is_at lab) eqn:Hat; [discriminate|]. intros _.
    rewrite (fix_labels_plain_stretch lab r4 Hlab Hat).
    rewrite (span_app is_inner lab); [|assumption|reflexivity].
    now rewrite Hat.
Qed.

Lemma at_no_match_preserved (c : ascii) (t : list ascii) :
  Repair.match_at (c :: t) = None ->
  Repair.match_at (c :: fix_labels t) = None.
Proof.
  destruct (is_word c) eqn:Hc; [|intros _; now apply at_match_nonword].
  destruct (span is_word t) as [w r1] eqn:S.
  apply span_spec in S as (-> & Hw & Hr).
  assert (Hcw : forallb is_word (c :: w) = true) by (simpl; now rewrite Hc).
  change (c :: w ++ r1) with ((c :: w) ++ r1).
  rewrite (at_match_word_prefix c w r1 Hcw Hr). intros H.
  rewrite (fix_labels_word_prefix w r1 Hw Hr (at_tail_None _ [] _ H)).
  change (c :: w ++ fix_labels r1) with ((c :: w) ++ fix_labels r1).
  rewrite (at_match_word_prefix c w _ Hcw (stops_fix_labels r1 Hr)).
  now apply at_tail_fix_labels.
Qed.

(** *** The cleaned label *)

Lemma strip_last_snoc (l : list ascii) (c : ascii) :
  is_quote c = true -> strip_last (l ++ [c]) = l.
Proof.
  intros H. unfold strip_last. rewrite rev_app_distr. simpl.
  now rewrite H, rev_involutive.
Qed.

Lemma dquote_is_quote : is_quote Str.dquote = true.
Proof. reflexivity. Qed.

(** Cleaning the label that the callback wrote gives back the label it
    wrapped. *)
Lemma cleanLabel_written (clean : list ascii) :
  cleanLabel (Str.dquote :: clean ++ [Str.dquote]) = clean.
Proof.
  unfold cleanLabel. rewrite dquote_is_quote.
  now apply strip_last_snoc.
Qed.

Lemma at_not_quote (c : ascii) : is_at c = true -> is_quote c = false.
Proof. unfold is_at. intros H. apply Ascii.eqb_eq in H. now subst. Qed.

Lemma strip_last_keeps (l : list ascii) :
  forallb is_inner l = true ->
  forallb is_inner (strip_last l) = true
  /\ existsb is_at (strip_last l) = existsb is_at l.
Proof.
  intros H. unfold strip_last.
  destruct (rev l) as [|c t] eqn:E.
  - apply (f_equal (@rev ascii)) in E. rewrite rev_involutive in E.
    subst l. auto.
  - destruct (is_quote c) eqn:Q; [|auto].
    apply (f_equal (@rev ascii)) in E. rewrite rev_involutive in E.
    subst l. simpl in *. rewrite forallb_app in H.
    apply andb_true_iff in H as [H _]. split; [exact H|].
    rewrite existsb_app. simpl.
    destruct (is_at c) eqn:A.
    + rewrite (at_not_quote c A) in Q. discriminate.
    + now rewrite orb_false_r.
Qed.

Lemma cleanLabel_keeps (lab : list ascii) :
  forallb is_inner lab = true ->
  forallb is_inner (cleanLabel lab) = true
  /\ existsb is_at (cleanLabel lab) = existsb is_at lab.
Proof.
  intros H. unfold cleanLabel. destruct lab as [|c t]; [auto|].
  destruct (is_quote c) eqn:Q.
  - simpl in H. apply andb_true_iff in H as [_ H].
    destruct (strip_last_keeps t H) as [H1 H2]. split; [exact H1|].
    rewrite H2. simpl. destruct (is_at c) eqn:A; [|reflexivity].
    rewrite (at_not_quote c A) in Q. discriminate.
  - now apply strip_last_keeps.
Qed.

(** *** Repairing twice *)

Lemma fix_labels_idempotent (n : nat) :
  forall l, List.length l <= n -> fix_labels (fix_labels l) = fix_labels l.
Proof.
  induction n as [|n IH]; intros l Hn.
  - destruct l; [reflexivity|simpl in Hn; lia].
  - rewrite (fix_labels_unfold l).
    destruct (Repair.match_at l) as [m|] eqn:M.
    + pose proof (at_match_rest_length _ _ M) as Hlen.
      apply at_match_Some in M as (_ & Hne & Hw & Hl & Hat).
      destruct (cleanLabel_keeps (at_label m) Hl) as [Hcl Hcat].
      unfold Repair.replacement.
      assert (Hl' : forallb is_inner
                      (Str.dquote :: cleanLabel (at_label m) ++ [Str.dquote])
                    = true).
      { simpl. rewrite forallb_app, Hcl. reflexivity. }
      assert (Hat' : existsb is_at
                       (Str.dquote :: cleanLabel (at_label m) ++ [Str.dquote])
                     = true).
      { simpl. rewrite existsb_app, Hcat, Hat. reflexivity. }
      assert (Shape :
        (at_nodeId m ++ "["%char :: Str.dquote :: cleanLabel (at_label m)
           ++ [Str.dquote; "]"%char]) ++ fix_labels (at_rest m)
        = at_nodeId m ++ "["%char
            :: (Str.dquote :: cleanLabel (at_label m) ++ [Str.dquote])
            ++ "]"%char :: fix_labels (at_rest m)).
      { rewrite <- app_assoc. simpl. f_equal. f_equal. f_equal.
        rewrite <- !app_assoc. reflexivity. }
      rewrite Shape at 1.
      rewrite fix_labels_unfold,
        (at_match_intro _ _ (fix_labels (at_rest m)) Hne Hw Hl' Hat').
      unfold Repair.replacement. simpl at_nodeId. simpl at_label.
      simpl at_rest. rewrite cleanLabel_written.
      rewrite (IH (at_rest m)) by lia. reflexivity.
    + destruct l as [|c t]; [reflexivity|].
      rewrite fix_labels_unfold, (at_no_match_preserved c t M).
      simpl in Hn. rewrite (IH t) by lia. reflexivity.
Qed.

(** X21.  Repairing is idempotent, on every text: a label that holds an at sign
    comes out wrapped in one pair of double quotes, also when it was quoted
    already, and a second pass finds the same labels and writes them the
    same way. *)
Theorem fixMermaidSyntax_idempotent (mermaidCode : string) :
  fixMermaidSyntax (fixMermaidSyntax mermaidCode)
  = fixMermaidSyntax mermaidCode.
Proof.
  unfold fixMermaidSyntax. rewrite list_ascii_of_string_of_list_ascii.
  now rewrite (fix_labels_idempotent _ _ (le_n _)).
Qed.

Lemma fix_labels_without_at (l : list ascii) :
  existsb is_at l = false -> fix_labels l = l.
Proof.
  induction l as [|c t IH]; intros H; [reflexivity|].
  rewrite fix_labels_unfold.
  destruct (Repair.match_at (c :: t)) as [m|] eqn:M.
  - exfalso. apply at_match_Some in M as (E & _ & _ & _ & Hat).
    rewrite E in H. unfold at_text in H.
    rewrite existsb_app in H. apply orb_false_iff in H as [_ H].
    simpl in H. rewrite existsb_app in H.
    apply orb_false_iff in H as [H _]. congruence.
  - simpl in H. apply orb_false_iff in H as [_ H]. now rewrite (IH H).
Qed.

(** X22.  A diagram without an at sign is left as it is. *)
Theorem fixMermaidSyntax_needs_an_at_sign (mermaidCode : string) :
  existsb is_at (list_ascii_of_string mermaidCode) = false ->
  fixMermaidSyntax mermaidCode = mermaidCode.
Proof.
  intros H. unfold fixMermaidSyntax.
  now rewrite (fix_labels_without_at _ H), string_of_list_ascii_of_string.
Qed.

Lemma fixMermaidSyntax_needs_an_at_sign_witness :
  fixMermaidSyntax "graph TD; A[web/app] --> B(mail)"
  = "graph TD; A[web/app] --> B(mail)".
Proof.
  apply fixMermaidSyntax_needs_an_at_sign. reflexivity.
Defined.

End RepairMore.

(** ** The chat panel *)

Module ChatMore.
Import Chat.

(** What an exchange leaves in the history: the question, and the answer
    if there was one. *)
Definition said (x : string * (ChatResponse + Thrown)) : list ChatMessage :=
  {| role := user; content := Str.trim (fst x) |}
    :: match snd x with
       | inl response => [{| role := assistant; content := answer response |}]
       | inr _ => []
       end.

(** The history that goes with each question of a conversation that
    starts after [before]. *)
Fixpoint histories (before : list ChatMessage)
    (xs : list (string * (ChatResponse + Thrown))) : list (list ChatMessage) :=
  match xs with
  | [] => []
  | x :: rest => before :: histories (before ++ said x) rest
  end.

Section Panel.

Variable repoUrl : string.
Variable currentPageContext : option string.

Lemma buildConversationHistory_app (a b : list DisplayMessage) :
  buildConversationHistory (a ++ b)
  = buildConversationHistory a ++ buildConversationHistory b.
Proof.
  unfold buildConversationHistory. now rewrite filter_app, map_app.
Qed.

Lemma exchange_spec (st : State) (x : string * (ChatResponse + Thrown)) :
  isLoading st = false ->
  Str.trim (fst x) <> "" ->
  let st' := exchange repoUrl currentPageContext st x in
  isLoading st' = false
  /\ buildConversationHistory (messages st')
     = buildConversationHistory (messages st) ++ said x
  /\ sent st'
     = sent st
         ++ [{| question := Str.trim (fst x);
                repo_url := repoUrl;
                conversation_history :=
                  buildConversationHistory (messages st);
                current_page_context := currentPageContext |}].
Proof.
  intros Hl Hq. destruct x as [text outcome]. simpl in Hq.
  unfold exchange. simpl. unfold handleSendMessage. simpl.
  rewrite Hl. apply String.eqb_neq in Hq. rewrite Hq. simpl.
  unfold answered. simpl. unfold said. simpl.
  destruct outcome as [response|err]; simpl;
    rewrite <- app_assoc, buildConversationHistory_app; auto.
Qed.

Lemma converse_spec (xs : list (string * (ChatResponse + Thrown))) :
  forall st,
    isLoading st = false ->
    Forall (fun x => Str.trim (fst x) <> "") xs ->
    let st' := converse repoUrl currentPageContext st xs in
    isLoading st' = false
    /\ map conversation_history (sent st')
       = map conversation_history (sent st)
           ++ histories (buildConversationHistory (messages st)) xs
    /\ map question (sent st')
       = map question (sent st) ++ map (fun x => Str.trim (fst x)) xs.
Proof.
  induction xs as [|x rest IH]; intros st Hl Hxs; simpl.
  - now rewrite !app_nil_r.
  - inversion Hxs as [|? ? Hx Hrest]; subst.
    destruct (exchange_spec st x Hl Hx) as (Hl' & Hb & Hs).
    destruct (IH _ Hl' Hrest) as (Hl'' & Hh & Hq).
    unfold converse in *. simpl in *.
    split; [exact Hl''|]. split.
    + rewrite Hh, Hs, Hb, map_app. simpl. now rewrite <- app_assoc.
    + rewrite Hq, Hs, map_app. simpl. now rewrite <- app_assoc.
Qed.

(** X23.  What the panel sends.  In a conversation of exchanges with non-blank
    texts, each request carries the trimmed text as its question and, as
    its history, what the earlier exchanges left: each earlier question, in
    order, followed by its answer if the request succeeded.  The question
    being asked is not part of its own history; the reply shown for a
    failed request is never sent, but the question that failed is. *)
Theorem chat_history_of_a_conversation
    (xs : list (string * (ChatResponse + Thrown))) :
  Forall (fun x => Str.trim (fst x) <> "") xs ->
  let st := converse repoUrl currentPageContext initial xs in
  map conversation_history (sent st) = histories [] xs
  /\ map question (sent st) = map (fun x => Str.trim (fst x)) xs
  /\ isLoading st = false.
Proof.
  intros Hxs.
  destruct (converse_spec xs initial eq_refl Hxs) as (Hl & Hh & Hq).
  simpl in *. auto.
Qed.

End Panel.

Definition sample_conversation : list (string * (ChatResponse + Thrown)) :=
  [ (" what is it? ", inr (ErrorObject "no index"));
    ("and now?", inl {| answer := "a wiki"; answer_sources := None |});
    ("thanks", inr OtherThrown) ].

Lemma chat_history_of_a_conversation_witness :
  map conversation_history
      (sent (converse "https://github.com/o/r" None initial
                      sample_conversation))
  = [ [];
      [ {| role := user; content := "what is it?" |} ];
      [ {| role := user; content := "what is it?" |};
        {| role := user; content := "and now?" |};
        {| role := assistant; content := "a wiki" |} ] ].
Proof.
  refine (proj1 (chat_history_of_a_conversation "https://github.com/o/r" None
                   sample_conversation _)).
  repeat constructor; discriminate.
Defined.

End ChatMore.

(** ** The test API *)

Module WorkerMore.
Import Api Worker.

Fixpoint slash_free (s : string) : bool :=
  match s with
  | EmptyString => true
  | String c t => negb (Ascii.eqb c "/") && slash_free t
  end.

Lemma prefix_needs_slash (c : ascii) (t : string) :
  Ascii.eqb c "/" = false -> String.prefix "/task/" (String c t) = false.
Proof.
  intros H. cbn [String.prefix].
  destruct (ascii_dec "/" c) as [E|E]; [|reflexivity].
  subst c. discriminate.
Qed.

Lemma until_sep_slash_free (s : string) :
  slash_free s = true -> until_sep "/task/" s = s.
Proof.
  induction s as [|c t IH]; [reflexivity|]. intros H.
  simpl in H. apply andb_true_iff in H as [Hc Ht].
  apply negb_true_iff in Hc.
  cbn [until_sep]. rewrite (prefix_needs_slash c t Hc).
  now rewrite (IH Ht).
Qed.

Lemma after_first_task (id : string) :
  after_first "/task/" ("/task/" ++ id) = Some id.
Proof. destruct id; reflexivity. Qed.

Lemma startsWith_task (id : string) :
  Str.startsWith ("/task/" ++ id) "/task/" = true.
Proof. destruct id; reflexivity. Qed.

Lemma path_task_plain (id : string) :
  id <> "" -> slash_free id = true ->
  path_task ("/task/" ++ id) = Some id.
Proof.
  intros Hid Hs. unfold path_task, split_1.
  rewrite after_first_task. simpl.
  rewrite (until_sep_slash_free id Hs).
  apply String.eqb_neq in Hid. now rewrite Hid.
Qed.

Lemma fetch_get_task (uuid : string) (tasks : Tasks) (id : string)
    (sent : option JS.value) :
  fetch uuid tasks {| method := GET; path := "/task/" ++ id; json := sent |}
  = match path_task ("/task/" ++ id) with
    | Some taskId => respond tasks 200 (TaskStatus (getFixedResponse taskId))
    | None => respond tasks 400 (Refused TaskIdRequired)
    end.
Proof.
  unfold fetch. cbn [method path].
  now rewrite startsWith_task.
Qed.

Lemma fetch_delete_task (uuid : string) (tasks : Tasks) (id : string)
    (sent : option JS.value) :
  fetch uuid tasks {| method := DELETE; path := "/task/" ++ id; json := sent |}
  = match path_task ("/task/" ++ id) with
    | Some taskId =>
        if has tasks taskId
        then respond (delete tasks taskId) 200 (TaskDeleted taskId)
        else respond tasks 404 (Refused NoSuchTask)
    | None => respond tasks 400 (Refused TaskIdRequired)
    end.
Proof.
  unfold fetch. cbn [method path].
  now rewrite startsWith_task.
Qed.

(** X24.  The test API knows every task and every task is finished.  A status
    request for any id without a slash is answered 200 with the fixed
    record under that id, whatever was created or deleted before, and the
    task map is left alone.  A poll answered with that record shows it and
    asks no more: against this server the client never sees a pending task
    or a 404. *)
Theorem worker_reports_every_task_completed (uuid : string) (tasks : Tasks)
    (id : string) (sent : option JS.value) :
  id <> "" ->
  slash_free id = true ->
  fetch uuid tasks {| method := GET; path := "/task/" ++ id; json := sent |}
  = (tasks, {| code := 200; body := TaskStatus (getFixedResponse id) |})
  /\ forall session saved r rest now,
       Poll.http r = inl (getFixedResponse id) ->
       Poll.watch session saved (r :: rest) now id
       = [ Poll.Requested now id;
           Poll.Emitted (now + Poll.latency r) (getFixedResponse id) ].
Proof.
  intros Hid Hs. split.
  - rewrite fetch_get_task, (path_task_plain id Hid Hs). reflexivity.
  - intros session saved r rest now Hr.
    apply PollSpec.watch_terminal.
    + unfold getTaskStatus. now rewrite Hr.
    + reflexivity.
Qed.

Lemma worker_reports_every_task_completed_witness :
  fetch "u" [] {| method := GET; path := "/task/never-created"; json := None |}
  = ([], {| code := 200;
            body := TaskStatus (getFixedResponse "never-created") |}).
Proof.
  assert (H : "never-created" <> "") by discriminate.
  exact (proj1 (worker_reports_every_task_completed "u" [] "never-created"
                  None H eq_refl)).
Defined.

Lemma has_app (tasks : Tasks) (k : string) :
  has (tasks ++ [k]) k = true.
Proof.
  unfold has. rewrite existsb_app. simpl. rewrite String.eqb_refl.
  now rewrite orb_true_r.
Qed.

Lemma delete_absent (tasks : Tasks) (k : string) :
  has tasks k = false -> delete tasks k = tasks.
Proof.
  unfold has, delete. induction tasks as [|x rest IH]; [reflexivity|].
  simpl. intros H. apply orb_false_iff in H as [Hx Hrest].
  rewrite Hx. simpl. now rewrite (IH Hrest).
Qed.

Lemma delete_last (tasks : Tasks) (k : string) :
  has tasks k = false -> delete (tasks ++ [k]) k = tasks.
Proof.
  intros H. unfold delete. rewrite filter_app. simpl.
  rewrite String.eqb_refl. simpl. rewrite app_nil_r.
  exact (delete_absent tasks k H).
Qed.

(** X25.  Creating and deleting a task.  A POST to [/generate] with a truthy
    [url_link] records the new id as the last task; the list of tasks then
    ends with its record; a DELETE of that id answers 200 and gives back the
    map as it was; a second DELETE answers 404 and changes nothing. *)
Theorem worker_create_then_delete (uuid other : string) (tasks : Tasks)
    (parsed url_link : JS.value) :
  JS.get parsed "url_link" = Some url_link ->
  JS.truthy url_link = true ->
  uuid <> "" ->
  slash_free uuid = true ->
  has tasks uuid = false ->
  let created := tasks ++ [uuid] in
  let remove := {| method := DELETE; path := "/task/" ++ uuid; json := None |} in
  fetch uuid tasks
        {| method := POST; path := "/generate"; json := Some parsed |}
  = (created, {| code := 200; body := TaskCreated uuid |})
  /\ fetch other created {| method := GET; path := "/tasks"; json := None |}
     = (created,
        {| code := 200;
           body := TaskList (map getFixedResponse tasks
                               ++ [getFixedResponse uuid]) |})
  /\ fetch other created remove
     = (tasks, {| code := 200; body := TaskDeleted uuid |})
  /\ fetch other tasks remove
     = (tasks, {| code := 404; body := Refused NoSuchTask |}).
Proof.
  intros Hget Htruthy Hid Hs Hnew created remove.
  split; [|split; [|split]].
  - unfold fetch. simpl. rewrite Hget, Htruthy. unfold set. now rewrite Hnew.
  - unfold fetch. simpl. unfold created. now rewrite map_app.
  - unfold remove. rewrite fetch_delete_task, (path_task_plain uuid Hid Hs).
    unfold created. rewrite has_app, (delete_last tasks uuid Hnew).
    reflexivity.
  - unfold remove. rewrite fetch_delete_task, (path_task_plain uuid Hid Hs).
    now rewrite Hnew.
Qed.

Lemma worker_create_then_delete_witness :
  fetch "x" ["t0"; "t1"]
        {| method := DELETE; path := "/task/t1"; json := None |}
  = (["t0"], {| code := 200; body := TaskDeleted "t1" |}).
Proof.
  assert (H : "t1" <> "") by discriminate.
  exact (proj1 (proj2 (proj2
    (worker_create_then_delete "t1" "x" ["t0"]
       (JS.VObj [("url_link", JS.VStr "https://github.com/o/r")])
       (JS.VStr "https://github.com/o/r")
       eq_refl eq_refl H eq_refl eq_refl)))).
Defined.

End WorkerMore.
